(** * CFModel: a continued-fraction regression model

    A shallow embedding of the class [CFModel] of [xgboost.ipynb]
    (methods [__init__]/[read_data], [fit], [predict], [compute_depth],
    [compute_recursive], [pair_interactions] and [mse]) and the
    verification of its specification.

    - The arithmetic of numpy's arrays is an interface ([Arith]) with two
      implementations: IEEE 754 binary64, which is what the program runs
      on, and the rationals.  What is proved of the program is proved for
      every implementation, under assumptions that binary64 meets where
      there are any.  The rationals serve for worked examples, and to
      show what the comment in [fit] about the shifted residuals means:
      it holds for them, and fails in binary64.
    - scikit-learn's regressors are an interface ([Sklearn]); a regressor
      on one feature, in closed form, implements it for the examples.
    - Python's [int] and [float] on the fields of the data file are an
      interface ([Builtins]); a reader of decimal integers implements it
      for the examples.
    - Python exceptions are results ([Raise]); a method is a function from
      the state of the interpreter (arrays on a heap, the attributes of
      [self]) to a result and the state it leaves behind, so that what an
      exception leaves half-done stays visible. *)

From Stdlib Require Import ZArith QArith Qabs Qminmax Lia Lqa PrimFloat.
From Stdlib Require Ascii String FloatAxioms.
From stdpp Require Import base tactics option list.

Set Default Proof Using "Type".
Local Open Scope Z_scope.

(** ** Exceptions and results *)

Inductive exn : Set :=
  | AttributeError   (* attribute read before it was ever assigned *)
  | IndexError       (* list or array index out of range *)
  | ValueError       (* numpy: negative dimension, empty reduction, shapes *)
  | RecursionError   (* recursion budget exhausted *)
  | SolverError      (* whatever a regressor raises from its solve *)
  | Stuck.           (* dangling array reference: no execution reaches it *)

Inductive res (A : Type) : Type :=
  | Ok (a : A)
  | Raise (e : exn).
Arguments Ok {A} a.
Arguments Raise {A} e.

#[global] Instance exn_eq_dec : EqDecision exn.
Proof. solve_decision. Defined.

#[global] Instance res_ret : MRet res := fun A a => Ok a.
#[global] Instance res_bind : MBind res := fun A B f r =>
  match r with Ok a => f a | Raise e => Raise e end.

Definition is_Ok {A} (r : res A) : Prop := exists a, r = Ok a.

(** ** Arithmetic of array elements (numpy float64) *)

Class Arith (num : Type) := {
  fzero : num;                    (* 0.0 *)
  fone : num;                     (* 1 *)
  fadd : num -> num -> num;       (* a + b *)
  fsub : num -> num -> num;       (* a - b *)
  fmul : num -> num -> num;       (* a * b, used for e**2 *)
  fdiv : num -> num -> num;       (* a / b, total as numpy's is *)
  fabs : num -> num;              (* np.abs *)
  fmin : num -> num -> num;       (* the step of ndarray.min() *)
  fltb : num -> num -> bool;      (* a < b *)
  fisfinite : num -> bool;        (* np.isfinite *)
  fof_nat : nat -> num            (* an int such as shape[0] as a float *)
}.
Arguments fzero : simpl never.
Arguments fone : simpl never.
Arguments fadd : simpl never.
Arguments fsub : simpl never.
Arguments fmul : simpl never.
Arguments fdiv : simpl never.
Arguments fabs : simpl never.
Arguments fmin : simpl never.
Arguments fltb : simpl never.
Arguments fisfinite : simpl never.
Arguments fof_nat : simpl never.

(** ** One-dimensional arrays and their element-wise operations *)

(** A one-dimensional array is the list of its elements, a matrix the list
    of its rows. *)
Section Arrays.
Context {num : Type} `{Arith num}.
Local Abbreviation Vec := (list num) (only parsing).

(** [np.zeros((n,))] refuses a negative dimension. *)
Definition np_zeros (n : Z) : res Vec :=
  if n <? 0 then Raise ValueError else Ok (replicate (Z.to_nat n) fzero).

(** [a op b] on arrays: equal shapes combine element-wise, a one-element
    array is broadcast, anything else is a [ValueError]. *)
Definition broadcast2 (op : num -> num -> num) (a b : Vec) : res Vec :=
  if (length a =? length b)%nat then Ok (zip_with op a b)
  else match a, b with
       | [x], _ => Ok (map (op x) b)
       | _, [z] => Ok (map (fun x => op x z) a)
       | _, _ => Raise ValueError
       end.

Definition vadd : Vec -> Vec -> res Vec := broadcast2 fadd.
Definition vsub : Vec -> Vec -> res Vec := broadcast2 fsub.

(** array-with-scalar operations *)
Definition vadd_scalar (a : Vec) (c : num) : Vec := map (fun x => fadd x c) a.
Definition vsub_scalar (a : Vec) (c : num) : Vec := map (fun x => fsub x c) a.
Definition vdiv_scalar (a : Vec) (c : num) : Vec := map (fun x => fdiv x c) a.
Definition vrecip (a : Vec) : Vec := map (fun x => fdiv fone x) a.   (* 1 / a *)
Definition vsquare (a : Vec) : Vec := map (fun x => fmul x x) a.     (* a**2 *)

(** [a.min()]: the minimum of an empty array is a [ValueError]. *)
Definition np_min (a : Vec) : res num :=
  match a with
  | [] => Raise ValueError
  | x :: xs => Ok (foldl fmin x xs)
  end.

(** [np.sum(a)] *)
Definition np_sum (a : Vec) : num := foldl fadd fzero a.
End Arrays.

(** ** The interpreter state: a heap of arrays and the attributes of [self] *)

Definition loc : Set := nat.

(** scikit-learn, as far as the model uses it: what [.fit(X, y)] of
    [LinearRegression()] and of [Lasso()] returns, a fitted regressor or an
    exception; [.predict(X)] of a fitted regressor; and
    [train_test_split(X, y, test_size=t)], which is (X, X_test, y, y_test)
    or an exception (a [test_size] that is out of range, or one that
    leaves no row to train on). *)
Class Sklearn (num Model : Type) := {
  LinearRegression_fit : list (list num) -> list num -> res Model;
  Lasso_fit : list (list num) -> list num -> res Model;
  model_predict : Model -> list (list num) -> res (list num);
  train_test_split :
    list (list num) -> list num -> num ->
    res (list (list num) * list (list num) * list num * list num)
}.

Section Model.
Context {num : Type} {ar : Arith num} {Model : Type} {sk : Sklearn num Model}.
Local Abbreviation Vec := (list num) (only parsing).
Local Abbreviation Matrix := (list (list num)) (only parsing).

(** The attributes of a [CFModel] object.  [y] and [min_coeff] hold
    references to arrays of the heap ([min_coeff] is assigned by index,
    [y] is aliased by [fit]); [X] is only ever read and is kept by
    value.  [X_test], [y_test] and [linear_models] do not exist until
    they are first assigned. *)
Record CFModel := {
  depth : Z;
  norm : num;
  lasso : bool;
  X : Matrix;
  y : loc;
  X_test : option Matrix;
  y_test : option loc;
  min_coeff : loc;
  linear_models : option (list Model)
}.

(** [stores] is a ghost log of the item assignments [a[i] = v] executed
    so far, most recent first. *)
Record State := {
  heap : list Vec;
  stores : list (loc * nat);
  self : CFModel
}.

Definition M (A : Type) : Type := State -> res A * State.

#[global] Instance M_ret : MRet M := fun A a s => (Ok a, s).
#[global] Instance M_bind : MBind M := fun A B f m s =>
  match m s with
  | (Ok a, s') => f a s'
  | (Raise e, s') => (Raise e, s')
  end.

Definition raise {A} (e : exn) : M A := fun s => (Raise e, s).
Definition lift {A} (r : res A) : M A := fun s => (r, s).
Definition get_self : M CFModel := fun s => (Ok (self s), s).

(** reading an attribute that may not exist yet *)
Definition attr {A} (o : option A) : M A :=
  match o with Some a => mret a | None => raise AttributeError end.

(** [l[i]] on a list or an array *)
Definition index {A} (l : list A) (i : nat) : M A :=
  match l !! i with Some a => mret a | None => raise IndexError end.

(** a new array object *)
Definition alloc (v : Vec) : M loc := fun s =>
  (Ok (length (heap s)),
   {| heap := heap s ++ [v]; stores := stores s; self := self s |}).

(** the contents of an array object *)
Definition load (l : loc) : M Vec := fun s =>
  match heap s !! l with
  | Some v => (Ok v, s)
  | None => (Raise Stuck, s)
  end.

(** [a[i] = v], in place *)
Definition store_item (l : loc) (i : nat) (v : num) : M unit := fun s =>
  match heap s !! l with
  | Some a =>
      if decide (i < length a)%nat
      then (Ok tt, {| heap := <[l := <[i := v]> a]> (heap s);
                      stores := (l, i) :: stores s;
                      self := self s |})
      else (Raise IndexError, s)
  | None => (Raise Stuck, s)
  end.

Definition set_linear_models (ms : list Model) : M unit := fun s =>
  (Ok tt,
   {| heap := heap s; stores := stores s;
      self := {| depth := depth (self s); norm := norm (self s);
                 lasso := lasso (self s); X := X (self s); y := y (self s);
                 X_test := X_test (self s); y_test := y_test (self s);
                 min_coeff := min_coeff (self s);
                 linear_models := Some ms |} |}).

(** [self.linear_models.append(model)] *)
Definition append_model (model : Model) : M unit :=
  s ← get_self;
  ms ← attr (linear_models s);
  set_linear_models (ms ++ [model]).

(** [self.min_coeff[d]] *)
Definition min_coeff_at (d : nat) : M num :=
  s ← get_self;
  mc ← load (min_coeff s);
  index mc d.

(** ** [__init__] and [read_data]

    [data] is what [read_data] parses from the data file: the feature
    rows and the targets.  A constructor that raises leaves no object. *)
Definition init (depth : Z) (data : Matrix * Vec) (norm : num)
    (test_size : num) (lasso : bool) : res State :=
  let '(X0, y0) := data in
  (* read_data: self.min_coeff = np.zeros((self.depth + 2, )) *)
  mc ← np_zeros (depth + 2);
  (* read_data: self.y /= self.norm *)
  let y1 := vdiv_scalar y0 norm in
  if fltb fzero test_size then
    '(Xtr, Xte, ytr, yte) ← train_test_split X0 y1 test_size;
    Ok {| heap := [y1; mc; ytr; yte]; stores := [];
          self := {| depth := depth; norm := norm; lasso := lasso;
                     X := Xtr; y := 2%nat;
                     X_test := Some Xte; y_test := Some 3%nat;
                     min_coeff := 1%nat; linear_models := None |} |}
  else
    Ok {| heap := [y1; mc]; stores := [];
          self := {| depth := depth; norm := norm; lasso := lasso;
                     X := X0; y := 0%nat;
                     X_test := None; y_test := None;
                     min_coeff := 1%nat; linear_models := None |} |}.

(** ** [compute_depth], [compute_recursive] and [predict] *)

Definition compute_depth (d : nat) (X_pred : Matrix) : M Vec :=
  s ← get_self;
  ms ← attr (linear_models s);
  m ← index ms d;
  lift (model_predict m X_pred).

(** [budget] bounds the nesting of the recursion; [predict] passes one
    that is never exhausted (lemmas [compute_recursive_budget] and
    [predict_budget]). *)
Fixpoint compute_recursive (budget : nat) (d : nat) (X_pred : Matrix)
    (max_depth : Z) (X_pred_orig : Matrix) : M Vec :=
  match budget with
  | O => raise RecursionError
  | S budget' =>
      if Z.of_nat d =? max_depth - 1 then
        a ← compute_depth d X_pred;
        c ← min_coeff_at d;
        mret (vsub_scalar (vrecip a) c)
      else
        a ← compute_depth d X_pred;
        r ← compute_recursive budget' (S d) X_pred max_depth X_pred_orig;
        t ← lift (vadd a r);
        c ← min_coeff_at d;
        mret (vsub_scalar (vrecip t) c)
  end.

Definition recursion_budget : M nat :=
  s ← get_self;
  mret (match linear_models s with Some ms => length ms | None => O end).

Definition predict (X_pred : Matrix) (max_depth : option Z) : M Vec :=
  s ← get_self;
  let max_depth := match max_depth with None => depth s | Some k => k end in
  if max_depth <? 2 then compute_depth 0 X_pred
  else
    a ← compute_depth 0 X_pred;
    budget ← recursion_budget;
    r ← compute_recursive budget 1 X_pred max_depth X_pred;
    lift (vadd a r).

(** ** [fit] *)

(** One pass through the body of the loop; [yfit] is the local variable
    of that name, a reference to an array.  The result is its new value. *)
Definition fit_iter (d : nat) (yfit : loc) : M loc :=
  s ← get_self;
  target ← load yfit;
  model ← lift (if lasso s then Lasso_fit (X s) target
                else LinearRegression_fit (X s) target);
  append_model model;;
  ypred ← predict (X s) (Some (Z.of_nat d + 1));
  fitted ← lift (model_predict model (X s));
  residual ← lift (vsub target fitted);
  lowest ← lift (np_min residual);
  store_item (min_coeff s) (d + 1) (fadd (fabs lowest) fone);;
  c ← min_coeff_at (d + 1);
  let residual := vadd_scalar residual c in
  alloc (vrecip residual).

Fixpoint fit_loop (ds : list nat) (yfit : loc) : M loc :=
  match ds with
  | [] => mret yfit
  | d :: ds' => yfit' ← fit_iter d yfit; fit_loop ds' yfit'
  end.

Definition fit : M unit :=
  s ← get_self;
  let yfit := y s in
  set_linear_models [];;
  fit_loop (seq 0 (Z.to_nat (depth s))) yfit;;
  mret tt.

(** ** [mse] *)

Definition mse (test : bool) : M num :=
  s ← get_self;
  '(X_pred, y_true) ←
    (if test then
       xt ← attr (X_test s); yt ← attr (y_test s); mret (xt, yt)
     else mret (X s, y s));
  y_pred ← predict X_pred None;
  y_true ← load y_true;
  diff ← lift (vsub y_pred y_true);
  mret (fdiv (np_sum (vsquare diff)) (fof_nat (length y_pred))).

(** ** Vocabulary of the specification *)

(** the regressor that the [lasso] flag selects *)
Definition regress (flag : bool) (Xm : Matrix) (target : Vec) : res Model :=
  if flag then Lasso_fit Xm target else LinearRegression_fit Xm target.

(** [sub_model[d]], [sub_model[d].predict(X_pred)] and [offset[d]] *)
Definition sub_model (s : State) (d : nat) : option Model :=
  ms ← linear_models (self s); ms !! d.

Definition sub_model_predict (s : State) (d : nat) (X_pred : Matrix) : res Vec :=
  match sub_model s d with
  | Some m => model_predict m X_pred
  | None => Raise IndexError
  end.

Definition offsets (s : State) : Vec :=
  default [] (heap s !! min_coeff (self s)).

Definition offset (s : State) (d : nat) : num :=
  default fzero (offsets s !! d).

(** the contents of the target vector [self.y] *)
Definition y_values (s : State) : Vec := default [] (heap s !! y (self s)).

(** the number of sub-models that [predict] can see *)
Definition fitted_depth (s : State) : nat :=
  match linear_models (self s) with Some ms => length ms | None => O end.

(** A fitted model: a model that was constructed and on which [fit] ran
    to completion. *)
Definition fitted (s : State) : Prop :=
  exists depth data norm test_size lasso s0,
    init depth data norm test_size lasso = Ok s0 /\ fit s0 = (Ok tt, s).

(** What the loop of [fit] computes, as a relation: starting at depth [d]
    with target [t], the sub-models fitted, the offsets stored, and the
    target left for the depth after the last. *)
Inductive fit_steps (flag : bool) (Xm : Matrix)
    : nat -> Vec -> list Model -> Vec -> Vec -> Prop :=
  | fit_steps_done d t : fit_steps flag Xm d t [] [] t
  | fit_steps_next d t m p r low ms cs t' :
      regress flag Xm t = Ok m ->
      model_predict m Xm = Ok p ->
      vsub t p = Ok r ->
      np_min r = Ok low ->
      fit_steps flag Xm (S d)
        (vrecip (vadd_scalar r (fadd (fabs low) fone))) ms cs t' ->
      fit_steps flag Xm d t (m :: ms) (fadd (fabs low) fone :: cs) t'.

(** [fit] with the call of [predict] in the loop taken out. *)
Definition fit_iter_without_predict (d : nat) (yfit : loc) : M loc :=
  s ← get_self;
  target ← load yfit;
  model ← lift (if lasso s then Lasso_fit (X s) target
                else LinearRegression_fit (X s) target);
  append_model model;;
  fitted ← lift (model_predict model (X s));
  residual ← lift (vsub target fitted);
  lowest ← lift (np_min residual);
  store_item (min_coeff s) (d + 1) (fadd (fabs lowest) fone);;
  c ← min_coeff_at (d + 1);
  let residual := vadd_scalar residual c in
  alloc (vrecip residual).



Local Open Scope nat_scope.

(** ** Auxiliary notions of the verification *)

(** a computation that leaves the state alone *)
Definition readonly {A} (m : M A) : Prop := forall s, (m s).2 = s.

(** [frame s s']: from [s] to [s'] the attributes other than
    [linear_models] are the same, arrays are only added, and the only
    array whose contents differ is [min_coeff], which keeps its length. *)
Record frame (s s' : State) : Prop := {
  frame_depth : depth (self s') = depth (self s);
  frame_norm : norm (self s') = norm (self s);
  frame_lasso : lasso (self s') = lasso (self s);
  frame_X : X (self s') = X (self s);
  frame_y : y (self s') = y (self s);
  frame_X_test : X_test (self s') = X_test (self s);
  frame_y_test : y_test (self s') = y_test (self s);
  frame_min_coeff : min_coeff (self s') = min_coeff (self s);
  frame_grow : length (heap s) <= length (heap s');
  frame_arrays : forall l,
    l <> min_coeff (self s) -> l < length (heap s) ->
    heap s' !! l = heap s !! l;
  frame_offsets : forall offs,
    heap s !! min_coeff (self s) = Some offs ->
    exists offs', heap s' !! min_coeff (self s) = Some offs'
                  /\ length offs' = length offs;
  frame_stores : forall l i,
    (l, i) ∈ stores s' -> (l, i) ∈ stores s \/ l = min_coeff (self s)
}.

(** a computation that respects [frame] when [min_coeff] is at [mc] *)
Definition framed_at (mc : loc) {A} (m : M A) : Prop :=
  forall s, min_coeff (self s) = mc -> frame s (m s).2.

(** the state after [self.linear_models] was bound to [ms] *)
Definition with_models (s : State) (ms : list Model) : State :=
  (set_linear_models ms s).2.

(** the state in which a pass that met no exception ends *)
Definition after_pass (s : State) (ms : list Model) (offs : Vec) (d : nat)
    (c : num) (target' : Vec) : State :=
  {| heap := <[min_coeff (self s) := <[d + 1 := c]> offs]> (heap s) ++ [target'];
     stores := (min_coeff (self s), d + 1) :: stores s;
     self := self (with_models s ms) |}.

(** The remainder [R(d)] of the nested fraction, [k] levels above the
    innermost one; [p d] is the prediction of sub-model [d] and [c d] the
    offset at [d]. *)
Fixpoint remainder (p : nat -> Vec) (c : nat -> num) (k d : nat) : Vec :=
  match k with
  | O => vsub_scalar (vrecip (p d)) (c d)
  | S k' =>
      vsub_scalar (vrecip (zip_with fadd (p d) (remainder p c k' (S d)))) (c d)
  end.

Definition value_of {A} (r : res (list A)) : list A :=
  match r with Ok v => v | Raise _ => [] end.

(** the loop reaches depth [d] with [d] sub-models, each of which
    predicts on the training features *)
Definition models_ready (s : State) (d : nat) : Prop :=
  exists ms, linear_models (self s) = Some ms /\ length ms = d
             /\ Forall (fun m => is_Ok (model_predict m (X (self s)))) ms.

(** [cs] stored at the indices [i], [i + 1], ... of [offs] *)
Fixpoint store_from (i : nat) (cs : Vec) (offs : Vec) : Vec :=
  match cs with
  | [] => offs
  | c :: cs' => store_from (S i) cs' (<[i := c]> offs)
  end.

(** the item assignments of passes [d], ..., [d + n - 1], latest first *)
Definition pass_stores (mc : loc) (d n : nat) : list (loc * nat) :=
  rev (map (fun k => (mc, k + 1)) (seq d n)).

(** what [__init__] establishes *)
Record constructed (s : State) : Prop := {
  constructed_depth : (-2 <= depth (self s))%Z;
  constructed_offsets :
    heap s !! min_coeff (self s)
      = Some (replicate (Z.to_nat (depth (self s) + 2)) fzero);
  constructed_y : is_Some (heap s !! y (self s));
  constructed_apart : y (self s) <> min_coeff (self s);
  constructed_stores : stores s = [];
  constructed_models : linear_models (self s) = None
}.

(** the final state of a [fit] that met no exception *)
Record fit_result (s0 s : State) (ms : list Model) (cs : Vec) : Prop := {
  result_steps : exists target',
    fit_steps (lasso (self s0)) (X (self s0)) 0 (y_values s0) ms cs target';
  result_count : length ms = Z.to_nat (depth (self s0));
  result_models : linear_models (self s) = Some ms;
  result_offsets :
    heap s !! min_coeff (self s)
      = Some (store_from 1 cs
                (replicate (Z.to_nat (depth (self s0) + 2)) fzero));
  result_stores :
    stores s = pass_stores (min_coeff (self s0)) 0 (Z.to_nat (depth (self s0)));
  result_frame : frame s0 s;
  result_y : y_values s = y_values s0
}.

(** The working targets of the specification: [yfit 0] is [y] and
    [yfit (d + 1) = 1 / (yfit d - sub_model[d].predict(X) + offset[d + 1])]. *)
Definition working_targets (s0 s : State) (yfit : nat -> Vec) : Prop :=
  yfit 0 = y_values s0
  /\ forall d m p r,
       sub_model s d = Some m ->
       model_predict m (X (self s0)) = Ok p ->
       vsub (yfit d) p = Ok r ->
       yfit (S d) = vrecip (vadd_scalar r (offset s (S d))).

(** the loop, entered by [fit] on a constructed model *)
Definition passes (s0 : State) (n : nat) : res loc * State :=
  fit_loop (seq 0 n) (y (self s0)) (with_models s0 []).

(** the data that [mse] evaluates on: the held-out rows when [test] is
    set, the training rows otherwise *)
Definition evaluation_data (s : State) (test : bool) : option (Matrix * Vec) :=
  if test then
    Xt ← X_test (self s); l ← y_test (self s); yt ← heap s !! l;
    Some (Xt, yt)
  else
    yv ← heap s !! y (self s); Some (X (self s), yv).

(** how often the log holds the item assignment [a[i] = ...] of array [l] *)
Definition count_stores (l i : nat) (log : list (nat * nat)) : nat :=
  length (filter (fun e => e = (l, i)) log).

(** The states that a model goes through: the one its constructor leaves,
    and from there the one that any call of [fit], [predict] or [mse]
    leaves, however the call ends. *)
Inductive lifetime (s0 : State) : State -> Prop :=
  | lifetime_new : lifetime s0 s0
  | lifetime_fit s : lifetime s0 s -> lifetime s0 (fit s).2
  | lifetime_predict s X_pred max_depth :
      lifetime s0 s -> lifetime s0 (predict X_pred max_depth s).2
  | lifetime_mse s test : lifetime s0 s -> lifetime s0 (mse test s).2.

(** what the array of offsets keeps over that life: its place and its
    length, the zeros at both ends, elements that are 0 or some
    [abs(m) + 1], and item assignments at the indices [1 .. depth] of this
    array only *)
Record offsets_kept (s0 s : State) : Prop := {
  kept_frame : frame s0 s;
  kept_length : length (offsets s) = Z.to_nat (depth (self s0)) + 2;
  kept_array : heap s !! min_coeff (self s0) = Some (offsets s);
  kept_first : offsets s !! 0 = Some fzero;
  kept_last : offsets s !! (Z.to_nat (depth (self s0)) + 1) = Some fzero;
  kept_values :
    Forall (fun c => c = fzero \/ exists low, c = fadd (fabs low) fone)
      (offsets s);
  kept_stores : forall l i,
    (l, i) ∈ stores s ->
    l = min_coeff (self s0) /\ 1 <= i <= Z.to_nat (depth (self s0))
}.

End Model.

Arguments CFModel : clear implicits.
Arguments State : clear implicits.
Arguments M : clear implicits.

(** ** Least squares on one feature, in closed form

    A regressor for matrices with a single column, in any arithmetic:
    [{| slope := a; intercept := b |}] predicts [a * x + b].  The slope is
    the covariance of feature and target over the variance of the feature
    (soft-thresholded by [alpha = 1] for [Lasso()]), or 0 when the feature
    does not vary, which is the solution of least norm; the intercept is
    the mean of the targets minus the slope times the mean of the feature,
    both regressors fitting an intercept by default.  As scikit-learn
    does, [fit] refuses an empty sample, mismatched lengths, and values
    that are not finite. *)

Record Line (num : Type) : Type := { slope : num; intercept : num }.
Arguments slope {num} l.
Arguments intercept {num} l.
Arguments Build_Line {num} slope intercept.

Section OneFeature.
Context {num : Type} {ar : Arith num}.

(** the single column of a one-feature matrix *)
Fixpoint column (X : list (list num)) : res (list num) :=
  match X with
  | [] => Ok []
  | [x] :: X' => xs ← column X'; Ok (x :: xs)
  | _ => Raise ValueError
  end.

Definition mean (v : list num) : num :=
  fdiv (np_sum v) (fof_nat (length v)).

(** covariance of feature and target; [cov xs xs] is the variance *)
Definition cov (xs ys : list num) : num :=
  mean (zip_with (fun x t => fmul (fsub x (mean xs)) (fsub t (mean ys))) xs ys).

Definition slope_of (c v : num) : num :=
  if fltb fzero v then fdiv c v else fzero.

Definition with_intercept (a : num) (xs ys : list num) : Line num :=
  {| slope := a; intercept := fsub (mean ys) (fmul a (mean xs)) |}.

Definition checked (X : list (list num)) (ys : list num) : res (list num) :=
  xs ← column X;
  if decide (length xs = length ys /\ ys <> [])
  then if forallb fisfinite xs && forallb fisfinite ys then Ok xs
       else Raise ValueError
  else Raise ValueError.

Definition ols_fit (X : list (list num)) (ys : list num) : res (Line num) :=
  xs ← checked X ys;
  Ok (with_intercept (slope_of (cov xs ys) (cov xs xs)) xs ys).

Definition soft_threshold (z : num) : num :=
  if fltb fone z then fsub z fone
  else if fltb z (fsub fzero fone) then fadd z fone
  else fzero.

Definition lasso_fit (X : list (list num)) (ys : list num) : res (Line num) :=
  xs ← checked X ys;
  Ok (with_intercept (slope_of (soft_threshold (cov xs ys)) (cov xs xs)) xs ys).

Definition line_predict (m : Line num) (X : list (list num)) : res (list num) :=
  xs ← column X;
  Ok (map (fun x => fadd (fmul (slope m) x) (intercept m)) xs).

(** A split for the examples, which holds out the last row: what
    scikit-learn holds out of four rows for [t = 1/4], up to its shuffle.
    As scikit-learn does, it refuses arrays of different lengths, a
    fraction [t] that is not below 1, and a sample that would leave no
    row to train on. *)
Definition last_row_split (X : list (list num)) (ys : list num) (t : num)
    : res (list (list num) * list (list num) * list num * list num) :=
  if decide (length X = length ys /\ 2 <= length X)%nat then
    if fltb t fone then
      Ok (take (length X - 1) X, drop (length X - 1) X,
          take (length ys - 1) ys, drop (length ys - 1) ys)
    else Raise ValueError
  else Raise ValueError.

#[global] Instance line_regressors : Sklearn num (Line num) := {|
  LinearRegression_fit := ols_fit;
  Lasso_fit := lasso_fit;
  model_predict := line_predict;
  train_test_split := last_row_split
|}.
End OneFeature.

(** ** Exact arithmetic: the rationals

    Every operation returns the reduced fraction, so that equal numbers
    are equal terms; every rational is finite. *)

Module Exact.
Local Open Scope Q_scope.

#[global] Instance Q_arith : Arith Q := {|
  fzero := 0;
  fone := 1;
  fadd a b := Qred (a + b);
  fsub a b := Qred (a - b);
  fmul a b := Qred (a * b);
  fdiv a b := Qred (a / b);
  fabs a := Qred (Qabs a);
  fmin a b := Qred (Qmin a b);
  fltb a b := negb (Qle_bool b a);
  fisfinite _ := true;
  fof_nat n := inject_Z (Z.of_nat n)
|}.

Definition new
    : Z -> list (list Q) * list Q -> Q -> Q -> bool -> res (State Q (Line Q)) :=
  init.

(** plain sums, to reason about [np_sum] and [mean] *)
Fixpoint qsum (l : list Q) : Q :=
  match l with
  | [] => 0
  | x :: l' => x + qsum l'
  end.

(** every element of an array built by the arithmetic is a reduced
    fraction, and so is its minimum *)
Definition reduced (q : Q) : Prop := Qred q = q.

(** *** Worked examples *)

Definition toy_X : list (list Q) := [[1]; [2]; [3]].
Definition toy_y : list Q := [1; 3; 2].

Definition toy_fit : M Q (Line Q) unit := fit.
Definition toy_predict : list (list Q) -> option Z -> M Q (Line Q) (list Q) := predict.
Definition toy_mse : bool -> M Q (Line Q) Q := mse.

(** the model that [CFModel(3, test_size=0)] constructs on the toy data,
    and that model after [fit] *)
Definition toy_start : State Q (Line Q) :=
  {| heap := [toy_y; [0; 0; 0; 0; 0]]; stores := [];
     self := {| depth := 3; norm := 1; lasso := false; X := toy_X; y := 0%nat;
                X_test := None; y_test := None; min_coeff := 1%nat;
                linear_models := None |} |}.

Definition toy_model : State Q (Line Q) := Eval vm_compute in (toy_fit toy_start).2.

(** the working targets of the three passes, and the one left over *)
Definition toy_targets (d : nat) : list Q :=
  match d with
  | 0%nat => [1; 3; 2]
  | 1%nat => [1; 2 # 5; 1]
  | 2%nat => [5 # 8; 1; 5 # 8]
  | _ => [1; 8 # 11; 1]
  end.

(** the predictions of the three sub-models on the single row [[4]], and
    the remainders of the nested fraction there *)
Definition toy_levels (d : nat) : list Q :=
  match d with
  | 0%nat => [3]
  | 1%nat => [4 # 5]
  | _ => [3 # 4]
  end.

Definition toy_remainders (d : nat) : list Q :=
  match d with
  | 1%nat => [-3 # 22]
  | _ => [-1 # 15]
  end.

(** a fourth row, held out by [test_size = 1/4], and the model of depth 2
    constructed and fitted on the other three *)
Definition held_out_start : State Q (Line Q) :=
  {| heap := [[1; 3; 2; 5]; [0; 0; 0; 0]; toy_y; [5]]; stores := [];
     self := {| depth := 2; norm := 1; lasso := false; X := toy_X; y := 2%nat;
                X_test := Some [[4]]; y_test := Some 3%nat; min_coeff := 1%nat;
                linear_models := None |} |}.

Definition held_out_model : State Q (Line Q) :=
  Eval vm_compute in (toy_fit held_out_start).2.

End Exact.

(** ** IEEE 754 binary64: the arithmetic of numpy's float64 *)

Module Float64.
Local Open Scope float_scope.

Definition is_nan (a : float) : bool := negb (PrimFloat.eqb a a).

Definition is_finite (a : float) : bool := PrimFloat.ltb (abs a) infinity.

(** the step of [ndarray.min()], which propagates NaN *)
Definition minimum (a b : float) : float :=
  if is_nan a then a
  else if is_nan b then b
  else if PrimFloat.ltb b a then b else a.

#[global] Instance float_arith : Arith float := {|
  fzero := 0;
  fone := 1;
  fadd := PrimFloat.add;
  fsub := PrimFloat.sub;
  fmul := PrimFloat.mul;
  fdiv := PrimFloat.div;
  fabs := PrimFloat.abs;
  fmin := minimum;
  fltb := PrimFloat.ltb;
  fisfinite := is_finite;
  fof_nat n := Nat.iter n (fun a => a + 1) 0
|}.

Definition new
    : Z -> list (list float) * list float -> float -> float -> bool ->
      res (State float (Line float)) :=
  init.

(** *** Worked examples: two rows with the same feature value

    Least squares on a feature that does not vary has slope 0 and the
    mean of the targets as intercept; on two targets [0] and [t] the
    residuals are [-t/2] and [t/2]. *)
Definition flat_X : list (list float) := [[1]; [1]].

(** targets [0] and [0.8]: residuals [-0.4] and [0.4] *)
Definition near_y : list float := [0; 0x1.999999999999ap-1].

Definition near_start : State float (Line float) :=
  {| heap := [near_y; [0; 0; 0]]; stores := [];
     self := {| depth := 1; norm := 1; lasso := false; X := flat_X; y := 0%nat;
                X_test := None; y_test := None; min_coeff := 1%nat;
                linear_models := None |} |}.

Definition near_model : State float (Line float) :=
  Eval vm_compute in (fit near_start).2.

(** that model after a second [fit] *)
Definition near_again : State float (Line float) :=
  Eval vm_compute in (fit near_model).2.

(** the working targets of either [fit]: the targets, and the one left
    over after the only pass *)
Definition near_left_over : list float :=
  Eval vm_compute in default [] (heap near_model !! 2%nat).

Definition near_targets (d : nat) : list float :=
  match d with
  | O => near_y
  | _ => near_left_over
  end.

(** targets [0] and [2^60]: residuals [-2^59] and [2^59] *)
Definition wide_y : list float := [0; 0x1p60].

Definition wide_start (depth : Z) : State float (Line float) :=
  {| heap := [wide_y; replicate (Z.to_nat (depth + 2)) 0]; stores := [];
     self := {| depth := depth; norm := 1; lasso := false; X := flat_X;
                y := 0%nat; X_test := None; y_test := None; min_coeff := 1%nat;
                linear_models := None |} |}.

Definition wide_model : State float (Line float) :=
  Eval vm_compute in (fit (wide_start 1)).2.

(** what [fit] at depth 2 leaves behind on these targets *)
Definition wide_partial : State float (Line float) :=
  Eval vm_compute in (fit (wide_start 2)).2.

(** targets [4 * x] on the rows 1, 2, 3, and a held-out row whose feature
    is [2^1023] *)
Definition steep_start : State float (Line float) :=
  {| heap := [[4; 8; 12; 0]; [0; 0; 0]; [4; 8; 12]; [0]]; stores := [];
     self := {| depth := 1; norm := 1; lasso := false;
                X := [[1]; [2]; [3]]; y := 2%nat;
                X_test := Some [[0x1p1023]]; y_test := Some 3%nat;
                min_coeff := 1%nat; linear_models := None |} |}.

Definition steep_model : State float (Line float) :=
  Eval vm_compute in (fit steep_start).2.

(** two rows whose targets are the largest float and its opposite: the
    slope of least squares overflows *)
Definition extreme_X : list (list float) := [[1]; [2]].
Definition extreme_y : list float :=
  [0x1.fffffffffffffp+1023; -0x1.fffffffffffffp+1023].

Definition extreme_start : State float (Line float) :=
  {| heap := [extreme_y; [0; 0; 0]]; stores := [];
     self := {| depth := 1; norm := 1; lasso := false; X := extreme_X;
                y := 0%nat; X_test := None; y_test := None; min_coeff := 1%nat;
                linear_models := None |} |}.

Definition extreme_model : State float (Line float) :=
  Eval vm_compute in (fit extreme_start).2.
End Float64.

(** ** The data file

    [read_data] reads a text file: a first line with the number of
    samples and the number of features, separated by a tab, and then one
    line per sample with the target and the features, separated by tabs.
    A text is the list of its characters, as Python hands it out once the
    file is opened, decoded and its line ends are translated to newlines;
    opening the file is not part of the model. *)

(** Python's [int] and [float] on a string, which stay an interface. *)
Class Builtins (num : Type) := {
  py_int : list Ascii.ascii -> res Z;
  py_float : list Ascii.ascii -> res num
}.

Section DataFile.
Context {num : Type} {ar : Arith num} {bi : Builtins num}.
Local Abbreviation str := (list Ascii.ascii) (only parsing).
Local Abbreviation Vec := (list num) (only parsing).
Local Abbreviation Matrix := (list (list num)) (only parsing).

Definition tab : Ascii.ascii := Ascii.ascii_of_nat 9.
Definition newline : Ascii.ascii := Ascii.ascii_of_nat 10.

(** the lines of a file, as iterating over it yields them: every line
    keeps its newline, and a last line without one is a line too *)
Fixpoint readlines (s : str) : list str :=
  match s with
  | [] => []
  | c :: s' =>
      if Ascii.eqb c newline then [c] :: readlines s'
      else match readlines s' with
           | l :: ls => (c :: l) :: ls
           | [] => [[c]]
           end
  end.

(** [s.split(sep)] with a separator of one character *)
Fixpoint split (sep : Ascii.ascii) (s : str) : list str :=
  match s with
  | [] => [[]]
  | c :: s' =>
      if Ascii.eqb c sep then [] :: split sep s'
      else match split sep s' with
           | l :: ls => (c :: l) :: ls
           | [] => [[c]]
           end
  end.

(** [np.zeros((n, m))] *)
Definition np_zeros2 (n m : Z) : res Matrix :=
  if (n <? 0) || (m <? 0) then Raise ValueError
  else Ok (replicate (Z.to_nat n) (replicate (Z.to_nat m) fzero)).

(** [a[i] = v] for [i >= 0], on the first axis of an array *)
Definition set_item {A} (a : list A) (i : nat) (v : A) : res (list A) :=
  if decide (i < length a)%nat then Ok (<[i := v]> a) else Raise IndexError.

(** what assigning the list [v] to a row of [m] elements stores: a list
    of one element is broadcast, another length than [m] is refused *)
Definition as_row (m : nat) (v : Vec) : res Vec :=
  if (length v =? m)%nat then Ok v
  else match v with
       | [x] => Ok (replicate m x)
       | _ => Raise ValueError
       end.

(** the loop [for i, line in enumerate(f)] *)
Fixpoint read_rows (m : nat) (lines : list str) (i : nat) (Xy : Matrix * Vec)
    : res (Matrix * Vec) :=
  match lines with
  | [] => Ok Xy
  | line :: lines' =>
      points ← mapM py_float (split tab line);
      match points with
      | [] => Raise IndexError
      | p0 :: features =>
          y' ← set_item Xy.2 i p0;
          row ← as_row m features;
          X' ← set_item Xy.1 i row;
          read_rows m lines' (S i) (X', y')
      end
  end.

(** [read_data], as far as the file goes: the arrays [self.X], [self.y] *)
Definition read_data (content : str) : res (Matrix * Vec) :=
  let f := readlines content in
  match split tab (hd [] f) with
  | [n; m] =>
      n ← py_int n;
      m ← py_int m;
      X ← np_zeros2 n m;
      y ← np_zeros n;
      read_rows (Z.to_nat m) (tl f) 0 (X, y)
  | _ => Raise ValueError
  end.

(** [CFModel(depth, data_file, norm, test_size, lasso)] on a file with
    this content *)
Definition init_from_file {Model : Type} {sk : Sklearn num Model}
    (depth : Z) (content : str) (norm test_size : num) (lasso : bool)
    : res (State num Model) :=
  data ← read_data content;
  init depth data norm test_size lasso.

End DataFile.

(** ** [pair_interactions]

    A matrix is the list of its rows, which does not record the number of
    columns when there are no rows: [m] is [X.shape[1]]. *)

Section PairInteractions.
Context {num : Type} {ar : Arith num}.
Local Abbreviation Matrix := (list (list num)) (only parsing).

(** [np.meshgrid(xs, ys)], with the default indexing: both grids have a
    row per element of [ys] and a column per element of [xs] *)
Definition meshgrid (xs ys : list nat) : list (list nat) * list (list nat) :=
  (map (fun _ => xs) ys, map (fun y => map (fun _ => y) xs) ys).

(** [np.array(grids).reshape(2, -1)]: each grid, row after row *)
Definition reshape_pairs (grids : list (list nat) * list (list nat))
    : list nat * list nat :=
  (concat grids.1, concat grids.2).

(** [X[:, idx]] *)
Definition take_columns (X : Matrix) (idx : list nat) : res Matrix :=
  mapM (fun row : list num =>
          mapM (fun j => match row !! j with
                         | Some x => Ok x
                         | None => Raise IndexError
                         end) idx) X.

(** [X] is the argument, or [self.X] when the argument is left out.
    Without columns the index arrays are empty arrays of floats, which
    numpy refuses as indices. *)
Definition pair_interactions (m : nat) (X : Matrix) : res Matrix :=
  let ind := seq 0 m in
  let prods := reshape_pairs (meshgrid ind ind) in
  if decide (m = 0%nat) then Raise IndexError
  else
    a ← take_columns X prods.1;
    b ← take_columns X prods.2;
    Ok (zip_with (zip_with fmul) a b).

End PairInteractions.

(** ** An offset overwritten from outside *)

Section Overwrite.
Context {num : Type} {Model : Type}.

(** the state in which [self.min_coeff[i]] was assigned [v], for an
    index [i] of the array *)
Definition set_offset (s : State num Model) (i : nat) (v : num)
    : State num Model :=
  {| heap := alter (fun offs => <[i := v]> offs) (min_coeff (self s)) (heap s);
     stores := stores s;
     self := self s |}.

End Overwrite.

(** ** Data files of integers, for the worked examples

    [int] and [float] on an optional minus sign and decimal digits, with
    or without the newline that ends a line.  Python accepts these
    strings with these values, and many others. *)

Module Files.
Import Exact.

Definition digit (c : Ascii.ascii) : option Z :=
  let k := Z.of_nat (Ascii.nat_of_ascii c) in
  if decide (48 <= k <= 57) then Some (k - 48) else None.

Definition digits (s : list Ascii.ascii) : option Z :=
  match s with
  | [] => None
  | _ => foldl (fun acc c => a ← acc; d ← digit c; Some (10 * a + d)) (Some 0) s
  end.

Definition chomp (s : list Ascii.ascii) : list Ascii.ascii :=
  match reverse s with
  | c :: r => if Ascii.eqb c newline then reverse r else s
  | [] => s
  end.

Definition integer (s : list Ascii.ascii) : res Z :=
  let v := match chomp s with
           | c :: ds =>
               if Ascii.eqb c (Ascii.ascii_of_nat 45)
               then Z.opp <$> digits ds else digits (c :: ds)
           | [] => None
           end in
  match v with Some z => Ok z | None => Raise ValueError end.

#[global] Instance integer_builtins : Builtins Q := {|
  py_int := integer;
  py_float s := z ← integer s; Ok (inject_Z z)
|}.

Definition from_file
    : Z -> list Ascii.ascii -> Q -> Q -> bool -> res (State Q (Line Q)) :=
  init_from_file.

(** the text of a line from its fields, and of a file from its lines *)
Definition text (fields : list String.string) : list Ascii.ascii :=
  match map String.list_ascii_of_string fields with
  | [] => [newline]
  | f :: fs => f ++ concat (map (fun g => tab :: g) fs) ++ [newline]
  end.

Definition file (lines : list (list String.string)) : list Ascii.ascii :=
  concat (map text lines).

End Files.

(** ** More worked examples *)

Module Samples.
Import Exact Files String.
Local Open Scope Q_scope.
Local Open Scope string_scope.

(** the toy data at depth 1 *)
Definition shallow_start : State Q (Line Q) :=
  {| heap := [toy_y; [0; 0; 0]]; stores := [];
     self := {| depth := 1; norm := 1; lasso := false; X := toy_X; y := 0%nat;
                X_test := None; y_test := None; min_coeff := 1%nat;
                linear_models := None |} |}.

Definition shallow_model : State Q (Line Q) :=
  Eval vm_compute in (toy_fit shallow_start).2.

(** a file with the toy data *)
Definition toy_file : list Ascii.ascii :=
  file [["3"; "1"]; ["1"; "1"]; ["3"; "2"]; ["2"; "3"]].

(** a file that announces three samples with two features: the second
    of its lines has one feature only, and there is no third *)
Definition short_file : list Ascii.ascii :=
  file [["3"; "2"]; ["1"; "10"; "20"]; ["-2"; "30"]].

(** what [read_data] makes of it *)
Definition short_X : list (list Q) := [[10; 20]; [30; 30]; [0; 0]].
Definition short_y : list Q := [1; -2; 0].

(** a matrix with two columns, and its pair interactions *)
Definition pairs_X : list (list Q) := [[2; 3]; [5; 7]].
Definition pairs_A : list (list Q) := [[4; 6; 6; 9]; [25; 35; 35; 49]].

End Samples.

(** * Verification *)

Create HintDb readonly.

Section Facts.
Local Open Scope nat_scope.
Context {num : Type} {ar : Arith num} {Model : Type} {sk : Sklearn num Model}.

Local Abbreviation Vec := (list num) (only parsing).
Local Abbreviation Matrix := (list (list num)) (only parsing).
Local Abbreviation State := (State num Model).
Local Abbreviation M := (M num Model).

(** ** Running a computation *)

Lemma bind_run {A B} (m : M A) (f : A -> M B) s :
  (m ≫= f) s =
  match m s with
  | (Ok a, s') => f a s'
  | (Raise e, s') => (Raise e, s')
  end.
Proof. reflexivity. Qed.

Lemma bind_Ok {A B} (m : M A) (f : A -> M B) s a s' :
  m s = (Ok a, s') -> (m ≫= f) s = f a s'.
Proof. intros E. rewrite bind_run, E. reflexivity. Qed.

Lemma bind_Raise {A B} (m : M A) (f : A -> M B) s e s' :
  m s = (Raise e, s') -> (m ≫= f) s = (Raise e, s').
Proof. intros E. rewrite bind_run, E. reflexivity. Qed.

Lemma bind_lift {A B} (r : res A) (f : A -> M B) s :
  (lift r ≫= f) s = match r with Ok a => f a s | Raise e => (Raise e, s) end.
Proof. destruct r; reflexivity. Qed.

Lemma bind_get_self {B} (f : CFModel num Model -> M B) s :
  (get_self ≫= f) s = f (self s) s.
Proof. reflexivity. Qed.

(** ** Computations that leave the state alone *)

Lemma readonly_bind {A B} (m : M A) (f : A -> M B) :
  readonly m -> (forall a, readonly (f a)) -> readonly (m ≫= f).
Proof.
  intros Hm Hf s. rewrite bind_run. specialize (Hm s).
  destruct (m s) as [[a|e] s']; simpl in Hm; subst s'; [apply Hf | reflexivity].
Qed.

Lemma readonly_ret {A} (a : A) : readonly (mret a : M A).
Proof. intros s. reflexivity. Qed.

Lemma readonly_raise {A} e : readonly (raise e : M A).
Proof. intros s. reflexivity. Qed.

Lemma readonly_lift {A} (r : res A) : readonly (lift r : M A).
Proof. intros s. reflexivity. Qed.

Lemma readonly_get_self : readonly (get_self : M _).
Proof. intros s. reflexivity. Qed.

Lemma readonly_attr {A} (o : option A) : readonly (attr o : M A).
Proof. destruct o; intros s; reflexivity. Qed.

Lemma readonly_index {A} (l : list A) i : readonly (index l i : M A).
Proof. unfold index. destruct (l !! i); intros s; reflexivity. Qed.

Lemma readonly_load l : readonly (load l : M _).
Proof. intros s. unfold load. destruct (heap s !! l); reflexivity. Qed.

Local Hint Resolve readonly_ret readonly_raise readonly_lift readonly_get_self
  readonly_attr readonly_index readonly_load : readonly.

Ltac readonly_steps :=
  repeat first
    [ progress eauto with readonly
    | apply readonly_bind; intros
    | match goal with |- readonly (let '(_, _) := ?p in _) => destruct p end
    | match goal with |- readonly (if ?b then _ else _) => destruct b end ].

Lemma readonly_compute_depth d X_pred : readonly (compute_depth d X_pred).
Proof. unfold compute_depth. readonly_steps. Qed.

Lemma readonly_min_coeff_at d : readonly (min_coeff_at d : M _).
Proof. unfold min_coeff_at. readonly_steps. Qed.

Local Hint Resolve readonly_compute_depth readonly_min_coeff_at : readonly.

Lemma readonly_compute_recursive budget d X_pred max_depth X_orig :
  readonly (compute_recursive budget d X_pred max_depth X_orig).
Proof.
  revert d. induction budget as [|b IH]; intros d; simpl; readonly_steps.
Qed.

Local Hint Resolve readonly_compute_recursive : readonly.

Lemma readonly_predict X_pred max_depth : readonly (predict X_pred max_depth).
Proof.
  unfold predict, recursion_budget. readonly_steps.
Qed.

Local Hint Resolve readonly_predict : readonly.

Lemma readonly_mse test : readonly (mse test).
Proof. unfold mse. readonly_steps. Qed.

(** what a read-only computation returns determines its whole outcome *)
Lemma readonly_run {A} (m : M A) s : readonly m -> m s = ((m s).1, s).
Proof. intros Hm. specialize (Hm s). destruct (m s); simpl in *; congruence. Qed.

(** ** Reading sub-models and offsets *)

Lemma compute_depth_run (s : State) d X_pred :
  is_Some (linear_models (self s)) ->
  compute_depth d X_pred s = (sub_model_predict s d X_pred, s).
Proof.
  intros [ms Hms].
  unfold compute_depth, sub_model_predict, sub_model.
  unfold mbind, M_bind, get_self; simpl. rewrite Hms; simpl.
  unfold index. destruct (ms !! d); reflexivity.
Qed.

Lemma sub_model_predict_Ok s d X_pred v :
  sub_model_predict s d X_pred = Ok v ->
  exists ms m, linear_models (self s) = Some ms /\ ms !! d = Some m
               /\ model_predict m X_pred = Ok v.
Proof.
  unfold sub_model_predict, sub_model.
  destruct (linear_models (self s)) as [ms|]; simpl; [|discriminate].
  destruct (ms !! d) as [m|] eqn:E; [|discriminate]. eauto.
Qed.

Lemma min_coeff_at_run (s : State) d :
  d < length (offsets s) ->
  min_coeff_at d s = (Ok (offset s d), s).
Proof.
  unfold offset, offsets, min_coeff_at. intros Hd.
  unfold mbind, M_bind, get_self, load; simpl.
  destruct (heap s !! min_coeff (self s)) as [mc|]; simpl in *; [|lia].
  unfold index. destruct (lookup_lt_is_Some_2 mc d Hd) as [c ->]. reflexivity.
Qed.

Lemma min_coeff_at_out_of_range (s : State) d :
  is_Some (heap s !! min_coeff (self s)) ->
  length (offsets s) <= d ->
  min_coeff_at d s = (Raise IndexError, s).
Proof.
  unfold offsets, min_coeff_at. intros [mc Hmc] Hd.
  unfold mbind, M_bind, get_self, load; simpl.
  rewrite Hmc in *; simpl in *.
  unfold index. rewrite (lookup_ge_None_2 mc d Hd). reflexivity.
Qed.

(** ** Element-wise operations *)

Lemma broadcast2_same op (a b : Vec) :
  length a = length b -> broadcast2 op a b = Ok (zip_with op a b).
Proof.
  intros E. unfold broadcast2.
  destruct (Nat.eqb_spec (length a) (length b)); [reflexivity | contradiction].
Qed.

Lemma length_vsub_scalar (a : Vec) c : length (vsub_scalar a c) = length a.
Proof. apply length_map. Qed.

Lemma length_vadd_scalar (a : Vec) c : length (vadd_scalar a c) = length a.
Proof. apply length_map. Qed.

Lemma length_vrecip (a : Vec) : length (vrecip a) = length a.
Proof. apply length_map. Qed.

(** ** The nested fraction computed by [predict] *)

Section Nested.
(** scikit-learn's [predict] returns one value per row *)
Hypothesis predict_shape :
  forall m Xm v, model_predict m Xm = Ok v -> length v = length Xm.

Variable s : State.
Variable X_pred : Matrix.
Variable max_depth : nat.
(** [p d] is [sub_model[d].predict(X_pred)], [R] the nested remainder *)
Variables p R : nat -> Vec.
Hypothesis sub_models :
  forall d, d < max_depth -> sub_model_predict s d X_pred = Ok (p d).
Hypothesis enough_offsets : max_depth <= length (offsets s).
Hypothesis R_innermost :
  R (max_depth - 1) =
  vsub_scalar (vrecip (p (max_depth - 1))) (offset s (max_depth - 1)).
Hypothesis R_nested :
  forall d, 1 <= d < max_depth - 1 ->
    R d = vsub_scalar (vrecip (zip_with fadd (p d) (R (S d)))) (offset s d).

Lemma sub_models_shape d : d < max_depth -> length (p d) = length X_pred.
Proof using predict_shape sub_models.
  intros Hd. destruct (sub_model_predict_Ok _ _ _ _ (sub_models d Hd))
    as (ms & m & _ & _ & Hm). eauto.
Qed.

Lemma sub_models_present d : d < max_depth -> is_Some (linear_models (self s)).
Proof using sub_models.
  intros Hd. destruct (sub_model_predict_Ok _ _ _ _ (sub_models d Hd))
    as (ms & m & -> & _). eauto.
Qed.

Lemma sub_models_count : max_depth <= fitted_depth s.
Proof using sub_models.
  clear enough_offsets R_innermost R_nested.
  destruct (Nat.eq_dec max_depth 0) as [E|Hne]; [lia|].
  destruct (sub_model_predict_Ok _ _ _ _
              (sub_models (max_depth - 1) ltac:(lia)))
    as (ms & m & Hms & Hm & _).
  unfold fitted_depth. rewrite Hms. apply lookup_lt_Some in Hm. lia.
Qed.

Lemma compute_recursive_run X_orig k :
  forall d budget,
    d + k = max_depth - 1 -> 1 <= d -> k < budget ->
    compute_recursive budget d X_pred (Z.of_nat max_depth) X_orig s
      = (Ok (R d), s)
    /\ length (R d) = length X_pred.
Proof using predict_shape sub_models enough_offsets R_innermost R_nested.
  induction k as [|k IH]; intros d [|b] Hk Hd Hb; try lia; simpl.
  - assert (d = max_depth - 1) as -> by lia.
    destruct (Z.eqb_spec (Z.of_nat (max_depth - 1)) (Z.of_nat max_depth - 1));
      [|lia].
    erewrite bind_Ok; cycle 1.
    { rewrite compute_depth_run by (apply (sub_models_present (max_depth - 1)); lia).
      rewrite sub_models by lia. reflexivity. }
    erewrite bind_Ok; cycle 1.
    { apply min_coeff_at_run. lia. }
    rewrite R_innermost. split; [reflexivity|].
    rewrite length_vsub_scalar, length_vrecip. apply sub_models_shape. lia.
  - destruct (Z.eqb_spec (Z.of_nat d) (Z.of_nat max_depth - 1)); [lia|].
    destruct (IH (S d) b) as [Hrun Hlen]; try lia.
    erewrite bind_Ok; cycle 1.
    { rewrite compute_depth_run by (apply (sub_models_present d); lia).
      rewrite sub_models by lia. reflexivity. }
    erewrite bind_Ok; [|exact Hrun].
    erewrite bind_Ok; cycle 1.
    { unfold lift, vadd. rewrite broadcast2_same; [reflexivity|].
      rewrite Hlen. apply sub_models_shape. lia. }
    erewrite bind_Ok; cycle 1.
    { apply min_coeff_at_run. lia. }
    rewrite (R_nested d) by lia. split; [reflexivity|].
    rewrite length_vsub_scalar, length_vrecip, length_zip_with.
    rewrite Hlen, sub_models_shape by lia. lia.
Qed.

Lemma predict_nested :
  2 <= max_depth ->
  predict X_pred (Some (Z.of_nat max_depth)) s
    = (Ok (zip_with fadd (p 0) (R 1)), s).
Proof using predict_shape sub_models enough_offsets R_innermost R_nested.
  intros Hmd. unfold predict.
  rewrite bind_run; simpl.
  destruct (Z.ltb_spec (Z.of_nat max_depth) 2); [lia|].
  erewrite bind_Ok; cycle 1.
  { rewrite compute_depth_run by (apply (sub_models_present 0); lia).
    rewrite sub_models by lia. reflexivity. }
  pose proof sub_models_count as Hcount.
  unfold recursion_budget. rewrite !bind_run; simpl.
  destruct (compute_recursive_run X_pred (max_depth - 2) 1 (fitted_depth s))
    as [Hrun Hlen]; try lia.
  unfold fitted_depth in Hrun. erewrite bind_Ok; [|exact Hrun].
  unfold lift, vadd. rewrite broadcast2_same; [reflexivity|].
  rewrite Hlen. apply sub_models_shape. lia.
Qed.
End Nested.

Lemma predict_shallow (s : State) X_pred (max_depth : Z) :
  is_Some (linear_models (self s)) -> (max_depth < 2)%Z ->
  predict X_pred (Some max_depth) s = (sub_model_predict s 0 X_pred, s).
Proof.
  intros Hms Hmd. unfold predict. rewrite bind_run; simpl.
  destruct (Z.ltb_spec max_depth 2); [|lia]. by apply compute_depth_run.
Qed.

(** ** What [fit] may change *)

Lemma frame_refl (s : State) : frame s s.
Proof. split; eauto. Qed.

Lemma frame_trans (s1 s2 s3 : State) :
  frame s1 s2 -> frame s2 s3 -> frame s1 s3.
Proof.
  intros [] []. split; try congruence; try lia.
  - intros l Hl Hlt. rewrite frame_arrays1; [auto | congruence | lia].
  - intros offs Hoffs.
    destruct (frame_offsets0 _ Hoffs) as (offs' & Hoffs' & Hlen).
    rewrite <- frame_min_coeff0 in Hoffs'.
    destruct (frame_offsets1 _ Hoffs') as (offs'' & Hoffs'' & Hlen').
    exists offs''. rewrite <- frame_min_coeff0. split; [done | congruence].
  - intros l i Hl. destruct (frame_stores1 l i Hl) as [Hl'|Hl']; [auto|].
    right. congruence.
Qed.

Lemma framed_bind mc {A B} (m : M A) (f : A -> M B) :
  framed_at mc m -> (forall a, framed_at mc (f a)) -> framed_at mc (m ≫= f).
Proof.
  intros Hm Hf s Hs. rewrite bind_run. specialize (Hm s Hs).
  destruct (m s) as [[a|e] s']; simpl in *; [|done].
  eapply frame_trans; [exact Hm|]. apply Hf.
  rewrite (frame_min_coeff _ _ Hm). done.
Qed.

Lemma framed_get_self mc {B} (f : CFModel num Model -> M B) :
  (forall c, min_coeff c = mc -> framed_at mc (f c)) ->
  framed_at mc (get_self ≫= f : M _).
Proof. intros Hf s Hs. rewrite bind_run; simpl. by apply Hf. Qed.

Lemma framed_readonly mc {A} (m : M A) : readonly m -> framed_at mc m.
Proof. intros Hm s _. rewrite Hm. apply frame_refl. Qed.

Lemma framed_set_linear_models mc ms :
  framed_at mc (set_linear_models ms : M _).
Proof. intros s _. split; simpl; eauto. Qed.

Lemma framed_append_model mc model :
  framed_at mc (append_model model : M _).
Proof.
  unfold append_model. apply framed_bind; [by apply framed_readonly, readonly_get_self|].
  intros c. apply framed_bind; [by apply framed_readonly, readonly_attr|].
  intros ms. apply framed_set_linear_models.
Qed.

Lemma framed_alloc mc v : framed_at mc (alloc v : M _).
Proof.
  intros s _. split; simpl; try done.
  - rewrite length_app. lia.
  - intros l _ Hl. by rewrite lookup_app_l.
  - intros offs E. exists offs. by rewrite (lookup_app_l_Some _ _ _ _ E).
  - auto.
Qed.

Lemma framed_store_item mc i v :
  framed_at mc (store_item mc i v : M _).
Proof.
  intros s Hs. unfold store_item.
  destruct (heap s !! mc) as [a|] eqn:E; [|apply frame_refl].
  destruct (decide (i < length a)) as [Hi|Hi]; [|apply frame_refl].
  split; simpl; try done.
  - by rewrite length_insert.
  - intros l Hl _. rewrite list_lookup_insert_ne; [done | congruence].
  - intros offs Hoffs. rewrite Hs in *. exists (<[i:=v]> a).
    rewrite list_lookup_insert_eq by (by eapply lookup_lt_Some).
    rewrite length_insert. split; congruence.
  - intros l j Hl. apply elem_of_cons in Hl as [[= -> ->]|Hl]; auto.
Qed.

Ltac framed_steps :=
  repeat first
    [ apply framed_readonly; solve [eauto with readonly]
    | apply framed_append_model
    | apply framed_alloc
    | apply framed_set_linear_models
    | apply framed_get_self; intros ? <-
    | apply framed_bind; intros ].

Lemma framed_fit_iter mc d yfit : framed_at mc (fit_iter d yfit).
Proof.
  unfold fit_iter. framed_steps. apply framed_store_item.
Qed.

Lemma framed_fit_loop mc ds : forall yfit, framed_at mc (fit_loop ds yfit).
Proof.
  induction ds as [|d ds IH]; intros yfit; simpl.
  - apply framed_readonly, readonly_ret.
  - apply framed_bind; [apply framed_fit_iter | intros; apply IH].
Qed.

Lemma framed_fit mc : framed_at mc fit.
Proof.
  unfold fit. framed_steps. apply framed_fit_loop.
Qed.

(** ** One pass through the loop of [fit] *)

Lemma fit_iter_Ok d yfit (s : State) yfit' s' :
  fit_iter d yfit s = (Ok yfit', s') ->
  exists ms target offs m p r low,
    linear_models (self s) = Some ms
    /\ heap s !! yfit = Some target
    /\ heap s !! min_coeff (self s) = Some offs
    /\ regress (lasso (self s)) (X (self s)) target = Ok m
    /\ is_Ok (predict (X (self s)) (Some (Z.of_nat d + 1)%Z)
                (with_models s (ms ++ [m]))).1
    /\ model_predict m (X (self s)) = Ok p
    /\ vsub target p = Ok r
    /\ np_min r = Ok low
    /\ d + 1 < length offs
    /\ yfit' = length (heap s)
    /\ s' = after_pass s (ms ++ [m]) offs d (fadd (fabs low) fone)
              (vrecip (vadd_scalar r (fadd (fabs low) fone))).
Proof.
  intros Hrun. unfold fit_iter in Hrun.
  rewrite bind_run in Hrun; simpl in Hrun.
  rewrite bind_run in Hrun; unfold load in Hrun.
  destruct (heap s !! yfit) as [target|] eqn:Htarget; [|discriminate].
  rewrite bind_run in Hrun; unfold lift at 1 in Hrun.
  destruct (if lasso (self s) then _ else _) as [m|] eqn:Hm; [|discriminate].
  rewrite bind_run in Hrun. unfold append_model in Hrun.
  rewrite bind_run in Hrun; simpl in Hrun.
  destruct (linear_models (self s)) as [ms|] eqn:Hms; [|discriminate].
  simpl in Hrun.
  rewrite bind_run, (readonly_run (predict _ _)) in Hrun
    by apply readonly_predict.
  match type of Hrun with
  | context [ (predict ?a ?b ?c).1 ] =>
      destruct (predict a b c).1 as [ypred|] eqn:Hpred
  end; [|discriminate].
  rewrite bind_run in Hrun; unfold lift at 1 in Hrun.
  destruct (model_predict m (X (self s))) as [p|] eqn:Hp; [|discriminate].
  rewrite bind_run in Hrun; unfold lift at 1 in Hrun.
  destruct (vsub target p) as [r|] eqn:Hr; [|discriminate].
  rewrite bind_run in Hrun; unfold lift at 1 in Hrun.
  destruct (np_min r) as [low|] eqn:Hlow; [|discriminate].
  rewrite bind_run in Hrun; unfold store_item at 1 in Hrun; simpl in Hrun.
  destruct (heap s !! min_coeff (self s)) as [offs|] eqn:Hoffs; [|discriminate].
  destruct (decide (d + 1 < length offs)) as [Hd|Hd]; [|discriminate].
  rewrite bind_run in Hrun.
  unfold min_coeff_at, load, index, mbind, M_bind, get_self in Hrun.
  simpl in Hrun.
  rewrite list_lookup_insert_eq in Hrun by (by eapply lookup_lt_Some).
  rewrite list_lookup_insert_eq in Hrun by done.
  simpl in Hrun. unfold alloc in Hrun; simpl in Hrun.
  rewrite length_insert in Hrun.
  injection Hrun as <- <-.
  exists ms, target, offs, m, p, r, low.
  repeat split; try done. by exists ypred.
Qed.

(** ** When a level of [predict] raises *)

Lemma compute_recursive_raise (s : State) X_pred (max_depth : Z) X_orig e k :
  forall d budget,
    is_Some (linear_models (self s)) ->
    (forall i, d <= i < d + k -> is_Ok (sub_model_predict s i X_pred)) ->
    sub_model_predict s (d + k) X_pred = Raise e ->
    (Z.of_nat (d + k) <= max_depth - 1)%Z ->
    k < budget ->
    compute_recursive budget d X_pred max_depth X_orig s = (Raise e, s).
Proof.
  induction k as [|k IH]; intros d [|b] Hms Hok He Hmd Hb; try lia; simpl.
  - rewrite Nat.add_0_r in He.
    destruct (Z.of_nat d =? max_depth - 1)%Z;
      (erewrite bind_Raise; [reflexivity|]);
      rewrite compute_depth_run by done; by rewrite He.
  - destruct (Z.eqb_spec (Z.of_nat d) (max_depth - 1)); [lia|].
    destruct (Hok d) as [v Hv]; [lia|].
    erewrite bind_Ok; cycle 1.
    { rewrite compute_depth_run by done. by rewrite Hv. }
    erewrite bind_Raise; [reflexivity|].
    apply IH; [done | | | | lia].
    + intros i Hi. apply Hok. lia.
    + by replace (S d + k) with (d + S k) by lia.
    + by replace (S d + k) with (d + S k) by lia.
Qed.

(** The first level whose sub-model cannot be evaluated decides what
    [predict] raises, when the recursion gets that far. *)
Lemma predict_raise (s : State) X_pred (max_depth : Z) e j :
  is_Some (linear_models (self s)) ->
  (forall i, i < j -> is_Ok (sub_model_predict s i X_pred)) ->
  sub_model_predict s j X_pred = Raise e ->
  j = 0 \/ (Z.of_nat j <= max_depth - 1)%Z ->
  predict X_pred (Some max_depth) s = (Raise e, s).
Proof.
  intros Hms Hok He Hj. unfold predict. rewrite bind_run; simpl.
  destruct (Z.ltb_spec max_depth 2).
  - assert (j = 0) as -> by lia. rewrite compute_depth_run by done.
    by rewrite He.
  - destruct j as [|j].
    { erewrite bind_Raise; [reflexivity|].
      rewrite compute_depth_run by done. by rewrite He. }
    destruct (Hok 0) as [v Hv]; [lia|].
    erewrite bind_Ok; cycle 1.
    { rewrite compute_depth_run by done. by rewrite Hv. }
    unfold recursion_budget. rewrite !bind_run; simpl.
    destruct Hms as [ms Hms]. rewrite Hms.
    assert (j < length ms) as Hlen.
    { destruct j as [|j]; [destruct ms; [|simpl; lia]|].
      - unfold sub_model_predict, sub_model in Hv.
        rewrite Hms in Hv. discriminate.
      - destruct (Hok (S j)) as [w Hw]; [lia|].
        destruct (sub_model_predict_Ok _ _ _ _ Hw) as (ms' & m & Hms' & Hm & _).
        apply lookup_lt_Some in Hm. simplify_eq. lia. }
    erewrite bind_Raise; [reflexivity|].
    apply compute_recursive_raise with (k := j); try done; try lia; eauto.
    intros i Hi. apply Hok. lia.
Qed.

(** ** The recursion budget

    [predict] passes [compute_recursive] as many levels as there are
    sub-models.  That budget is never the reason for an exception: the
    recursion meets a missing sub-model (an [IndexError]) before it runs
    out, so a [RecursionError] can only be one that the prediction of a
    sub-model raised itself. *)

Lemma broadcast2_raise op (a b : Vec) e :
  broadcast2 op a b = Raise e -> e = ValueError.
Proof.
  unfold broadcast2. destruct (length a =? length b); [discriminate|].
  destruct a as [|x [|]], b as [|z [|]]; congruence.
Qed.

Lemma min_coeff_at_raise (s s' : State) d e :
  min_coeff_at d s = (Raise e, s') -> e <> RecursionError.
Proof.
  unfold min_coeff_at, mbind, M_bind, get_self, load, index; simpl.
  destruct (heap s !! min_coeff (self s)) as [mc|]; simpl.
  - destruct (mc !! d); unfold mret, M_ret, raise; congruence.
  - congruence.
Qed.

Lemma compute_recursive_budget (s s' : State) X_pred (max_depth : Z) X_orig ms :
  forall budget d,
    linear_models (self s) = Some ms ->
    d <= length ms < budget + d ->
    compute_recursive budget d X_pred max_depth X_orig s
      = (Raise RecursionError, s') ->
    exists i m, ms !! i = Some m /\ model_predict m X_pred = Raise RecursionError.
Proof.
  induction budget as [|b IH]; intros d Hms Hd; [lia|]; simpl.
  assert (compute_depth d X_pred s = (sub_model_predict s d X_pred, s)) as Hcd
    by (apply compute_depth_run; eauto).
  assert (sub_model_predict s d X_pred = Raise RecursionError ->
          exists i m, ms !! i = Some m
                      /\ model_predict m X_pred = Raise RecursionError) as Hsub.
  { unfold sub_model_predict, sub_model. rewrite Hms; simpl.
    destruct (ms !! d) as [m|] eqn:Hm; [eauto | discriminate]. }
  assert (sub_model_predict s d X_pred = Raise IndexError \/ d < length ms)
    as Hlt.
  { unfold sub_model_predict, sub_model. rewrite Hms; simpl.
    destruct (ms !! d) as [m|] eqn:Hm; [|by left].
    right. by eapply lookup_lt_Some. }
  destruct (Z.of_nat d =? max_depth - 1)%Z.
  - rewrite bind_run, Hcd.
    destruct (sub_model_predict s d X_pred) as [a|e] eqn:Ha.
    + rewrite bind_run.
      destruct (min_coeff_at d s) as [[c|e] s1] eqn:Hc; [discriminate|].
      intros ?; simplify_eq. by apply min_coeff_at_raise in Hc.
    + intros ?; simplify_eq. by apply Hsub.
  - rewrite bind_run, Hcd.
    destruct (sub_model_predict s d X_pred) as [a|e] eqn:Ha.
    + destruct Hlt as [?|Hlt]; [discriminate|].
      rewrite bind_run.
      destruct (compute_recursive b (S d) X_pred max_depth X_orig s)
        as [[r|e] s1] eqn:Hr.
      * rewrite bind_run. unfold lift at 1.
        destruct (vadd a r) as [t|e] eqn:Ht.
        -- rewrite bind_run.
           destruct (min_coeff_at d s1) as [[c|e] s2] eqn:Hc; [discriminate|].
           intros ?; simplify_eq. by apply min_coeff_at_raise in Hc.
        -- intros ?; simplify_eq. by apply broadcast2_raise in Ht.
      * intros ?; simplify_eq. eapply (IH (S d)); [done | lia | done].
    + intros ?; simplify_eq. by apply Hsub.
Qed.

Lemma predict_budget (s s' : State) X_pred max_depth :
  predict X_pred max_depth s = (Raise RecursionError, s') ->
  exists ms i m, linear_models (self s) = Some ms /\ ms !! i = Some m
                 /\ model_predict m X_pred = Raise RecursionError.
Proof.
  unfold predict. rewrite bind_run; simpl.
  destruct (linear_models (self s)) as [ms|] eqn:Hms; cycle 1.
  { assert (compute_depth 0 X_pred s = (Raise AttributeError, s)) as Hcd.
    { unfold compute_depth, mbind, M_bind, get_self; simpl. by rewrite Hms. }
    destruct (_ <? 2)%Z; [|rewrite bind_run]; rewrite Hcd; discriminate. }
  assert (compute_depth 0 X_pred s = (sub_model_predict s 0 X_pred, s)) as Hcd
    by (apply compute_depth_run; eauto).
  assert (forall e, sub_model_predict s 0 X_pred = Raise e ->
          e = RecursionError ->
          exists ms' i m, Some ms = Some ms' /\ ms' !! i = Some m
                      /\ model_predict m X_pred = Raise RecursionError) as Hsub.
  { unfold sub_model_predict, sub_model. rewrite Hms; simpl.
    destruct (ms !! 0) as [m|] eqn:Hm; intros e He ->; [eauto 6 | discriminate]. }
  destruct (_ <? 2)%Z.
  - rewrite Hcd. intros ?; simplify_eq. eauto.
  - rewrite bind_run, Hcd.
    destruct (sub_model_predict s 0 X_pred) as [a|e] eqn:Ha;
      [|intros ?; simplify_eq; eauto].
    assert (1 <= length ms) as Hlen.
    { apply sub_model_predict_Ok in Ha as (ms' & m & ? & Hm & _).
      apply lookup_lt_Some in Hm. simplify_eq. lia. }
    unfold recursion_budget. rewrite !bind_run; simpl. rewrite Hms.
    rewrite bind_run.
    match goal with |- context [compute_recursive ?b ?d ?Xp ?md ?Xo s] =>
      destruct (compute_recursive b d Xp md Xo s) as [[r|e] s1] eqn:Hr end.
    + unfold lift. intros ?; simplify_eq.
      match goal with H : vadd _ _ = Raise _ |- _ =>
        by apply broadcast2_raise in H end.
    + intros ?; simplify_eq. exists ms.
      assert (1 <= length ms < length ms + 1) as Hb by lia.
      destruct (compute_recursive_budget _ _ _ _ _ _ _ _ Hms Hb Hr)
        as (i & m & ? & ?).
      eauto.
Qed.

(** ** [predict] on a consistent model returns *)

Section Total.
Hypothesis predict_shape :
  forall m Xm v, model_predict m Xm = Ok v -> length v = length Xm.

Lemma predict_total (s : State) X_pred (max_depth : nat) :
  1 <= max_depth <= length (offsets s) ->
  (forall d, d < max_depth -> is_Ok (sub_model_predict s d X_pred)) ->
  is_Ok (predict X_pred (Some (Z.of_nat max_depth)) s).1.
Proof using predict_shape.
  intros Hmd Hok.
  set (p d := value_of (sub_model_predict s d X_pred)).
  assert (forall d, d < max_depth -> sub_model_predict s d X_pred = Ok (p d))
    as Hp.
  { intros d Hd. unfold p. destruct (Hok d Hd) as [v ->]. reflexivity. }
  destruct (decide (max_depth = 1)) as [->|Hne].
  - rewrite predict_shallow; [simpl; eauto | | lia].
    destruct (sub_model_predict_Ok _ _ _ _ (Hp 0 ltac:(lia)))
      as (ms & _ & -> & _); eauto.
  - erewrite (predict_nested predict_shape s X_pred max_depth p
                (fun d => remainder p (offset s) (max_depth - 1 - d) d));
      [simpl; by eexists | done | lia | | | lia].
    + by rewrite Nat.sub_diag.
    + intros d Hd. by replace (max_depth - 1 - d) with (S (max_depth - 1 - S d)) by lia.
Qed.
End Total.

(** ** The call of [predict] inside the loop *)

Lemma append_model_run (s : State) ms m :
  linear_models (self s) = Some ms ->
  append_model m s = (Ok tt, with_models s (ms ++ [m])).
Proof.
  intros Hms. unfold append_model. rewrite bind_run; simpl. by rewrite Hms.
Qed.

Lemma sub_model_predict_with_models (s : State) ms d X_pred :
  sub_model_predict (with_models s ms) d X_pred =
  match ms !! d with
  | Some m => model_predict m X_pred
  | None => Raise IndexError
  end.
Proof. reflexivity. Qed.

Section Probe.
Hypothesis predict_shape :
  forall m Xm v, model_predict m Xm = Ok v -> length v = length Xm.

(** The call [self.predict(self.X, d + 1)] of pass [d] returns when the
    sub-model just fitted predicts on [X], and otherwise raises what
    that sub-model raises. *)
Lemma predict_in_pass (s : State) ms m d :
  length ms = d ->
  Forall (fun m => is_Ok (model_predict m (X (self s)))) ms ->
  d < length (offsets s) ->
  let s1 := with_models s (ms ++ [m]) in
  match model_predict m (X (self s)) with
  | Ok _ => is_Ok (predict (X (self s)) (Some (Z.of_nat d + 1)%Z) s1).1
  | Raise e =>
      predict (X (self s)) (Some (Z.of_nat d + 1)%Z) s1 = (Raise e, s1)
  end.
Proof using predict_shape.
  intros Hlen Hready Hoffs s1.
  assert (forall i, i < d ->
            is_Ok (sub_model_predict s1 i (X (self s)))) as Hbelow.
  { intros i Hi. subst s1. rewrite sub_model_predict_with_models.
    rewrite lookup_app_l by lia.
    destruct (lookup_lt_is_Some_2 ms i ltac:(lia)) as [mi Hmi].
    rewrite Hmi. rewrite Forall_lookup in Hready. eauto. }
  assert (sub_model_predict s1 d (X (self s)) = model_predict m (X (self s)))
    as Hd.
  { subst s1. rewrite sub_model_predict_with_models.
    rewrite lookup_app_r by lia.
    by replace (d - length ms) with 0 by lia. }
  destruct (model_predict m (X (self s))) as [p|e] eqn:Hp.
  - replace (Z.of_nat d + 1)%Z with (Z.of_nat (d + 1)) by lia.
    apply predict_total; [done | | ].
    { change (offsets s1) with (offsets s). lia. }
    intros i Hi. destruct (decide (i = d)) as [->|]; [by eexists|].
    apply Hbelow. lia.
  - apply predict_raise with (j := d); [by eexists | done | done | lia].
Qed.

Lemma fit_iter_without_predict_eq (s : State) d yfit :
  models_ready s d -> d < length (offsets s) ->
  fit_iter d yfit s =
  fit_iter_without_predict d yfit s.
Proof using predict_shape.
  intros (ms & Hms & Hlen & Hready) Hoffs.
  unfold fit_iter, fit_iter_without_predict.
  rewrite !bind_get_self.
  rewrite !(bind_run (load _)).
  destruct (load yfit s) as [[target|e] s0] eqn:Hload; [|done].
  assert (s0 = s) as ->.
  { unfold load in Hload. destruct (heap s !! yfit); by simplify_eq. }
  rewrite !bind_lift.
  destruct (if lasso (self s) then _ else _) as [m|e]; [|done].
  rewrite !(bind_run (append_model _)), (append_model_run s ms m Hms).
  pose proof (predict_in_pass s ms m d Hlen Hready Hoffs) as Hprobe.
  simpl in Hprobe.
  rewrite (bind_run (predict _ _)).
  rewrite (readonly_run (predict _ _)) by apply readonly_predict.
  rewrite bind_lift.
  destruct (model_predict m (X (self s))) as [p|e] eqn:Hp.
  - destruct Hprobe as [v ->]. reflexivity.
  - rewrite Hprobe. reflexivity.
Qed.
End Probe.

(** ** The state after a pass *)

Section AfterPass.
Variables (s : State) (ms : list Model) (offs : Vec) (d : nat) (c : num)
  (t' : Vec).
Hypothesis Hoffs : heap s !! min_coeff (self s) = Some offs.

Lemma after_pass_offsets :
  heap (after_pass s ms offs d c t') !! min_coeff (self s)
    = Some (<[d + 1 := c]> offs).
Proof using Hoffs.
  simpl. pose proof (lookup_lt_Some _ _ _ Hoffs).
  rewrite lookup_app_l by (by rewrite length_insert).
  by apply list_lookup_insert_eq.
Qed.

Lemma after_pass_target :
  heap (after_pass s ms offs d c t') !! length (heap s) = Some t'.
Proof.
  simpl. rewrite lookup_app_r by (by rewrite length_insert).
  by rewrite length_insert, Nat.sub_diag.
Qed.

End AfterPass.


(** ** The loop without its call of [predict] *)

Section Without.
Hypothesis predict_shape :
  forall m Xm v, model_predict m Xm = Ok v -> length v = length Xm.

End Without.

(** ** The loop of [fit], run to completion *)

Lemma length_store_from (cs : Vec) : forall i offs,
  length (store_from i cs offs) = length offs.
Proof.
  induction cs as [|c cs IH]; intros i offs; simpl; [done|].
  by rewrite IH, length_insert.
Qed.

Lemma store_from_outside (cs : Vec) : forall i offs j,
  j < i \/ i + length cs <= j -> store_from i cs offs !! j = offs !! j.
Proof.
  induction cs as [|c cs IH]; intros i offs j Hj; simpl in *; [done|].
  rewrite IH by lia. apply list_lookup_insert_ne. lia.
Qed.

Lemma store_from_inside (cs : Vec) : forall i offs k,
  i + length cs <= length offs -> k < length cs ->
  store_from i cs offs !! (i + k) = cs !! k.
Proof.
  induction cs as [|c cs IH]; intros i offs k Hi Hk; simpl in *; [lia|].
  destruct k as [|k].
  - rewrite store_from_outside by lia.
    rewrite Nat.add_0_r. apply list_lookup_insert_eq. lia.
  - replace (i + S k) with (S i + k) by lia.
    apply IH; [rewrite length_insert|]; lia.
Qed.

Lemma fit_steps_length flag Xm d t ms cs t' :
  fit_steps flag Xm d t ms cs t' -> length cs = length ms.
Proof. induction 1; simpl; congruence. Qed.

Lemma fit_steps_ready flag Xm d t ms cs t' :
  fit_steps flag Xm d t ms cs t' ->
  Forall (fun m => is_Ok (model_predict m Xm)) ms.
Proof. induction 1; constructor; [by eexists | done]. Qed.

Lemma pass_stores_S mc d n :
  pass_stores mc d (S n) = pass_stores mc (S d) n ++ [(mc, d + 1)].
Proof. reflexivity. Qed.

Lemma fit_loop_Ok n :
  forall d yfit (s : State) yfit' s' ms target offs,
    fit_loop (seq d n) yfit s = (Ok yfit', s') ->
    linear_models (self s) = Some ms -> length ms = d ->
    heap s !! yfit = Some target ->
    heap s !! min_coeff (self s) = Some offs ->
    exists ms' cs target',
      fit_steps (lasso (self s)) (X (self s)) d target ms' cs target'
      /\ length ms' = n
      /\ (n = 0 \/ d + n < length offs)
      /\ linear_models (self s') = Some (ms ++ ms')
      /\ heap s' !! yfit' = Some target'
      /\ heap s' !! min_coeff (self s) = Some (store_from (d + 1) cs offs)
      /\ stores s' = pass_stores (min_coeff (self s)) d n ++ stores s.
Proof.
  induction n as [|n IH];
    intros d yfit s yfit' s' ms target offs Hrun Hms Hlen Htarget Hoffs.
  - simpl in Hrun. injection Hrun as <- <-.
    exists [], [], target. rewrite app_nil_r.
    repeat split; eauto using fit_steps_done.
  - simpl in Hrun. rewrite bind_run in Hrun.
    destruct (fit_iter d yfit s) as [[yfit1|e] s1] eqn:Hpass; [|discriminate].
    destruct (fit_iter_Ok _ _ _ _ _ Hpass)
      as (ms0 & target0 & offs0 & m & p & r & low & Hms0 & Htarget0 & Hoffs0
          & Hm & Hprobe & Hp & Hr & Hlow & Hd & -> & ->).
    assert (ms0 = ms) as -> by congruence.
    assert (target0 = target) as -> by congruence.
    assert (offs0 = offs) as -> by congruence.
    clear Hms0 Htarget0 Hoffs0.
    set (c := fadd (fabs low) fone) in *.
    set (t1 := vrecip (vadd_scalar r c)) in *.
    destruct (IH _ _ _ _ _ (ms ++ [m]) t1 (<[d + 1 := c]> offs) Hrun)
      as (ms' & cs & target' & Hsteps & Hlen' & Hn & Hms' & Hyfit' & Hoffs'
          & Hstores).
    { reflexivity. }
    { rewrite length_app. simpl. lia. }
    { apply after_pass_target. }
    { exact (after_pass_offsets s _ _ _ _ _ Hoffs). }
    simpl in Hsteps, Hoffs', Hstores.
    exists (m :: ms'), (c :: cs), target'.
    split; [by eapply fit_steps_next|].
    split; [simpl; lia|].
    split; [right; rewrite length_insert in Hn; lia|].
    split; [by rewrite Hms', <- app_assoc|].
    split; [done|].
    split.
    + simpl. by replace (S (d + 1)) with (S d + 1) by lia.
    + rewrite Hstores, pass_stores_S, <- app_assoc. reflexivity.
Qed.

(** ** Construction *)

Lemma init_Ok depth0 data norm0 test_size lasso0 s :
  init depth0 data norm0 test_size lasso0 = Ok s ->
  constructed s /\ depth (self s) = depth0 /\ norm (self s) = norm0
  /\ lasso (self s) = lasso0.
Proof.
  unfold init. destruct data as [X0 y0].
  unfold np_zeros. destruct (Z.ltb_spec (depth0 + 2) 0); [discriminate|].
  simpl. destruct (fltb fzero test_size).
  - destruct (train_test_split _ _ _) as [[[[Xtr Xte] ytr] yte]|];
      [|discriminate].
    intros [= <-]. repeat split; simpl; eauto; lia.
  - intros [= <-]. repeat split; simpl; eauto; lia.
Qed.


(** ** [fit], run to completion *)

Lemma fit_run (s : State) :
  fit s = match fit_loop (seq 0 (Z.to_nat (depth (self s)))) (y (self s))
                  (with_models s []) with
          | (Ok _, s') => (Ok tt, s')
          | (Raise e, s') => (Raise e, s')
          end.
Proof.
  unfold fit. rewrite bind_get_self, bind_run. simpl.
  rewrite bind_run. fold (with_models s []).
  change (depth (self s)) with (depth (self (with_models s []))).
  by destruct (fit_loop _ _ _) as [[?|?] ?].
Qed.

Lemma frame_y_values (s s' : State) :
  frame s s' -> is_Some (heap s !! y (self s)) ->
  y (self s) <> min_coeff (self s) -> y_values s' = y_values s.
Proof.
  intros Hf Hy Hne. unfold y_values.
  rewrite (frame_y _ _ Hf), (frame_arrays _ _ Hf); [done | done |].
  destruct Hy as [v Hv]. by eapply lookup_lt_Some.
Qed.

Lemma fit_Ok (s0 s : State) :
  constructed s0 -> fit s0 = (Ok tt, s) ->
  exists ms cs, fit_result s0 s ms cs.
Proof.
  intros Hc Hrun.
  assert (frame s0 s) as Hframe.
  { pose proof (framed_fit _ s0 eq_refl) as Hf. by rewrite Hrun in Hf. }
  rewrite fit_run in Hrun.
  destruct (fit_loop _ _ _) as [[yfit'|e] s'] eqn:Hloop; [|discriminate].
  injection Hrun as ->.
  destruct (constructed_y _ Hc) as [target Htarget].
  destruct (fit_loop_Ok _ _ _ _ _ _ [] target _ Hloop eq_refl eq_refl Htarget
              (constructed_offsets _ Hc))
    as (ms & cs & target' & Hsteps & Hlen & Hn & Hms & Hyfit' & Hoffs & Hstores).
  simpl in *. exists ms, cs. split; try done.
  - exists target'. unfold y_values. by rewrite Htarget.
  - by rewrite (frame_min_coeff _ _ Hframe).
  - by rewrite Hstores, (constructed_stores _ Hc), app_nil_r.
  - apply frame_y_values; [done | done | apply Hc].
Qed.

(** ** Fitted models *)

Lemma fitted_result (s : State) :
  fitted s -> exists s0 ms cs, constructed s0 /\ fit_result s0 s ms cs.
Proof.
  intros (depth0 & data & norm0 & ts & lasso0 & s0 & Hinit & Hfit).
  destruct (init_Ok _ _ _ _ _ _ Hinit) as (Hc & _).
  destruct (fit_Ok _ _ Hc Hfit) as (ms & cs & Hres). eauto.
Qed.

Lemma fit_result_offsets (s0 s : State) ms cs :
  constructed s0 -> fit_result s0 s ms cs ->
  length (offsets s) = Z.to_nat (depth (self s) + 2).
Proof.
  intros Hc Hres. unfold offsets. rewrite (result_offsets _ _ _ _ Hres). simpl.
  rewrite length_store_from, length_replicate.
  by rewrite (frame_depth _ _ (result_frame _ _ _ _ Hres)).
Qed.

Lemma fit_result_depth (s0 s : State) ms cs :
  fit_result s0 s ms cs -> fitted_depth s = Z.to_nat (depth (self s)).
Proof.
  intros Hres. unfold fitted_depth.
  rewrite (result_models _ _ _ _ Hres), (result_count _ _ _ _ Hres).
  by rewrite (frame_depth _ _ (result_frame _ _ _ _ Hres)).
Qed.

(** a fitted model has [depth] sub-models and [depth + 2] offsets *)
Lemma fitted_sizes (s : State) :
  fitted s ->
  is_Some (linear_models (self s))
  /\ fitted_depth s = Z.to_nat (depth (self s))
  /\ length (offsets s) = Z.to_nat (depth (self s) + 2)
  /\ (-2 <= depth (self s))%Z.
Proof.
  intros Hs. destruct (fitted_result s Hs) as (s0 & ms & cs & Hc & Hres).
  split; [rewrite (result_models _ _ _ _ Hres); eauto|].
  split; [by eapply fit_result_depth|].
  split; [by eapply fit_result_offsets|].
  rewrite (frame_depth _ _ (result_frame _ _ _ _ Hres)). apply Hc.
Qed.

(** ** The prediction formula *)

Section Prediction.
Hypothesis predict_shape :
  forall m Xm v, model_predict m Xm = Ok v -> length v = length Xm.

(** C1.  On a fitted model of depth [D >= 1], for [1 <= max_depth <= D]:
    with [max_depth = 1], [predict] is [sub_model[0].predict(X_pred)];
    with [max_depth >= 2] it is [sub_model[0].predict(X_pred) + R(1)],
    where [R(max_depth - 1) = 1 / sub_model[max_depth - 1].predict(X_pred)
    - offset[max_depth - 1]] and, for [1 <= d < max_depth - 1],
    [R(d) = 1 / (sub_model[d].predict(X_pred) + R(d + 1)) - offset[d]];
    every level is evaluated on [X_pred] itself and the model is left
    as it was.  [p d] names the value of [sub_model[d].predict(X_pred)]. *)
Theorem predict_continued_fraction
    (s : State) (X_pred : Matrix) (max_depth : nat) (p R : nat -> Vec) :
  fitted s ->
  1 <= max_depth -> (Z.of_nat max_depth <= depth (self s))%Z ->
  (forall d, d < max_depth -> sub_model_predict s d X_pred = Ok (p d)) ->
  (max_depth = 1 ->
     predict X_pred (Some 1%Z) s = (sub_model_predict s 0 X_pred, s))
  /\ (2 <= max_depth ->
      R (max_depth - 1) =
        vsub_scalar (vrecip (p (max_depth - 1))) (offset s (max_depth - 1)) ->
      (forall d, 1 <= d < max_depth - 1 ->
         R d = vsub_scalar (vrecip (zip_with fadd (p d) (R (S d))))
                 (offset s d)) ->
      predict X_pred (Some (Z.of_nat max_depth)) s
        = (Ok (zip_with fadd (p 0) (R 1)), s)).
Proof using predict_shape.
  intros Hs Hmin Hmax Hp.
  destruct (fitted_sizes s Hs) as (Hms & Hdepth & Hoffs & Hd).
  split.
  - intros _. by apply predict_shallow.
  - intros Hdeep Hinner Hnested.
    eapply predict_nested; eauto. lia.
Qed.
End Prediction.

(** ** The iterations of [fit] *)

Lemma fit_steps_sequence flag Xm d0 t ms cs t' :
  fit_steps flag Xm d0 t ms cs t' ->
  forall yfit : nat -> Vec,
    yfit d0 = t ->
    (forall k m p r,
       ms !! k = Some m -> model_predict m Xm = Ok p ->
       vsub (yfit (d0 + k)) p = Ok r ->
       yfit (S (d0 + k)) = vrecip (vadd_scalar r (default fzero (cs !! k)))) ->
    forall k m, ms !! k = Some m ->
      exists p r low,
        regress flag Xm (yfit (d0 + k)) = Ok m
        /\ model_predict m Xm = Ok p
        /\ vsub (yfit (d0 + k)) p = Ok r
        /\ np_min r = Ok low
        /\ cs !! k = Some (fadd (fabs low) fone).
Proof.
  induction 1 as [|d t m p r low ms cs t' Hm Hp Hr Hlow Hsteps IH];
    intros yfit Hstart Hnext k mk Hmk; [done|].
  destruct k as [|k]; simpl in Hmk.
  - injection Hmk as <-. rewrite Nat.add_0_r, Hstart. by exists p, r, low.
  - replace (d + S k) with (S d + k) by lia. apply IH; [| |done].
    + rewrite <- (Nat.add_0_r d) at 1.
      rewrite (Hnext 0 m p r); [done | done | done |].
      by rewrite Nat.add_0_r, Hstart.
    + intros j mj pj rj Hmj Hpj Hrj.
      replace (S d + j) with (d + S j) in * by lia.
      by apply (Hnext (S j) mj pj rj).
Qed.

Lemma fit_result_offset (s0 s : State) ms cs d :
  fit_result s0 s ms cs -> d < length ms ->
  offset s (S d) = default fzero (cs !! d).
Proof.
  intros Hres Hd. unfold offset, offsets.
  rewrite (result_offsets _ _ _ _ Hres). simpl.
  destruct (result_steps _ _ _ _ Hres) as [t' Hsteps].
  pose proof (fit_steps_length _ _ _ _ _ _ _ Hsteps) as Hlen.
  rewrite (store_from_inside cs 1 _ d); [done | | lia].
  rewrite length_replicate, Hlen, (result_count _ _ _ _ Hres).
  pose proof (result_count _ _ _ _ Hres). lia.
Qed.

(** what every pass of a completed [fit] did, in the vocabulary of the
    specification *)
Lemma fit_result_passes (s0 s : State) ms cs yfit :
  fit_result s0 s ms cs -> working_targets s0 s yfit ->
  forall d m, ms !! d = Some m ->
    exists p r low,
      regress (lasso (self s0)) (X (self s0)) (yfit d) = Ok m
      /\ model_predict m (X (self s0)) = Ok p
      /\ vsub (yfit d) p = Ok r
      /\ np_min r = Ok low
      /\ offset s (S d) = fadd (fabs low) fone.
Proof.
  intros Hres [Hstart Hnext] d m Hm.
  destruct (result_steps _ _ _ _ Hres) as [t' Hsteps].
  destruct (fit_steps_sequence _ _ _ _ _ _ _ Hsteps yfit Hstart) with (k := d) (m := m)
    as (p & r & low & H1 & H2 & H3 & H4 & H5); [|done|].
  - intros k mk pk rk Hmk Hpk Hrk. simpl in *.
    rewrite <- (fit_result_offset s0 s ms cs k Hres)
      by (by eapply lookup_lt_Some).
    apply (Hnext k mk pk rk); [|done|done].
    unfold sub_model. by rewrite (result_models _ _ _ _ Hres).
  - exists p, r, low. repeat split; try done.
    rewrite (fit_result_offset s0 s ms cs d Hres) by (by eapply lookup_lt_Some).
    by rewrite H5.
Qed.

(** C2.  A [fit] that completes on a model of depth [D >= 1] made exactly
    [D] passes, one per depth [0 .. D - 1] and none skipped: it holds [D]
    sub-models and logged one offset assignment per pass.  Sub-model [d]
    is the regressor (Lasso when the flag is set, least squares
    otherwise) fitted on [(X, yfit d)], where [yfit 0 = y] and
    [yfit (d + 1) = 1 / (yfit d - sub_model[d].predict(X) + offset[d + 1])],
    and [X] is the feature matrix of the model, the same at every depth. *)
Theorem fit_iterations depth0 data norm0 test_size lasso0 (s0 s : State)
    (yfit : nat -> Vec) :
  init depth0 data norm0 test_size lasso0 = Ok s0 ->
  (1 <= depth0)%Z ->
  fit s0 = (Ok tt, s) ->
  working_targets s0 s yfit ->
  fitted_depth s = Z.to_nat depth0
  /\ stores s = pass_stores (min_coeff (self s)) 0 (Z.to_nat depth0)
  /\ X (self s) = X (self s0)
  /\ forall d, d < Z.to_nat depth0 ->
       exists m,
         sub_model s d = Some m
         /\ (if lasso0 then Lasso_fit (X (self s0)) (yfit d)
             else LinearRegression_fit (X (self s0)) (yfit d)) = Ok m
         /\ is_Ok (sub_model_predict s d (X (self s0))).
Proof.
  intros Hinit Hdepth Hfit Hyfit.
  destruct (init_Ok _ _ _ _ _ _ Hinit) as (Hc & <- & _ & <-).
  destruct (fit_Ok _ _ Hc Hfit) as (ms & cs & Hres).
  pose proof (result_frame _ _ _ _ Hres) as Hframe.
  split; [unfold fitted_depth;
          by rewrite (result_models _ _ _ _ Hres), (result_count _ _ _ _ Hres)|].
  split; [by rewrite (result_stores _ _ _ _ Hres), (frame_min_coeff _ _ Hframe)|].
  split; [apply Hframe|].
  intros d Hd.
  destruct (lookup_lt_is_Some_2 ms d) as [m Hm];
    [by rewrite (result_count _ _ _ _ Hres)|].
  destruct (fit_result_passes _ _ _ _ _ Hres Hyfit d m Hm)
    as (p & r & low & Hfitm & Hp & _).
  exists m. unfold sub_model_predict, sub_model.
  rewrite (result_models _ _ _ _ Hres). simpl. rewrite Hm.
  repeat split; [done | by eexists].
Qed.

(** ** The target vector *)

(** C7.  Whatever the data and the depth, and however [fit] ends, the
    attribute [y] refers to the same array afterwards and that array
    holds the same elements as before the call; no item assignment of
    [fit] addresses it.  ([fit] binds its working target to that very
    array for the first pass and only ever rebinds it to new arrays.) *)
Theorem fit_preserves_y depth0 data norm0 test_size lasso0 (s0 s : State) r :
  init depth0 data norm0 test_size lasso0 = Ok s0 ->
  fit s0 = (r, s) ->
  y (self s) = y (self s0)
  /\ y_values s = y_values s0
  /\ forall l i, (l, i) ∈ stores s -> l <> y (self s).
Proof.
  intros Hinit Hfit.
  destruct (init_Ok _ _ _ _ _ _ Hinit) as (Hc & _).
  assert (frame s0 s) as Hframe.
  { pose proof (framed_fit _ s0 eq_refl) as Hf. by rewrite Hfit in Hf. }
  split; [apply Hframe|].
  split; [apply frame_y_values; [done | apply Hc | apply Hc]|].
  intros l i Hl. rewrite (frame_y _ _ Hframe).
  destruct (frame_stores _ _ Hframe l i Hl) as [Hin| ->].
  - rewrite (constructed_stores _ Hc) in Hin. by apply elem_of_nil in Hin.
  - intros E. by apply (constructed_apart _ Hc).
Qed.

(** ** Depths that are not positive *)




(** ** [max_depth] out of range *)

Lemma first_failure {A} (f : nat -> res A) n :
  (forall i, i < n -> is_Ok (f i))
  \/ exists j e, j < n /\ f j = Raise e /\ forall i, i < j -> is_Ok (f i).
Proof.
  induction n as [|n [IH|(j & e & Hj & He & Hok)]].
  - left. intros i Hi. lia.
  - destruct (f n) as [a|e] eqn:E.
    + left. intros i Hi. destruct (decide (i = n)) as [->|]; [by eexists|].
      apply IH. lia.
    + right. exists n, e. repeat split; [lia | done | done].
  - right. exists j, e. repeat split; [lia | done | done].
Qed.

(** C4, as the code has it.  [predict] does not validate [max_depth]:
    every [max_depth <= 1], zero and the negatives included, is served as
    [max_depth = 1] and returns [sub_model[0].predict(X_pred)]; a
    [max_depth] above the fitted depth always ends in an exception, which
    is the [IndexError] of [linear_models[D]] whenever the [D] sub-models
    themselves predict on [X_pred].  Neither case changes the model. *)
Theorem max_depth_unchecked (s : State) (X_pred : Matrix) (max_depth : Z) :
  fitted s -> (1 <= depth (self s))%Z ->
  ((max_depth <= 1)%Z ->
     predict X_pred (Some max_depth) s = (sub_model_predict s 0 X_pred, s))
  /\ ((depth (self s) < max_depth)%Z ->
      (exists e, predict X_pred (Some max_depth) s = (Raise e, s))
      /\ ((forall d, d < fitted_depth s ->
             is_Ok (sub_model_predict s d X_pred)) ->
          predict X_pred (Some max_depth) s = (Raise IndexError, s))).
Proof.
  intros Hs Hdepth.
  destruct (fitted_sizes s Hs) as (Hms & Hcount & _).
  split; [intros Hmd; apply predict_shallow; [done | lia]|].
  intros Hmd.
  assert (sub_model_predict s (fitted_depth s) X_pred = Raise IndexError)
    as Hlast.
  { unfold sub_model_predict, sub_model, fitted_depth.
    destruct Hms as [ms ->]. simpl.
    by rewrite (lookup_ge_None_2 ms (length ms)). }
  assert ((forall d, d < fitted_depth s ->
             is_Ok (sub_model_predict s d X_pred)) ->
          predict X_pred (Some max_depth) s = (Raise IndexError, s)) as Hall.
  { intros Hok. apply predict_raise with (j := fitted_depth s);
      [done | done | done | lia]. }
  split; [|done].
  destruct (first_failure (fun d => sub_model_predict s d X_pred)
              (fitted_depth s)) as [Hok|(j & e & Hj & He & Hok)].
  - exists IndexError. auto.
  - exists e. apply predict_raise with (j := j); [done | done | done | lia].
Qed.

(** ** A solve that fails part-way *)

Lemma fit_loop_app ds1 : forall ds2 yfit (s : State),
  fit_loop (ds1 ++ ds2) yfit s =
  match fit_loop ds1 yfit s with
  | (Ok yfit', s') => fit_loop ds2 yfit' s'
  | (Raise e, s') => (Raise e, s')
  end.
Proof.
  induction ds1 as [|d ds1 IH]; intros ds2 yfit s; simpl; [done|].
  rewrite !bind_run. destruct (fit_iter d yfit s) as [[yfit'|e] s']; [|done].
  apply IH.
Qed.

Lemma fit_iter_solve_fails d yfit (s : State) target e :
  heap s !! yfit = Some target ->
  regress (lasso (self s)) (X (self s)) target = Raise e ->
  fit_iter d yfit s = (Raise e, s).
Proof.
  intros Htarget He. unfold fit_iter.
  rewrite bind_get_self, bind_run. unfold load. rewrite Htarget.
  rewrite bind_lift. unfold regress in He. by rewrite He.
Qed.

Lemma passes_Ok (s0 : State) n yfit s :
  constructed s0 -> passes s0 n = (Ok yfit, s) ->
  exists ms cs target,
    fit_steps (lasso (self s0)) (X (self s0)) 0 (y_values s0) ms cs target
    /\ length ms = n
    /\ linear_models (self s) = Some ms
    /\ heap s !! yfit = Some target
    /\ heap s !! min_coeff (self s0)
         = Some (store_from 1 cs
                   (replicate (Z.to_nat (depth (self s0) + 2)) fzero))
    /\ stores s = pass_stores (min_coeff (self s0)) 0 n
    /\ frame s0 s.
Proof.
  intros Hc Hrun. unfold passes in Hrun.
  assert (frame s0 s) as Hframe.
  { pose proof (framed_fit_loop _ (seq 0 n) (y (self s0)) (with_models s0 [])
                  eq_refl) as Hf.
    rewrite Hrun in Hf. eapply frame_trans; [|exact Hf].
    apply (framed_set_linear_models _ [] s0 eq_refl). }
  destruct (constructed_y _ Hc) as [target Htarget].
  destruct (fit_loop_Ok _ _ _ _ _ _ [] target _ Hrun eq_refl eq_refl Htarget
              (constructed_offsets _ Hc))
    as (ms & cs & target' & Hsteps & Hlen & Hn & Hms & Hyfit' & Hoffs & Hstores).
  simpl in *. exists ms, cs, target'.
  unfold y_values. rewrite Htarget.
  split_and!; try done.
  by rewrite Hstores, (constructed_stores _ Hc), app_nil_r.
Qed.

Section Partial.
Hypothesis predict_shape :
  forall m Xm v, model_predict m Xm = Ok v -> length v = length Xm.

(** C6, as the code has it.  [fit] is not atomic.  When the first [d]
    passes complete and the solve of pass [d] raises, [fit] raises the
    same exception and leaves the model as those [d] passes made it:
    [d] sub-models, the offsets [1 .. d] assigned; and [predict] serves
    every [1 <= max_depth <= d] from them. *)
Theorem fit_leaves_partial_model depth0 data norm0 test_size lasso0
    (s0 s : State) (d : nat) yfit target e :
  init depth0 data norm0 test_size lasso0 = Ok s0 ->
  (Z.of_nat d < depth0)%Z ->
  passes s0 d = (Ok yfit, s) ->
  heap s !! yfit = Some target ->
  regress lasso0 (X (self s0)) target = Raise e ->
  fit s0 = (Raise e, s)
  /\ fitted_depth s = d
  /\ stores s = pass_stores (min_coeff (self s)) 0 d
  /\ forall max_depth, 1 <= max_depth <= d ->
       is_Ok (predict (X (self s)) (Some (Z.of_nat max_depth)) s).1.
Proof using predict_shape.
  intros Hinit Hd Hrun Htarget He.
  destruct (init_Ok _ _ _ _ _ _ Hinit) as (Hc & <- & _ & <-).
  destruct (passes_Ok _ _ _ _ Hc Hrun)
    as (ms & cs & target' & Hsteps & Hlen & Hms & _ & Hoffs & Hstores & Hframe).
  split.
  { rewrite fit_run.
    replace (Z.to_nat (depth (self s0))) with (d + (Z.to_nat (depth (self s0)) - d)) by lia.
    rewrite seq_app, fit_loop_app. fold (passes s0 d). rewrite Hrun.
    destruct (Z.to_nat (depth (self s0)) - d) as [|k] eqn:Ek; [lia|]. simpl.
    rewrite bind_run.
    rewrite (fit_iter_solve_fails d yfit s target e); [done | done |].
    by rewrite (frame_lasso _ _ Hframe), (frame_X _ _ Hframe). }
  split; [unfold fitted_depth; by rewrite Hms|].
  split; [by rewrite Hstores, (frame_min_coeff _ _ Hframe)|].
  intros max_depth Hmd. apply predict_total; [done | |].
  - unfold offsets. rewrite (frame_min_coeff _ _ Hframe), Hoffs. simpl.
    rewrite length_store_from, length_replicate. lia.
  - intros k Hk. unfold sub_model_predict, sub_model.
    rewrite Hms. simpl.
    destruct (lookup_lt_is_Some_2 ms k ltac:(lia)) as [m Hm]. rewrite Hm.
    pose proof (fit_steps_ready _ _ _ _ _ _ _ Hsteps) as Hready.
    rewrite Forall_lookup in Hready. rewrite (frame_X _ _ Hframe). eauto.
Qed.
End Partial.

(** ** The mean squared error *)

Section Shapes.
Hypothesis predict_shape :
  forall m Xm v, model_predict m Xm = Ok v -> length v = length Xm.

Lemma compute_depth_length (s : State) d X_pred v s' :
  compute_depth d X_pred s = (Ok v, s') -> length v = length X_pred.
Proof using predict_shape.
  destruct (linear_models (self s)) as [ms|] eqn:Hms.
  - rewrite compute_depth_run by (by eexists). intros [= Hv _].
    destruct (sub_model_predict_Ok _ _ _ _ Hv) as (_ & m & _ & _ & Hm). eauto.
  - unfold compute_depth. rewrite bind_get_self, Hms. done.
Qed.

Lemma compute_recursive_length X_pred max_depth X_orig budget :
  forall d (s : State) v s',
    compute_recursive budget d X_pred max_depth X_orig s = (Ok v, s') ->
    length v = length X_pred.
Proof using predict_shape.
  induction budget as [|b IH]; intros d s v s' Hrun; simpl in Hrun; [done|].
  destruct (Z.of_nat d =? max_depth - 1)%Z.
  - rewrite bind_run in Hrun.
    destruct (compute_depth d X_pred s) as [[a|e] s1] eqn:Ha; [|done].
    rewrite bind_run in Hrun.
    destruct (min_coeff_at d s1) as [[c|e] s2]; [|done].
    injection Hrun as <- _.
    rewrite length_vsub_scalar, length_vrecip. by eapply compute_depth_length.
  - rewrite bind_run in Hrun.
    destruct (compute_depth d X_pred s) as [[a|e] s1] eqn:Ha; [|done].
    rewrite bind_run in Hrun.
    destruct (compute_recursive b (S d) X_pred max_depth X_orig s1)
      as [[r|e] s2] eqn:Hr; [|done].
    rewrite bind_lift in Hrun.
    destruct (vadd a r) as [t|e] eqn:Ht; [|done].
    rewrite bind_run in Hrun.
    destruct (min_coeff_at d s2) as [[c|e] s3]; [|done].
    injection Hrun as <- _.
    rewrite length_vsub_scalar, length_vrecip.
    apply compute_depth_length in Ha. apply IH in Hr.
    unfold vadd in Ht. rewrite broadcast2_same in Ht by congruence.
    injection Ht as <-. rewrite length_zip_with. lia.
Qed.

Lemma predict_length (s : State) X_pred max_depth v s' :
  predict X_pred max_depth s = (Ok v, s') -> length v = length X_pred.
Proof using predict_shape.
  unfold predict. rewrite bind_get_self.
  destruct (_ <? 2)%Z; [apply compute_depth_length|].
  intros Hrun. rewrite bind_run in Hrun.
  destruct (compute_depth 0 X_pred s) as [[a|e] s1] eqn:Ha; [|done].
  rewrite bind_run in Hrun. unfold recursion_budget in Hrun.
  rewrite bind_get_self in Hrun. simpl in Hrun. rewrite bind_run in Hrun.
  destruct (compute_recursive _ 1 X_pred _ X_pred s1) as [[r|e] s2] eqn:Hr;
    [|done].
  unfold lift in Hrun. injection Hrun as Ht _.
  apply compute_depth_length in Ha. apply compute_recursive_length in Hr.
  unfold vadd in Ht. rewrite broadcast2_same in Ht by congruence.
  injection Ht as <-. rewrite length_zip_with. lia.
Qed.

(** C9.  On data [X_eval], [y_true] with as many rows as targets, where
    [predict(X_eval)] is [y_pred], [mse] returns
    [sum((y_pred - y_true)**2) / len(y_true)] and leaves the model as it
    was.  The formula is applied to whatever values [predict] produced:
    there is no case distinction on them. *)
Theorem mse_formula (s : State) (test : bool) (X_eval : Matrix)
    (y_true y_pred : Vec) :
  evaluation_data s test = Some (X_eval, y_true) ->
  length X_eval = length y_true ->
  predict X_eval None s = (Ok y_pred, s) ->
  mse test s =
  (Ok (fdiv (np_sum (vsquare (zip_with fsub y_pred y_true)))
         (fof_nat (length y_true))), s).
Proof using predict_shape.
  intros Hdata Hrows Hpred.
  pose proof (predict_length _ _ _ _ _ Hpred) as Hlen.
  unfold mse. rewrite bind_get_self.
  unfold evaluation_data in Hdata.
  assert (exists l, heap s !! l = Some y_true /\
            (if test then
               xt ← attr (X_test (self s)); yt ← attr (y_test (self s));
               mret (xt, yt)
             else mret (X (self s), y (self s)) : M _) s
            = (Ok (X_eval, l), s)) as (l & Hl & Hsel).
  { destruct test.
    - destruct (X_test (self s)) as [xt|]; [|done]. simpl in Hdata.
      destruct (y_test (self s)) as [l|]; [|done]. simpl in Hdata.
      destruct (heap s !! l) as [yt|] eqn:Hl; [|done]. simpl in Hdata.
      injection Hdata as -> ->. by exists l.
    - destruct (heap s !! y (self s)) as [yv|] eqn:Hl; [|done].
      simpl in Hdata. injection Hdata as <- ->. by exists (y (self s)). }
  rewrite (bind_Ok _ _ _ _ _ Hsel).
  rewrite (bind_Ok _ _ _ _ _ Hpred).
  rewrite bind_run. unfold load. rewrite Hl.
  rewrite bind_lift. unfold vsub.
  rewrite broadcast2_same by congruence.
  unfold mret, M_ret. do 3 f_equal. congruence.
Qed.
End Shapes.

(** ** [fit] without its call of [predict] *)

Section Equivalence.
Hypothesis predict_shape :
  forall m Xm v, model_predict m Xm = Ok v -> length v = length Xm.

End Equivalence.

(** ** The offsets over the life of a model *)

Lemma fit_steps_offsets flag Xm d t ms cs t' :
  fit_steps flag Xm d t ms cs t' ->
  Forall (fun c => exists low, c = fadd (fabs low) fone) cs.
Proof. induction 1; constructor; [by eexists | done]. Qed.

Lemma elem_of_store_from c (cs : Vec) : forall i offs,
  c ∈ store_from i cs offs -> c ∈ cs \/ c ∈ offs.
Proof.
  induction cs as [|c' cs IH]; intros i offs Hc; simpl in Hc; [auto|].
  destruct (IH _ _ Hc) as [Hin|Hin]; [left; by right|].
  apply list_elem_of_lookup in Hin as [j Hj].
  destruct (decide (i = j)) as [->|Hne].
  - destruct (decide (j < length offs)).
    + rewrite list_lookup_insert_eq in Hj by done. injection Hj as <-.
      left. by left.
    + rewrite list_insert_ge in Hj by lia. right.
      by eapply list_elem_of_lookup_2.
  - rewrite list_lookup_insert_ne in Hj by done. right.
    by eapply list_elem_of_lookup_2.
Qed.

Lemma elem_of_pass_stores mc d n l i :
  (l, i) ∈ pass_stores mc d n -> l = mc /\ d + 1 <= i <= d + n.
Proof.
  unfold pass_stores. intros Hin.
  apply list_elem_of_In, in_rev, in_map_iff in Hin.
  destruct Hin as (k & [= <- <-] & Hk). apply in_seq in Hk. lia.
Qed.

(** a pass that raises has assigned nothing *)
Lemma fit_iter_Raise d yfit (s : State) e s' :
  fit_iter d yfit s = (Raise e, s') ->
  heap s' = heap s /\ stores s' = stores s.
Proof.
  intros Hrun. unfold fit_iter in Hrun.
  rewrite bind_run in Hrun; simpl in Hrun.
  rewrite bind_run in Hrun; unfold load in Hrun.
  destruct (heap s !! yfit) as [target|] eqn:Htarget;
    [|by injection Hrun as _ <-].
  rewrite bind_run in Hrun; unfold lift at 1 in Hrun.
  destruct (if lasso (self s) then _ else _) as [m|] eqn:Hm;
    [|by injection Hrun as _ <-].
  rewrite bind_run in Hrun. unfold append_model in Hrun.
  rewrite bind_run in Hrun; simpl in Hrun.
  destruct (linear_models (self s)) as [ms|] eqn:Hms;
    [|by injection Hrun as _ <-].
  simpl in Hrun.
  rewrite bind_run, (readonly_run (predict _ _)) in Hrun
    by apply readonly_predict.
  match type of Hrun with
  | context [ (predict ?a ?b ?c).1 ] =>
      destruct (predict a b c).1 as [ypred|] eqn:Hpred
  end; [|by injection Hrun as _ <-].
  rewrite bind_run in Hrun; unfold lift at 1 in Hrun.
  destruct (model_predict m (X (self s))) as [p|] eqn:Hp;
    [|by injection Hrun as _ <-].
  rewrite bind_run in Hrun; unfold lift at 1 in Hrun.
  destruct (vsub target p) as [r|] eqn:Hr; [|by injection Hrun as _ <-].
  rewrite bind_run in Hrun; unfold lift at 1 in Hrun.
  destruct (np_min r) as [low|] eqn:Hlow; [|by injection Hrun as _ <-].
  rewrite bind_run in Hrun; unfold store_item at 1 in Hrun; simpl in Hrun.
  destruct (heap s !! min_coeff (self s)) as [offs|] eqn:Hoffs;
    [|by injection Hrun as _ <-].
  destruct (decide (d + 1 < length offs)) as [Hd|Hd];
    [|by injection Hrun as _ <-].
  rewrite bind_run in Hrun.
  unfold min_coeff_at, load, index, mbind, M_bind, get_self in Hrun.
  simpl in Hrun.
  rewrite list_lookup_insert_eq in Hrun by (by eapply lookup_lt_Some).
  rewrite list_lookup_insert_eq in Hrun by done.
  discriminate.
Qed.

(** the loop, however it ends: the passes that completed *)
Lemma fit_loop_any n :
  forall d yfit (s : State) r s' ms target offs,
    fit_loop (seq d n) yfit s = (r, s') ->
    linear_models (self s) = Some ms -> length ms = d ->
    heap s !! yfit = Some target ->
    heap s !! min_coeff (self s) = Some offs ->
    exists k ms' cs target',
      k <= n
      /\ fit_steps (lasso (self s)) (X (self s)) d target ms' cs target'
      /\ length ms' = k
      /\ (k = 0 \/ d + k < length offs)
      /\ heap s' !! min_coeff (self s) = Some (store_from (d + 1) cs offs)
      /\ stores s' = pass_stores (min_coeff (self s)) d k ++ stores s.
Proof.
  induction n as [|n IH];
    intros d yfit s r s' ms target offs Hrun Hms Hlen Htarget Hoffs.
  - simpl in Hrun. injection Hrun as <- <-.
    exists 0, [], [], target. split_and!; eauto using fit_steps_done.
  - simpl in Hrun. rewrite bind_run in Hrun.
    destruct (fit_iter d yfit s) as [[yfit1|e] s1] eqn:Hpass.
    + destruct (fit_iter_Ok _ _ _ _ _ Hpass)
        as (ms0 & target0 & offs0 & m & p & r0 & low & Hms0 & Htarget0 & Hoffs0
            & Hm & Hprobe & Hp & Hr & Hlow & Hd & -> & ->).
      assert (ms0 = ms) as -> by congruence.
      assert (target0 = target) as -> by congruence.
      assert (offs0 = offs) as -> by congruence.
      clear Hms0 Htarget0 Hoffs0.
      set (c := fadd (fabs low) fone) in *.
      set (t1 := vrecip (vadd_scalar r0 c)) in *.
      destruct (IH _ _ _ _ _ (ms ++ [m]) t1 (<[d + 1 := c]> offs) Hrun)
        as (k & ms' & cs & target' & Hk & Hsteps & Hlen' & Hroom & Hoffs'
            & Hstores).
      { reflexivity. }
      { rewrite length_app. simpl. lia. }
      { apply after_pass_target. }
      { exact (after_pass_offsets s _ _ _ _ _ Hoffs). }
      simpl in Hsteps, Hoffs', Hstores.
      exists (S k), (m :: ms'), (c :: cs), target'.
      split; [lia|].
      split; [by eapply fit_steps_next|].
      split; [simpl; lia|].
      split; [right; rewrite length_insert in Hroom; lia|].
      split.
      * simpl. by replace (S (d + 1)) with (S d + 1) by lia.
      * rewrite Hstores, pass_stores_S, <- app_assoc. reflexivity.
    + injection Hrun as <- <-.
      destruct (fit_iter_Raise _ _ _ _ _ Hpass) as [Hheap Hlog].
      exists 0, [], [], target. rewrite Hheap, Hlog.
      split_and!; eauto using fit_steps_done. lia.
Qed.

(** [fit] on a model that may have been fitted before *)
Lemma fit_any_from (s s' : State) r target offs :
  heap s !! y (self s) = Some target ->
  heap s !! min_coeff (self s) = Some offs ->
  fit s = (r, s') ->
  exists k ms cs target',
    k <= Z.to_nat (depth (self s))
    /\ fit_steps (lasso (self s)) (X (self s)) 0 target ms cs target'
    /\ length ms = k
    /\ (k = 0 \/ k < length offs)
    /\ heap s' !! min_coeff (self s) = Some (store_from 1 cs offs)
    /\ stores s' = pass_stores (min_coeff (self s)) 0 k ++ stores s.
Proof.
  intros Htarget Hoffs Hrun. rewrite fit_run in Hrun.
  destruct (fit_loop _ _ _) as [r1 s1] eqn:Hloop.
  assert (s1 = s') as -> by (by destruct r1; injection Hrun as _ <-).
  exact (fit_loop_any _ _ _ _ _ _ [] target offs Hloop eq_refl eq_refl
           Htarget Hoffs).
Qed.

Lemma fit_Ok_from (s s' : State) target offs :
  heap s !! y (self s) = Some target ->
  heap s !! min_coeff (self s) = Some offs ->
  fit s = (Ok tt, s') ->
  exists ms cs target',
    fit_steps (lasso (self s)) (X (self s)) 0 target ms cs target'
    /\ length ms = Z.to_nat (depth (self s))
    /\ (length ms = 0 \/ length ms < length offs)
    /\ linear_models (self s') = Some ms
    /\ heap s' !! min_coeff (self s) = Some (store_from 1 cs offs)
    /\ stores s'
       = pass_stores (min_coeff (self s)) 0 (Z.to_nat (depth (self s)))
         ++ stores s.
Proof.
  intros Htarget Hoffs Hrun. rewrite fit_run in Hrun.
  destruct (fit_loop _ _ _) as [[yfit'|e] s1] eqn:Hloop; [|discriminate].
  injection Hrun as ->.
  destruct (fit_loop_Ok _ _ _ _ _ _ [] target offs Hloop eq_refl eq_refl
              Htarget Hoffs)
    as (ms & cs & target' & Hsteps & Hlen & Hn & Hms & _ & Hoffs' & Hstores).
  exists ms, cs, target'. simpl in *. rewrite Hlen. split_and!; try done.
Qed.

Lemma constructed_kept (s0 : State) :
  constructed s0 -> (0 <= depth (self s0))%Z -> offsets_kept s0 s0.
Proof.
  intros Hc Hd.
  assert (offsets s0 = replicate (Z.to_nat (depth (self s0)) + 2) fzero)
    as Hoffs.
  { unfold offsets. rewrite (constructed_offsets _ Hc). simpl.
    f_equal. lia. }
  split.
  - apply frame_refl.
  - by rewrite Hoffs, length_replicate.
  - rewrite Hoffs, (constructed_offsets _ Hc). do 2 f_equal. lia.
  - rewrite Hoffs. apply lookup_replicate_2. lia.
  - rewrite Hoffs. apply lookup_replicate_2. lia.
  - rewrite Hoffs. apply Forall_replicate. by left.
  - intros l i Hin. rewrite (constructed_stores _ Hc) in Hin.
    by apply elem_of_nil in Hin.
Qed.

Lemma fit_kept (s0 s : State) :
  constructed s0 -> offsets_kept s0 s -> offsets_kept s0 (fit s).2.
Proof.
  intros Hc Hk. set (D := Z.to_nat (depth (self s0))).
  pose proof (kept_frame _ _ Hk) as Hf.
  pose proof (frame_min_coeff _ _ Hf) as Hmc.
  assert (frame s (fit s).2) as Hf' by apply (framed_fit _ s eq_refl).
  destruct (constructed_y _ Hc) as [target Htarget].
  assert (heap s !! y (self s) = Some target) as Htarget'.
  { rewrite (frame_y _ _ Hf), (frame_arrays _ _ Hf); [done | apply Hc |].
    by eapply lookup_lt_Some. }
  pose proof (kept_array _ _ Hk) as Harr. rewrite <- Hmc in Harr.
  destruct (fit s) as [r s'] eqn:Hrun. simpl in *.
  destruct (fit_any_from _ _ _ _ _ Htarget' Harr Hrun)
    as (k & ms & cs & target' & Hle & Hsteps & Hlen & _ & Hoffs' & Hlog).
  rewrite (frame_depth _ _ Hf) in Hle. fold D in Hle.
  pose proof (fit_steps_length _ _ _ _ _ _ _ Hsteps) as Hcs.
  assert (offsets s' = store_from 1 cs (offsets s)) as Hnew.
  { unfold offsets at 1. by rewrite (frame_min_coeff _ _ Hf'), Hoffs'. }
  split.
  - by eapply frame_trans.
  - rewrite Hnew, length_store_from. apply Hk.
  - by rewrite Hnew, <- Hmc.
  - rewrite Hnew, store_from_outside by lia. apply Hk.
  - rewrite Hnew, store_from_outside by (fold D; lia). apply Hk.
  - rewrite Hnew. apply Forall_forall. intros c Hin.
    destruct (elem_of_store_from _ _ _ _ Hin) as [Hin'|Hin'].
    + right. pose proof (fit_steps_offsets _ _ _ _ _ _ _ Hsteps) as Hall.
      rewrite Forall_forall in Hall. auto.
    + pose proof (kept_values _ _ Hk) as Hall.
      rewrite Forall_forall in Hall. auto.
  - intros l i Hin. rewrite Hlog in Hin.
    apply elem_of_app in Hin as [Hin|Hin]; [|by apply Hk].
    apply elem_of_pass_stores in Hin as [-> Hi]. fold D. split; [done | lia].
Qed.

Lemma lifetime_kept (s0 s : State) :
  constructed s0 -> (0 <= depth (self s0))%Z ->
  lifetime s0 s -> offsets_kept s0 s.
Proof.
  intros Hc Hd. induction 1 as [|s Hs IH|s X_pred max_depth Hs IH|s test Hs IH].
  - by apply constructed_kept.
  - by apply fit_kept.
  - by rewrite readonly_predict.
  - by rewrite readonly_mse.
Qed.

(** ** C8: the array of offsets *)

Section Signs.
(** The two facts about the order of numbers that the sign of an offset
    rests on: [0 < 0] is false, and so is [abs(m) + 1 < 0] for every [m].
    Both hold in binary64, where [m] may be infinite or NaN (lemmas
    [float_zero_not_negative] and [float_offset_not_negative]), and for
    the rationals. *)
Hypothesis zero_not_negative : fltb fzero fzero = false.
Hypothesis offset_not_negative :
  forall m : num, fltb (fadd (fabs m) fone) fzero = false.

(** C8, as the code has it.  On a model constructed with a depth that is
    not negative, in every state [s] that the model goes through by calls
    of [fit], [predict] and [mse], whether they complete or raise:
    [min_coeff] is the same array of [depth + 2] elements; its elements
    at [0] and at [depth + 1] are 0; every element is 0 or some
    [abs(m) + 1], and is not negative ([c < 0] is false: [c] may be NaN);
    the only item assignments made so far are to the indices
    [1 .. depth] of this array; [predict] and [mse] change nothing.  Every
    [fit] that completes from [s] assigns the indices [1, ..., depth],
    each once and in this order, on top of the assignments made before
    it, and leaves at [d + 1] the offset [abs(min(residual_d)) + 1] of its
    own pass [d], where [residual_d = yfit d - sub_model[d].predict(X)]. *)
Theorem offsets_invariant depth0 data norm0 test_size lasso0 (s0 s : State) :
  init depth0 data norm0 test_size lasso0 = Ok s0 ->
  (0 <= depth0)%Z ->
  lifetime s0 s ->
  let D := Z.to_nat depth0 in
  min_coeff (self s) = min_coeff (self s0)
  /\ length (offsets s) = D + 2
  /\ offsets s !! 0 = Some fzero
  /\ offsets s !! (D + 1) = Some fzero
  /\ (forall c, c ∈ offsets s ->
        fltb c fzero = false
        /\ (c = fzero \/ exists m, c = fadd (fabs m) fone))
  /\ (forall l i, (l, i) ∈ stores s -> l = min_coeff (self s) /\ 1 <= i <= D)
  /\ (forall X_pred max_depth, (predict X_pred max_depth s).2 = s)
  /\ (forall test, (mse test s).2 = s)
  /\ (forall s', fit s = (Ok tt, s') ->
        stores s' = pass_stores (min_coeff (self s)) 0 D ++ stores s
        /\ forall yfit, working_targets s s' yfit ->
             forall d m p residual,
               sub_model s' d = Some m ->
               model_predict m (X (self s)) = Ok p ->
               vsub (yfit d) p = Ok residual ->
               exists low,
                 np_min residual = Ok low
                 /\ offsets s' !! S d = Some (fadd (fabs low) fone)).
Proof using zero_not_negative offset_not_negative.
  intros Hinit Hdepth Hlife D.
  destruct (init_Ok _ _ _ _ _ _ Hinit) as (Hc & Hd & _).
  assert (0 <= depth (self s0))%Z as Hdepth' by lia.
  pose proof (lifetime_kept _ _ Hc Hdepth' Hlife) as Hk.
  pose proof (kept_frame _ _ Hk) as Hf.
  pose proof (frame_min_coeff _ _ Hf) as Hmc.
  assert (Z.to_nat (depth (self s0)) = D) as HD by (unfold D; by rewrite Hd).
  split; [done|].
  split; [rewrite <- HD; apply Hk|].
  split; [apply Hk|].
  split; [rewrite <- HD; apply Hk|].
  split.
  { intros c Hin. pose proof (kept_values _ _ Hk) as Hall.
    rewrite Forall_forall in Hall.
    destruct (Hall c Hin) as [->|[m ->]]; split; eauto. }
  split.
  { intros l i Hin. rewrite Hmc, <- HD. by apply Hk. }
  split; [intros; apply readonly_predict|].
  split; [intros; apply readonly_mse|].
  intros s' Hfit.
  destruct (constructed_y _ Hc) as [target Htarget].
  assert (heap s !! y (self s) = Some target) as Htarget'.
  { rewrite (frame_y _ _ Hf), (frame_arrays _ _ Hf); [done | apply Hc |].
    by eapply lookup_lt_Some. }
  pose proof (kept_array _ _ Hk) as Harr. rewrite <- Hmc in Harr.
  destruct (fit_Ok_from _ _ _ _ Htarget' Harr Hfit)
    as (ms & cs & target' & Hsteps & Hlen & _ & Hms & Hoffs' & Hlog).
  rewrite (frame_depth _ _ Hf), HD in Hlen, Hlog.
  split; [done|].
  intros yfit [Hstart Hnext] d m p residual Hm Hp Hr.
  pose proof (fit_steps_length _ _ _ _ _ _ _ Hsteps) as Hcs.
  pose proof (kept_length _ _ Hk) as Hroom. rewrite HD in Hroom.
  assert (frame s s') as Hf'.
  { pose proof (framed_fit _ s eq_refl) as H. by rewrite Hfit in H. }
  assert (forall k, k < length cs -> offsets s' !! S k = cs !! k) as Hat.
  { intros k Hk'. unfold offsets at 1.
    rewrite (frame_min_coeff _ _ Hf'), Hoffs'. simpl.
    apply (store_from_inside cs 1 (offsets s) k); lia. }
  assert (ms !! d = Some m) as Hd'.
  { unfold sub_model in Hm. by rewrite Hms in Hm. }
  destruct (fit_steps_sequence _ _ _ _ _ _ _ Hsteps yfit) with (k := d) (m := m)
    as (p' & r' & low & H1 & H2 & H3 & H4 & H5); [| |done|].
  - rewrite Hstart. unfold y_values. by rewrite Htarget'.
  - intros k mk pk rk Hmk Hpk Hrk. simpl in *.
    rewrite <- (Hat k) by (rewrite Hcs; by eapply lookup_lt_Some).
    apply (Hnext k mk pk rk); [|done|done].
    unfold sub_model. by rewrite Hms.
  - simpl in *. assert (p' = p) as -> by congruence.
    assert (r' = residual) as -> by congruence.
    exists low. split; [done|].
    rewrite Hat by (rewrite Hcs; by eapply lookup_lt_Some). done.
Qed.
End Signs.

End Facts.

(** * The shifted residuals over the rationals *)

Section ExactFacts.
Import Exact.
Local Open Scope Q_scope.
Context {Model : Type} {sk : Sklearn Q Model}.
Local Abbreviation State := (State Q Model).

(** ** Minimum, sum and shift of an array of rationals *)

Lemma foldl_fmin_le (xs : list Q) : forall a,
  foldl fmin a xs <= a /\ forall x, x ∈ xs -> foldl fmin a xs <= x.
Proof.
  induction xs as [|x xs IH]; intros a; simpl.
  - split; [lra|]. intros x Hx. by apply elem_of_nil in Hx.
  - destruct (IH (Qred (Qmin a x))) as [Hacc Hall].
    pose proof (Qred_correct (Qmin a x)).
    pose proof (Q.le_min_l a x). pose proof (Q.le_min_r a x).
    change (fmin a x) with (Qred (Qmin a x)).
    split; [lra|]. intros z Hz.
    apply elem_of_cons in Hz as [->|Hz]; [lra | auto].
Qed.

Lemma np_min_le (r : list Q) low :
  np_min r = Ok low -> forall x, x ∈ r -> low <= x.
Proof.
  destruct r as [|x xs]; [done|]. intros [= <-] z Hz.
  destruct (foldl_fmin_le xs x) as [Hacc Hall].
  apply elem_of_cons in Hz as [->|Hz]; auto.
Qed.

Lemma foldl_fmin_shift c (xs : list Q) : forall a a',
  a' == a + c ->
  foldl fmin a' (vadd_scalar xs c) == foldl fmin a xs + c.
Proof.
  induction xs as [|x xs IH]; intros a a' Ha; simpl; [done|].
  apply IH.
  change (fmin a' (fadd x c)) with (Qred (Qmin a' (Qred (x + c)))).
  change (fmin a x) with (Qred (Qmin a x)).
  pose proof (Qred_correct (Qmin a' (Qred (x + c)))) as H1.
  pose proof (Qred_correct (Qmin a x)) as H2.
  pose proof (Qred_correct (x + c)) as H3.
  pose proof (Q.plus_min_distr_r a x c) as H4.
  pose proof (Q.min_compat _ _ Ha _ _ H3) as H5.
  lra.
Qed.

Lemma np_min_shift (r : list Q) low c :
  np_min r = Ok low ->
  exists least, np_min (vadd_scalar r c) = Ok least /\ least == low + c.
Proof.
  destruct r as [|x xs]; [done|]. intros [= <-]. simpl. eexists.
  split; [reflexivity|]. apply foldl_fmin_shift, Qred_correct.
Qed.

Lemma foldl_fadd_pos (xs : list Q) : forall acc,
  (forall x, x ∈ xs -> 0 < x) -> 0 <= acc ->
  acc <= foldl fadd acc xs /\ (xs <> [] -> 0 < foldl fadd acc xs).
Proof.
  induction xs as [|x xs IH]; intros acc Hpos Hacc; simpl.
  { split; [lra | done]. }
  assert (0 < x) as Hx by (apply Hpos; by left).
  pose proof (Qred_correct (acc + x)) as Hred.
  change (fadd acc x) with (Qred (acc + x)).
  destruct (IH (Qred (acc + x))) as [Hle _].
  { intros z Hz. apply Hpos. by right. }
  { lra. }
  split; [lra|]. intros _. lra.
Qed.

(** an array that sums to zero has an element that is not positive *)
Lemma np_min_of_centred (r : list Q) low :
  np_min r = Ok low -> np_sum r == 0 -> low <= 0.
Proof.
  intros Hlow Hsum. destruct (Qlt_le_dec 0 low) as [Hpos|]; [|done].
  exfalso. destruct (foldl_fadd_pos r 0) as [_ Hsum']; [|lra|].
  - intros x Hx. pose proof (np_min_le r low Hlow x Hx). lra.
  - unfold np_sum in Hsum. change (@fzero Q Q_arith) with 0 in Hsum.
    assert (r <> []) as Hne by (by destruct r).
    specialize (Hsum' Hne). lra.
Qed.

Lemma reduced_Qred q : reduced (Qred q).
Proof. apply Qred_complete, Qred_correct. Qed.

Lemma reduced_foldl_fmin (xs : list Q) : forall a,
  reduced a -> reduced (foldl fmin a xs).
Proof.
  induction xs as [|x xs IH]; intros a Ha; simpl; [done|].
  apply IH, reduced_Qred.
Qed.

Lemma reduced_np_min_shift (r : list Q) c least :
  np_min (vadd_scalar r c) = Ok least -> reduced least.
Proof.
  destruct r as [|x xs]; [done|]. intros [= <-].
  apply reduced_foldl_fmin, reduced_Qred.
Qed.

(** ** What the comment in [fit] intends *)

Section Poles.
(** Least squares and Lasso both fit an intercept, so that the residuals
    of a fit on its own training rows sum to zero. *)
Hypothesis fits_intercept :
  forall flag Xm t m p r,
    regress flag Xm t = Ok m -> model_predict m Xm = Ok p ->
    vsub t p = Ok r -> np_sum r == 0.

(** The comment in [fit] says of the offset that it makes the residual
    strictly positive.  Over the rationals, and for regressors that fit
    an intercept, it does: in a completed [fit], for every depth [d] with
    its sub-model [m] and [residual = yfit d - m.predict(X)] on the
    training rows, [offset[d + 1] = abs(min(residual)) + 1], every element
    of [residual + offset[d + 1]] is strictly positive, and the least of
    them is 1.  The program computes in binary64, where neither holds, as
    the targets [0; 2^60] show below. *)
Lemma offsets_avoid_poles depth0 data norm0 test_size lasso0
    (s0 s : State) (yfit : nat -> list Q) d m p residual :
  init depth0 data norm0 test_size lasso0 = Ok s0 ->
  fit s0 = (Ok tt, s) ->
  working_targets s0 s yfit ->
  sub_model s d = Some m ->
  model_predict m (X (self s0)) = Ok p ->
  vsub (yfit d) p = Ok residual ->
  exists low,
    np_min residual = Ok low
    /\ offset s (S d) = fadd (fabs low) fone
    /\ (forall x, x ∈ vadd_scalar residual (offset s (S d)) -> 0 < x)
    /\ np_min (vadd_scalar residual (offset s (S d))) = Ok 1.
Proof using fits_intercept.
  intros Hinit Hfit Hyfit Hm Hp Hr.
  destruct (init_Ok _ _ _ _ _ _ Hinit) as (Hc & _).
  destruct (fit_Ok _ _ Hc Hfit) as (ms & cs & Hres).
  assert (ms !! d = Some m) as Hd.
  { unfold sub_model in Hm. by rewrite (result_models _ _ _ _ Hres) in Hm. }
  destruct (fit_result_passes _ _ _ _ _ Hres Hyfit d m Hd)
    as (p' & r' & low & Hfitm & Hp' & Hr' & Hlow & Hoff).
  assert (p' = p) as -> by congruence.
  assert (r' = residual) as -> by congruence.
  exists low. split; [done|]. split; [done|].
  pose proof (fits_intercept _ _ _ _ _ _ Hfitm Hp Hr) as Hsum.
  pose proof (np_min_of_centred _ _ Hlow Hsum) as Hneg.
  set (c := offset s (S d)) in *.
  assert (c == - low + 1) as Hc'.
  { rewrite Hoff. change (fadd (fabs low) fone) with (Qred (Qred (Qabs low) + 1)).
    pose proof (Qred_correct (Qred (Qabs low) + 1)).
    pose proof (Qred_correct (Qabs low)).
    pose proof (Qabs_neg low Hneg). lra. }
  split.
  - intros x Hx. unfold vadd_scalar in Hx.
    apply list_elem_of_In, in_map_iff in Hx as (ri & <- & Hri).
    apply list_elem_of_In in Hri.
    pose proof (np_min_le _ _ Hlow ri Hri).
    change (fadd ri c) with (Qred (ri + c)).
    pose proof (Qred_correct (ri + c)). lra.
  - destruct (np_min_shift residual low c Hlow) as (least & Hleast & Heq).
    rewrite Hleast. f_equal.
    rewrite <- (reduced_np_min_shift _ _ _ Hleast).
    apply (Qred_complete least 1). lra.
Qed.
End Poles.

End ExactFacts.

(** * The one-feature regressors meet the assumptions made on regressors *)

Section OneFeatureFacts.
Context {num : Type} {ar : Arith num}.

Lemma column_length (X : list (list num)) xs :
  column X = Ok xs -> length xs = length X.
Proof.
  revert xs. induction X as [|row X IH]; intros xs; simpl.
  - by intros [= <-].
  - destruct row as [|x [|? ?]]; try done.
    destruct (column X) as [xs'|] eqn:E; [|done]. simpl.
    intros [= <-]. simpl. f_equal. by apply IH.
Qed.

Lemma column_rows (X : list (list num)) xs :
  column X = Ok xs -> X = map (fun x => [x]) xs.
Proof.
  revert xs. induction X as [|row X IH]; intros xs; simpl.
  - by intros [= <-].
  - destruct row as [|x [|? ?]]; try done.
    destruct (column X) as [xs'|] eqn:E; [|done]. simpl.
    intros [= <-]. simpl. f_equal. by apply IH.
Qed.

Lemma column_of_rows (xs : list num) : column (map (fun x => [x]) xs) = Ok xs.
Proof. induction xs as [|x xs IH]; simpl; [done|]. by rewrite IH. Qed.

(** [predict] returns one value per row *)
Lemma line_predict_shape (m : Line num) X v :
  model_predict m X = Ok v -> length v = length X.
Proof.
  simpl. unfold line_predict. destruct (column X) as [xs|] eqn:E; [|done]. simpl.
  intros [= <-]. rewrite length_map. by apply column_length.
Qed.

Lemma checked_Ok (X : list (list num)) ts xs :
  checked X ts = Ok xs ->
  X = map (fun x => [x]) xs /\ length xs = length ts /\ ts <> [].
Proof.
  unfold checked. destruct (column X) as [xs'|] eqn:E; [|done]. simpl.
  destruct (decide _) as [[Hlen Hne]|]; [|done].
  destruct (_ && _); [|done].
  intros [= <-]. split; [by apply column_rows | done].
Qed.
End OneFeatureFacts.

Section ExactRegressors.
Import Exact.
Local Open Scope Q_scope.

Ltac q_ops := cbv [fzero fone fadd fsub fmul fdiv fabs fmin fof_nat Q_arith].

Lemma foldl_fadd_qsum (l : list Q) : forall acc,
  foldl fadd acc l == acc + qsum l.
Proof.
  induction l as [|x l IH]; intros acc; simpl; [lra|].
  rewrite IH. q_ops. rewrite Qred_correct. lra.
Qed.

Lemma np_sum_qsum (l : list Q) : np_sum l == qsum l.
Proof. unfold np_sum. rewrite foldl_fadd_qsum. q_ops. lra. Qed.

Lemma mean_qsum (l : list Q) :
  mean l == qsum l / inject_Z (Z.of_nat (length l)).
Proof.
  unfold mean. q_ops. by rewrite Qred_correct, np_sum_qsum.
Qed.

Lemma qsum_residuals a b (ts : list Q) : forall xs,
  length xs = length ts ->
  qsum (zip_with fsub ts (map (fun x => fadd (fmul a x) b) xs))
  == qsum ts - a * qsum xs - inject_Z (Z.of_nat (length ts)) * b.
Proof.
  induction ts as [|t ts IH]; intros [|x xs] Hlen; simpl in Hlen; try done.
  - simpl. change (inject_Z (Z.of_nat 0)) with 0. lra.
  - injection Hlen as Hlen. specialize (IH xs Hlen).
    change (qsum (zip_with fsub (t :: ts) (map (fun x => fadd (fmul a x) b) (x :: xs))))
      with (fsub t (fadd (fmul a x) b)
            + qsum (zip_with fsub ts (map (fun x => fadd (fmul a x) b) xs))).
    rewrite IH. q_ops. rewrite !Qred_correct.
    change (length (t :: ts)) with (S (length ts)).
    rewrite Nat2Z.inj_succ. unfold Z.succ. rewrite inject_Z_plus.
    change (inject_Z 1) with 1. simpl qsum. lra.
Qed.

(** a line through the point of means leaves residuals that sum to zero *)
Lemma with_intercept_centred a (xs ts : list Q) p r :
  length xs = length ts -> ts <> [] ->
  line_predict (with_intercept a xs ts) (map (fun x => [x]) xs) = Ok p ->
  vsub ts p = Ok r ->
  np_sum r == 0.
Proof.
  intros Hlen Hne.
  unfold line_predict. rewrite column_of_rows.
  simpl. intros [= <-]. unfold vsub.
  rewrite broadcast2_same by (rewrite length_map; lia).
  intros [= <-]. rewrite np_sum_qsum, qsum_residuals by done.
  q_ops. rewrite !Qred_correct, !mean_qsum, Hlen.
  assert (~ inject_Z (Z.of_nat (length ts)) == 0) as Hn.
  { destruct ts; [done|]. simpl length. rewrite Nat2Z.inj_succ.
    unfold Qeq. simpl. lia. }
  field. exact Hn.
Qed.

(** both regressors fit an intercept *)
Lemma exact_fits_intercept (flag : bool) X ts (m : Line Q) p r :
  regress flag X ts = Ok m ->
  model_predict m X = Ok p ->
  vsub ts p = Ok r ->
  np_sum r == 0.
Proof.
  unfold regress. simpl. unfold ols_fit, lasso_fit. intros Hm Hp Hr.
  destruct flag; destruct (checked X ts) as [xs|] eqn:E; try done;
    simpl in Hm; injection Hm as <-;
    destruct (checked_Ok _ _ _ E) as (-> & Hlen & Hne);
    by eapply with_intercept_centred.
Qed.
End ExactRegressors.

(** * The order of the offsets in binary64 and in the rationals *)

Lemma SFltb_round_not_negative m e :
  SpecFloat.SFltb
    (SpecFloat.binary_round FloatOps.prec FloatOps.emax false m e)
    (SpecFloat.S754_zero false) = false.
Proof.
  unfold SpecFloat.binary_round.
  destruct (SpecFloat.shl_align m e _) as [mz ez].
  unfold SpecFloat.binary_round_aux.
  destruct (SpecFloat.shr_fexp _ _ (Z.pos mz) ez _) as [mrs' e'].
  destruct (SpecFloat.shr_fexp _ _ _ e' _) as [mrs'' e''].
  destruct (SpecFloat.shr_m mrs'') as [|p|p]; try reflexivity.
  destruct (Z.leb e'' _); reflexivity.
Qed.

Lemma float_zero_not_negative : fltb (fzero : float) fzero = false.
Proof. reflexivity. Qed.

(** [abs(m) + 1] is at least 1, infinite, or NaN when [m] is: in no case
    is it below 0 *)
Lemma float_offset_not_negative (m : float) :
  fltb (fadd (fabs m) fone) fzero = false.
Proof.
  change (PrimFloat.ltb (PrimFloat.add (PrimFloat.abs m) 1%float) 0%float
          = false).
  rewrite FloatAxioms.ltb_spec, FloatAxioms.add_spec, FloatAxioms.abs_spec.
  change (FloatOps.Prim2SF 1%float)
    with (SpecFloat.S754_finite false 4503599627370496 (-52)).
  change (FloatOps.Prim2SF 0%float) with (SpecFloat.S754_zero false).
  destruct (FloatOps.Prim2SF m) as [sign|sign| |sign mx ex]; try reflexivity.
  unfold SpecFloat.SFabs, FloatAxioms.SF64add, SpecFloat.SFadd.
  cbv zeta. unfold SpecFloat.cond_Zopp.
  rewrite <- Pos2Z.inj_add. unfold SpecFloat.binary_normalize.
  apply SFltb_round_not_negative.
Qed.

Lemma exact_zero_not_negative : fltb (fzero : Q) fzero = false.
Proof. reflexivity. Qed.

Lemma exact_offset_not_negative (m : Q) :
  fltb (fadd (fabs m) fone) fzero = false.
Proof.
  change (negb (Qle_bool 0 (Qred (Qred (Qabs m) + 1))) = false).
  apply negb_false_iff, Qle_bool_iff.
  pose proof (Qred_correct (Qred (Qabs m) + 1)).
  pose proof (Qred_correct (Qabs m)).
  pose proof (Qabs_nonneg m). lra.
Qed.

(** * Worked examples *)

Section Examples.
Import Exact.
Local Open Scope Q_scope.

Example toy_start_constructed :
  new 3 (toy_X, toy_y) 1 0 false = Ok toy_start.
Proof. reflexivity. Qed.

Example toy_model_fitted : toy_fit toy_start = (Ok tt, toy_model).
Proof. vm_compute. reflexivity. Qed.

Example toy_model_offsets : offsets toy_model = [0; 3 # 2; 7 # 5; 9 # 8; 0].
Proof. reflexivity. Qed.

Example held_out_constructed :
  new 2 ([[1]; [2]; [3]; [4]], [1; 3; 2; 5]) 1 (1 # 4) false = Ok held_out_start.
Proof. reflexivity. Qed.

Example held_out_fitted : toy_fit held_out_start = (Ok tt, held_out_model).
Proof. vm_compute. reflexivity. Qed.

Lemma toy_model_is_fitted :
  fitted toy_model.
Proof.
  exists 3%Z, (toy_X, toy_y), 1, 0, false, toy_start.
  split; [reflexivity | vm_compute; reflexivity].
Qed.

(** ** C1 on the toy model *)

Lemma toy_levels_predicted d :
  (d < 3)%nat ->
  sub_model_predict toy_model d [[4]] = Ok (toy_levels d).
Proof. destruct d as [|[|[|d]]]; [reflexivity .. | lia]. Qed.

(** with three levels, [predict] on the row [[4]] is
    [3 + (1 / (4/5 + (1 / (3/4) - 7/5)) - 3/2)] *)
Lemma predict_continued_fraction_witness :
  toy_predict [[4]] (Some 3%Z) toy_model = (Ok [63 # 22], toy_model).
Proof.
  refine (proj2 (predict_continued_fraction (line_predict_shape (num := Q)) toy_model [[4]] 3
                   toy_levels toy_remainders toy_model_is_fitted _ _
                   toy_levels_predicted) _ _ _).
  - lia.
  - simpl. lia.
  - lia.
  - reflexivity.
  - intros d Hd. assert (d = 1%nat) as -> by lia. reflexivity.
Defined.

(** ** C2 on the toy model, and the shift of its residuals *)

Lemma toy_working_targets :
  working_targets toy_start toy_model toy_targets.
Proof.
  split; [reflexivity|].
  intros d m p r Hm Hp Hr.
  destruct d as [|[|[|d]]]; [| | |discriminate];
    vm_compute in Hm; injection Hm as <-;
    vm_compute in Hp; injection Hp as <-;
    vm_compute in Hr; injection Hr as <-; reflexivity.
Qed.

(** three passes, sub-model [d] being least squares on [toy_targets d] *)
Lemma fit_iterations_witness :
  fitted_depth toy_model = 3%nat
  /\ stores toy_model = pass_stores 1%nat 0%nat 3%nat
  /\ X (self toy_model) = toy_X
  /\ forall d, (d < 3)%nat ->
       exists m,
         sub_model toy_model d = Some m
         /\ ols_fit toy_X (toy_targets d) = Ok m
         /\ is_Ok (sub_model_predict toy_model d toy_X).
Proof.
  exact (fit_iterations
           3 (toy_X, toy_y) 1 0 false toy_start toy_model toy_targets
           toy_start_constructed ltac:(lia) toy_model_fitted
           toy_working_targets).
Defined.

(** at depth 1 the residuals are [1/5; -2/5; 1/5]: the offset is
    [2/5 + 1] and the shifted residuals [8/5; 1; 8/5] have minimum 1 *)
Lemma offsets_avoid_poles_witness :
  exists low,
    np_min [1 # 5; -2 # 5; 1 # 5] = Ok low
    /\ offset toy_model 2%nat = fadd (fabs low) fone
    /\ (forall x,
          x ∈ vadd_scalar [1 # 5; -2 # 5; 1 # 5] (offset toy_model 2%nat) ->
          0 < x)
    /\ np_min (vadd_scalar [1 # 5; -2 # 5; 1 # 5] (offset toy_model 2%nat))
        = Ok 1.
Proof.
  exact (offsets_avoid_poles
           exact_fits_intercept
           3 (toy_X, toy_y) 1 0 false toy_start toy_model toy_targets
           1%nat {| slope := 0; intercept := 4 # 5 |} [4 # 5; 4 # 5; 4 # 5]
           [1 # 5; -2 # 5; 1 # 5]
           toy_start_constructed toy_model_fitted toy_working_targets
           eq_refl eq_refl eq_refl).
Defined.

(** ** C3 in float64

    Two rows with the same feature value, so that the fit is the mean of
    the two targets and the residuals are exact. *)

(** C3 fails on the targets [0; 2^60]: the residuals are [-2^59; 2^59],
    the offset [abs(-2^59) + 1] is [2^59], and the shifted residuals are
    [0; 2^60]: one is not positive, and the minimum is 0, not 1.  The
    working target that the pass leaves, [1 / 0; 1 / 2^60], holds an
    infinity. *)
Lemma shifted_residual_reaches_zero :
  Float64.new 1 (Float64.flat_X, Float64.wide_y) 1%float 0%float false
  = Ok (Float64.wide_start 1)
  /\ fit (Float64.wide_start 1) = (Ok tt, Float64.wide_model)
  /\ sub_model_predict Float64.wide_model 0 Float64.flat_X
     = Ok [0x1p59; 0x1p59]%float
  /\ vsub Float64.wide_y [0x1p59; 0x1p59]%float = Ok [-0x1p59; 0x1p59]%float
  /\ offset Float64.wide_model 1 = 0x1p59%float
  /\ vadd_scalar [-0x1p59; 0x1p59]%float (offset Float64.wide_model 1)
     = [0; 0x1p60]%float
  /\ np_min [0; 0x1p60]%float = Ok 0%float
  /\ fltb 0%float 0%float = false
  /\ heap Float64.wide_model !! 2%nat = Some [infinity; 0x1p-60]%float.
Proof. repeat split; vm_compute; reflexivity. Qed.

(** targets [0; 0.8]: the residuals are [-0.4; 0.4], the offset is 1.4 as
    rounded, and the least shifted residual is 0.9999999999999999 *)
Example shifted_minimum_is_rounded :
  Float64.new 1 (Float64.flat_X, Float64.near_y) 1%float 0%float false
  = Ok Float64.near_start
  /\ fit Float64.near_start = (Ok tt, Float64.near_model)
  /\ offset Float64.near_model 1 = 0x1.6666666666666p+0%float
  /\ np_min (vadd_scalar [-0x1.999999999999ap-2; 0x1.999999999999ap-2]%float
               (offset Float64.near_model 1))
     = Ok 0x1.fffffffffffffp-1%float.
Proof. repeat split; vm_compute; reflexivity. Qed.

(** ** C4: [max_depth] is not validated *)

(** zero and a negative [max_depth] are served like [max_depth = 1], and
    a [max_depth] above the fitted depth ends in an [IndexError] *)
Lemma max_depth_out_of_range_unchecked :
  toy_predict [[4]] (Some 0%Z) toy_model = (Ok [3], toy_model)
  /\ toy_predict [[4]] (Some (-5)%Z) toy_model = (Ok [3], toy_model)
  /\ toy_predict [[4]] (Some 4%Z) toy_model = (Raise IndexError, toy_model).
Proof. repeat split. Qed.

Lemma toy_levels_Ok d :
  (d < fitted_depth toy_model)%nat ->
  is_Ok (sub_model_predict toy_model d [[4]]).
Proof.
  intros Hd. exists (toy_levels d). apply toy_levels_predicted. exact Hd.
Qed.

Lemma max_depth_unchecked_witness :
  toy_predict [[4]] (Some 7%Z) toy_model = (Raise IndexError, toy_model).
Proof.
  refine (proj2 (proj2 (max_depth_unchecked toy_model [[4]] 7
                          toy_model_is_fitted _) _) toy_levels_Ok).
  - simpl. lia.
  - simpl. lia.
Defined.

(** ** C5: a depth that is not positive is not rejected *)


(** a split that would leave no row to train on fails the constructor *)
Example split_failure_fails_the_constructor :
  new 0 ([[1]], [1]) 1 (1 # 5) false = Raise ValueError.
Proof. reflexivity. Qed.


(** ** C6: a solve that fails in the second pass

    In float64, on the targets [0; 2^60]: the first pass leaves the
    residuals [-2^59; 2^59] and the offset [2^59 + 1], which is [2^59];
    the target of the second pass is [1 / 0; 1 / 2^60], and the regressor
    refuses a target that is not finite. *)

Lemma failed_fit_leaves_sub_models :
  Float64.new 2 (Float64.flat_X, Float64.wide_y) 1%float 0%float false
  = Ok (Float64.wide_start 2)
  /\ fit (Float64.wide_start 2) = (Raise ValueError, Float64.wide_partial)
  /\ linear_models (self Float64.wide_partial)
     = Some [ {| slope := 0%float; intercept := 0x1p59%float |} ]
  /\ offsets Float64.wide_partial = [0; 0x1p59; 0; 0]%float
  /\ predict Float64.flat_X (Some 1%Z) Float64.wide_partial
     = (Ok [0x1p59; 0x1p59]%float, Float64.wide_partial).
Proof. repeat split; vm_compute; reflexivity. Qed.

Lemma fit_leaves_partial_model_witness :
  fit (Float64.wide_start 2) = (Raise ValueError, Float64.wide_partial)
  /\ fitted_depth Float64.wide_partial = 1%nat
  /\ stores Float64.wide_partial = pass_stores 1%nat 0%nat 1%nat
  /\ forall max_depth, (1 <= max_depth <= 1)%nat ->
       is_Ok (predict (X (self Float64.wide_partial))
                (Some (Z.of_nat max_depth)) Float64.wide_partial).1.
Proof.
  refine (fit_leaves_partial_model (line_predict_shape (num := float))
            2 (Float64.flat_X, Float64.wide_y) 1%float 0%float false
            (Float64.wide_start 2) Float64.wide_partial
            1%nat 2%nat [infinity; 0x1p-60]%float ValueError _ _ _ _ _).
  - reflexivity.
  - simpl. lia.
  - vm_compute. reflexivity.
  - reflexivity.
  - reflexivity.
Defined.

(** ** C7 to C10 on the toy models *)

Lemma fit_preserves_y_witness :
  y (self toy_model) = y (self toy_start)
  /\ y_values toy_model = y_values toy_start
  /\ forall l i, (l, i) ∈ stores toy_model -> l <> y (self toy_model).
Proof.
  exact (fit_preserves_y
           3 (toy_X, toy_y) 1 0 false toy_start toy_model (Ok tt)
           toy_start_constructed toy_model_fitted).
Defined.

(** ** C8 in float64 *)

Example near_model_lifetime : lifetime Float64.near_start Float64.near_model.
Proof.
  replace Float64.near_model with (fit Float64.near_start).2
    by (vm_compute; reflexivity).
  apply lifetime_fit, lifetime_new.
Qed.

Example near_again_fitted :
  fit Float64.near_model = (Ok tt, Float64.near_again).
Proof. vm_compute. reflexivity. Qed.

Example near_working_targets :
  working_targets Float64.near_model Float64.near_again Float64.near_targets.
Proof.
  split; [reflexivity|].
  intros d m p r Hm Hp Hr.
  destruct d as [|d]; [|discriminate].
  vm_compute in Hm; injection Hm as <-.
  vm_compute in Hp; injection Hp as <-.
  vm_compute in Hr; injection Hr as <-. reflexivity.
Qed.

(** the model of depth 1 on the targets [0; 0.8], fitted once and then
    fitted again: three offsets throughout, zeros at both ends, and the
    second [fit] assigns index 1 once more and leaves [abs(-0.4) + 1]
    there *)
Lemma offsets_invariant_witness :
  min_coeff (self Float64.near_model) = 1%nat
  /\ length (offsets Float64.near_model) = 3%nat
  /\ offsets Float64.near_model !! 0%nat = Some 0%float
  /\ offsets Float64.near_model !! 2%nat = Some 0%float
  /\ (forall c, c ∈ offsets Float64.near_model ->
        PrimFloat.ltb c 0 = false
        /\ (c = 0%float \/ exists m, c = (PrimFloat.abs m + 1)%float))
  /\ (forall l i, (l, i) ∈ stores Float64.near_model ->
        l = 1%nat /\ (1 <= i <= 1)%nat)
  /\ stores Float64.near_again
     = pass_stores 1%nat 0%nat 1%nat ++ stores Float64.near_model
  /\ exists low,
       np_min [-0x1.999999999999ap-2; 0x1.999999999999ap-2]%float = Ok low
       /\ offsets Float64.near_again !! 1%nat
          = Some (PrimFloat.abs low + 1)%float.
Proof.
  destruct (offsets_invariant
              float_zero_not_negative float_offset_not_negative
              1 (Float64.flat_X, Float64.near_y) 1%float 0%float false
              Float64.near_start Float64.near_model
              eq_refl ltac:(lia) near_model_lifetime)
    as (H1 & H2 & H3 & H4 & H5 & H6 & _ & _ & H9).
  destruct (H9 _ near_again_fitted) as [Hlog Hpass].
  exact (conj H1 (conj H2 (conj H3 (conj H4 (conj H5 (conj H6 (conj Hlog
           (Hpass Float64.near_targets near_working_targets 0%nat
              {| slope := 0%float; intercept := 0x1.999999999999ap-2%float |}
              [0x1.999999999999ap-2; 0x1.999999999999ap-2]%float
              [-0x1.999999999999ap-2; 0x1.999999999999ap-2]%float
              eq_refl eq_refl eq_refl)))))))).
Defined.

(** a second [fit] assigns index 1 a second time; and on the targets
    [max; -max] the slope overflows, the prediction is [inf - inf], and
    the offset that the completed [fit] leaves is NaN, which is not
    [>= 0] *)
Lemma offsets_assigned_again :
  Float64.new 1 (Float64.flat_X, Float64.near_y) 1%float 0%float false
  = Ok Float64.near_start
  /\ fit Float64.near_start = (Ok tt, Float64.near_model)
  /\ fit Float64.near_model = (Ok tt, Float64.near_again)
  /\ count_stores 1 1 (stores Float64.near_model) = 1%nat
  /\ count_stores 1 1 (stores Float64.near_again) = 2%nat
  /\ Float64.new 1 (Float64.extreme_X, Float64.extreme_y) 1%float 0%float false
     = Ok Float64.extreme_start
  /\ fit Float64.extreme_start = (Ok tt, Float64.extreme_model)
  /\ offsets Float64.extreme_model = [0; nan; 0]%float
  /\ PrimFloat.leb 0 (offset Float64.extreme_model 1) = false.
Proof. repeat split; vm_compute; reflexivity. Qed.

(** on the held-out row, [predict] gives [11/4] where the target is [5] *)
Lemma mse_formula_witness :
  toy_mse true held_out_model = (Ok (81 # 16), held_out_model).
Proof.
  exact (mse_formula (line_predict_shape (num := Q)) held_out_model true
           [[4]] [5] [11 # 4] eq_refl eq_refl eq_refl).
Defined.


(** a prediction that overflows: the held-out row has the feature
    [2^1023] and the fitted slope is 4, so that [predict] gives [inf] and
    so does [mse] *)
Example mse_propagates_infinity :
  Float64.new 1 ([[1]; [2]; [3]; [0x1p1023]], [4; 8; 12; 0])%float
    1%float 0x1p-2%float false
  = Ok Float64.steep_start
  /\ fit Float64.steep_start = (Ok tt, Float64.steep_model)
  /\ predict [[0x1p1023]]%float None Float64.steep_model
     = (Ok [infinity], Float64.steep_model)
  /\ mse true Float64.steep_model = (Ok infinity, Float64.steep_model).
Proof. repeat split; vm_compute; reflexivity. Qed.

End Examples.

(** * Further properties of the model *)

Section MoreFacts.
Local Open Scope nat_scope.
Context {num : Type} {ar : Arith num} {Model : Type} {sk : Sklearn num Model}.

Local Abbreviation Vec := (list num) (only parsing).
Local Abbreviation Matrix := (list (list num)) (only parsing).
Local Abbreviation State := (State num Model).
Local Abbreviation M := (M num Model).

(** ** A model that was not fitted *)

Lemma compute_depth_unfitted (s : State) d X_pred :
  linear_models (self s) = None ->
  compute_depth d X_pred s = (Raise AttributeError, s).
Proof.
  intros Hms. unfold compute_depth, mbind, M_bind, get_self; simpl.
  by rewrite Hms.
Qed.

Lemma predict_unfitted (s : State) X_pred max_depth :
  linear_models (self s) = None ->
  predict X_pred max_depth s = (Raise AttributeError, s).
Proof.
  intros Hms. unfold predict. rewrite bind_run; simpl.
  destruct (_ <? 2)%Z; [by apply compute_depth_unfitted|].
  erewrite bind_Raise; [reflexivity|]. by apply compute_depth_unfitted.
Qed.

(** X1.  Before [fit] was called, [predict] and [mse] raise an
    [AttributeError] (the attribute [linear_models] does not exist yet)
    and leave the model as it is. *)
Theorem predict_before_fit depth0 data norm0 test_size lasso0 (s0 : State)
    X_pred max_depth test :
  init depth0 data norm0 test_size lasso0 = Ok s0 ->
  predict X_pred max_depth s0 = (Raise AttributeError, s0)
  /\ mse test s0 = (Raise AttributeError, s0).
Proof.
  intros Hinit. destruct (init_Ok _ _ _ _ _ _ Hinit) as (Hc & _).
  pose proof (constructed_models _ Hc) as Hms.
  split; [by apply predict_unfitted|].
  unfold mse. rewrite bind_run; simpl.
  destruct test.
  - destruct (X_test (self s0)) as [Xt|]; [|reflexivity].
    destruct (y_test (self s0)) as [yt|]; [|reflexivity].
    unfold attr. rewrite !bind_run; simpl.
    erewrite bind_Raise; [reflexivity|]. by apply predict_unfitted.
  - rewrite !bind_run; simpl.
    erewrite bind_Raise; [reflexivity|]. by apply predict_unfitted.
Qed.

(** ** What [fit] leaves alone *)

(** X3.  However [fit] ends, on any model: the attributes other than
    [linear_models] are what they were, every array other than
    [min_coeff] (the targets and the held-out targets among them) holds
    what it held, and [min_coeff] has the length it had. *)
Theorem fit_changes_only_its_results (s : State) :
  let s' := (fit s).2 in
  depth (self s') = depth (self s)
  /\ norm (self s') = norm (self s)
  /\ lasso (self s') = lasso (self s)
  /\ X (self s') = X (self s)
  /\ y (self s') = y (self s)
  /\ X_test (self s') = X_test (self s)
  /\ y_test (self s') = y_test (self s)
  /\ min_coeff (self s') = min_coeff (self s)
  /\ (forall l v, l <> min_coeff (self s) ->
        heap s !! l = Some v -> heap s' !! l = Some v)
  /\ (forall offs, heap s !! min_coeff (self s) = Some offs ->
        exists offs', heap s' !! min_coeff (self s) = Some offs'
                      /\ length offs' = length offs).
Proof.
  intros s'. pose proof (framed_fit _ s eq_refl) as Hf. fold s' in Hf.
  split_and!; try apply Hf.
  intros l v Hl Hv. rewrite (frame_arrays _ _ Hf); [done | done |].
  by eapply lookup_lt_Some.
Qed.

(** X2.  A model constructed without held-out data ([test_size] not above
    0) has no attribute [X_test], before and after [fit]: [mse(test=True)]
    raises an [AttributeError]. *)
Theorem mse_without_test_data depth0 data norm0 test_size lasso0
    (s0 s : State) r :
  init depth0 data norm0 test_size lasso0 = Ok s0 ->
  fltb fzero test_size = false ->
  fit s0 = (r, s) ->
  mse true s0 = (Raise AttributeError, s0)
  /\ mse true s = (Raise AttributeError, s).
Proof.
  intros Hinit Hts Hfit.
  assert (X_test (self s0) = None) as Hx0.
  { unfold init in Hinit. destruct data as [X0 y0].
    destruct (np_zeros (depth0 + 2)) as [mc|]; simpl in Hinit; [|done].
    rewrite Hts in Hinit. by injection Hinit as <-. }
  assert (X_test (self s) = None) as Hx.
  { pose proof (framed_fit _ s0 eq_refl) as Hf. rewrite Hfit in Hf.
    simpl in Hf. by rewrite (frame_X_test _ _ Hf). }
  split; unfold mse; rewrite bind_run; simpl; [by rewrite Hx0 | by rewrite Hx].
Qed.

(** ** The shape of a prediction *)

Section RowWise.
Hypothesis predict_shape :
  forall m Xm v, model_predict m Xm = Ok v -> length v = length Xm.

(** X4.  Whenever [predict] returns, on any model and for any [max_depth], it
    returns one value per row of [X_pred], and the model is as it was. *)
Theorem predict_one_value_per_row (s s' : State) X_pred max_depth v :
  predict X_pred max_depth s = (Ok v, s') ->
  length v = length X_pred /\ s' = s.
Proof using predict_shape.
  intros Hrun. split; [by eapply predict_length|].
  pose proof (readonly_predict X_pred max_depth s) as Hro.
  by rewrite Hrun in Hro.
Qed.
End RowWise.

(** ** Depth 1 *)

(** X5.  A model of depth 1 is the regressor itself: after [fit], [predict]
    is the prediction of least squares (of Lasso, with the flag) fitted
    on [(X, y)], with no offset involved. *)
Theorem depth_one_is_the_regressor data norm0 test_size lasso0 (s0 s : State) :
  init 1 data norm0 test_size lasso0 = Ok s0 ->
  fit s0 = (Ok tt, s) ->
  exists m,
    regress lasso0 (X (self s0)) (y_values s0) = Ok m
    /\ forall X_pred, predict X_pred None s = (model_predict m X_pred, s).
Proof.
  intros Hinit Hfit.
  destruct (init_Ok _ _ _ _ _ _ Hinit) as (Hc & Hd & _ & Hl).
  destruct (fit_Ok _ _ Hc Hfit) as (ms & cs & Hres).
  destruct (result_steps _ _ _ _ Hres) as [t' Hsteps].
  pose proof (result_count _ _ _ _ Hres) as Hlen. rewrite Hd in Hlen.
  inversion Hsteps as [|? ? m p r low ms' cs' ? Hm Hp Hr Hlow Hrest];
    subst; [done|].
  exists m. split; [done|].
  intros X_pred. unfold predict. rewrite bind_run; simpl.
  rewrite (frame_depth _ _ (result_frame _ _ _ _ Hres)), Hd. simpl.
  rewrite compute_depth_run by (rewrite (result_models _ _ _ _ Hres); eauto).
  unfold sub_model_predict, sub_model.
  by rewrite (result_models _ _ _ _ Hres).
Qed.

End MoreFacts.

Section MoreLoop.
Local Open Scope nat_scope.
Context {num : Type} {ar : Arith num} {Model : Type} {sk : Sklearn num Model}.

Local Abbreviation Vec := (list num) (only parsing).
Local Abbreviation Matrix := (list (list num)) (only parsing).
Local Abbreviation State := (State num Model).
Local Abbreviation M := (M num Model).

(** ** What [predict] reads *)

Lemma bind_readonly {A B} (m : M A) (f : A -> M B) (s : State) :
  readonly m ->
  (m ≫= f) s = match (m s).1 with
               | Ok a => f a s
               | Raise e => (Raise e, s)
               end.
Proof.
  intros Hm. rewrite bind_run, (readonly_run m s Hm). simpl.
  by destruct (m s).1.
Qed.

(** Two models on which the levels below [max_depth] read the same
    sub-model predictions and the same offsets predict the same. *)
Lemma compute_recursive_agree (s1 s2 : State) X_pred (max_depth : Z) Xo1 Xo2 :
  (forall i, (Z.of_nat i < max_depth)%Z ->
     (compute_depth i X_pred s1).1 = (compute_depth i X_pred s2).1) ->
  (forall i, 1 <= i -> (Z.of_nat i < max_depth)%Z ->
     (min_coeff_at i s1).1 = (min_coeff_at i s2).1) ->
  forall b1 b2 d,
    1 <= d -> (Z.of_nat d <= max_depth - 1)%Z ->
    b1 = b2 \/ ((max_depth - 1 - Z.of_nat d < Z.of_nat b1)%Z
                /\ (max_depth - 1 - Z.of_nat d < Z.of_nat b2)%Z) ->
    (compute_recursive b1 d X_pred max_depth Xo1 s1).1
    = (compute_recursive b2 d X_pred max_depth Xo2 s2).1.
Proof.
  intros Hmodels Hoffs.
  induction b1 as [|b1 IH]; intros [|b2] d Hd Hmax Hb; try lia; [done|].
  simpl.
  destruct (Z.eqb_spec (Z.of_nat d) (max_depth - 1)) as [Heq|Hne].
  - rewrite !(bind_readonly (compute_depth _ _)) by apply readonly_compute_depth.
    rewrite (Hmodels d) by lia.
    destruct (compute_depth d X_pred s2).1 as [a|e]; [|done].
    rewrite !(bind_readonly (min_coeff_at _)) by apply readonly_min_coeff_at.
    rewrite (Hoffs d) by lia.
    by destruct (min_coeff_at d s2).1.
  - rewrite !(bind_readonly (compute_depth _ _)) by apply readonly_compute_depth.
    rewrite (Hmodels d) by lia.
    destruct (compute_depth d X_pred s2).1 as [a|e]; [|done].
    rewrite !(bind_readonly (compute_recursive _ _ _ _ _))
      by apply readonly_compute_recursive.
    rewrite (IH b2 (S d)) by lia.
    destruct (compute_recursive b2 (S d) X_pred max_depth Xo2 s2).1 as [r|e];
      [|done].
    rewrite !bind_lift.
    destruct (vadd a r) as [t|e]; [|done].
    rewrite !(bind_readonly (min_coeff_at _)) by apply readonly_min_coeff_at.
    rewrite (Hoffs d) by lia.
    by destruct (min_coeff_at d s2).1.
Qed.

Lemma predict_agree (s1 s2 : State) X_pred (max_depth : Z) :
  (forall i, i = 0 \/ (Z.of_nat i < max_depth)%Z ->
     (compute_depth i X_pred s1).1 = (compute_depth i X_pred s2).1) ->
  (forall i, 1 <= i -> (Z.of_nat i < max_depth)%Z ->
     (min_coeff_at i s1).1 = (min_coeff_at i s2).1) ->
  fitted_depth s1 = fitted_depth s2
  \/ ((max_depth - 1 <= Z.of_nat (fitted_depth s1))%Z
      /\ (max_depth - 1 <= Z.of_nat (fitted_depth s2))%Z) ->
  (predict X_pred (Some max_depth) s1).1
  = (predict X_pred (Some max_depth) s2).1.
Proof.
  intros Hmodels Hoffs Hb. unfold predict. rewrite !bind_get_self.
  destruct (Z.ltb_spec max_depth 2); [apply Hmodels; by left|].
  rewrite !(bind_readonly (compute_depth _ _)) by apply readonly_compute_depth.
  rewrite (Hmodels 0) by (by left).
  destruct (compute_depth 0 X_pred s2).1 as [a|e]; [|done].
  unfold recursion_budget.
  rewrite !(bind_run (get_self ≫= _)), !bind_get_self.
  change ((mret ?b : M _) ?s) with (Ok b, s). cbv beta iota.
  fold (fitted_depth s1). fold (fitted_depth s2).
  rewrite !(bind_readonly (compute_recursive _ _ _ _ _))
    by apply readonly_compute_recursive.
  rewrite (compute_recursive_agree s1 s2 X_pred max_depth X_pred X_pred)
    with (b2 := fitted_depth s2); [| | done | lia | lia | lia].
  - by destruct (compute_recursive _ _ _ _ _ s2).1.
  - intros i Hi. apply Hmodels. by right.
Qed.

Lemma compute_depth_set_offset (s : State) i v d X_pred :
  (compute_depth d X_pred (set_offset s i v)).1 = (compute_depth d X_pred s).1.
Proof.
  unfold compute_depth, mbind, M_bind, get_self; simpl.
  destruct (linear_models (self s)) as [ms|]; simpl; [|done].
  unfold index. by destruct (ms !! d).
Qed.

Lemma min_coeff_at_set_offset (s : State) i v j :
  j <> i ->
  (min_coeff_at j (set_offset s i v)).1 = (min_coeff_at j s).1.
Proof.
  intros Hj.
  assert (heap (set_offset s i v) !! min_coeff (self s)
          = (fun offs => <[i := v]> offs) <$> heap s !! min_coeff (self s))
    as Hheap by apply list_lookup_alter_eq.
  unfold min_coeff_at, mbind, M_bind, get_self, load.
  change (self (set_offset s i v)) with (self s). rewrite Hheap.
  destruct (heap s !! min_coeff (self s)) as [offs|]; simpl; [|done].
  unfold index. rewrite list_lookup_insert_ne by done.
  by destruct (offs !! j).
Qed.

(** X6.  [predict] reads the offsets [1 .. max_depth - 1] and no other:
    whatever is assigned to [min_coeff[0]], or to [min_coeff[i]] with
    [i >= max_depth], the slot [depth + 1] among them, the prediction is
    the same.  Without [max_depth], the depth of the model counts. *)
Theorem predict_ignores_padding (s : State) X_pred (max_depth : option Z)
    (i : nat) (v : num) :
  i = 0 \/ (default (depth (self s)) max_depth <= Z.of_nat i)%Z ->
  (predict X_pred max_depth (set_offset s i v)).1
  = (predict X_pred max_depth s).1.
Proof.
  intros Hi.
  assert (forall k : Z, i = 0 \/ (k <= Z.of_nat i)%Z ->
            (predict X_pred (Some k) (set_offset s i v)).1
            = (predict X_pred (Some k) s).1) as Hsome.
  { intros k Hk. apply predict_agree.
    - intros. apply compute_depth_set_offset.
    - intros j Hj1 Hj2. apply min_coeff_at_set_offset. lia.
    - by left. }
  destruct max_depth as [k|]; simpl in Hi; [apply Hsome; lia|].
  specialize (Hsome (depth (self s))).
  unfold predict in *. rewrite !bind_get_self in *. simpl in *.
  apply Hsome. lia.
Qed.

End MoreLoop.

Section Forward.
Local Open Scope nat_scope.
Context {num : Type} {ar : Arith num} {Model : Type} {sk : Sklearn num Model}.

Local Abbreviation Vec := (list num) (only parsing).
Local Abbreviation Matrix := (list (list num)) (only parsing).
Local Abbreviation State := (State num Model).
Local Abbreviation M := (M num Model).

Hypothesis predict_shape :
  forall m Xm v, model_predict m Xm = Ok v -> length v = length Xm.

(** ** A pass, forwards *)

(** what a pass does once its regressor is fitted *)
Lemma fit_iter_fitted (s : State) d yfit ms target m :
  linear_models (self s) = Some ms -> length ms = d ->
  Forall (fun m => is_Ok (model_predict m (X (self s)))) ms ->
  d < length (offsets s) ->
  heap s !! yfit = Some target ->
  regress (lasso (self s)) (X (self s)) target = Ok m ->
  fit_iter d yfit s =
  match model_predict m (X (self s)) with
  | Raise e => (Raise e, with_models s (ms ++ [m]))
  | Ok p =>
      (r ← lift (vsub target p);
       lowest ← lift (np_min r);
       store_item (min_coeff (self s)) (d + 1) (fadd (fabs lowest) fone);;
       c ← min_coeff_at (d + 1);
       alloc (vrecip (vadd_scalar r c))) (with_models s (ms ++ [m]))
  end.
Proof using predict_shape.
  intros Hms Hlen Hready Hoffs Htarget Hm.
  rewrite (fit_iter_without_predict_eq predict_shape) by (done || by exists ms).
  unfold fit_iter_without_predict. rewrite bind_get_self.
  rewrite bind_run. unfold load at 1. rewrite Htarget.
  rewrite bind_lift. unfold regress in Hm. rewrite Hm.
  rewrite bind_run, (append_model_run s ms m Hms).
  rewrite bind_lift. by destruct (model_predict m (X (self s))).
Qed.

Lemma fit_iter_run (s : State) d yfit ms target offs m p r low :
  linear_models (self s) = Some ms -> length ms = d ->
  Forall (fun m => is_Ok (model_predict m (X (self s)))) ms ->
  heap s !! yfit = Some target ->
  heap s !! min_coeff (self s) = Some offs ->
  d + 1 < length offs ->
  regress (lasso (self s)) (X (self s)) target = Ok m ->
  model_predict m (X (self s)) = Ok p ->
  vsub target p = Ok r ->
  np_min r = Ok low ->
  fit_iter d yfit s =
  (Ok (length (heap s)),
   after_pass s (ms ++ [m]) offs d (fadd (fabs low) fone)
     (vrecip (vadd_scalar r (fadd (fabs low) fone)))).
Proof using predict_shape.
  intros Hms Hlen Hready Htarget Hoffs Hd Hm Hp Hr Hlow.
  rewrite (fit_iter_fitted s d yfit ms target m); try done; cycle 1.
  { unfold offsets. rewrite Hoffs. simpl. lia. }
  rewrite Hp, bind_lift, Hr, bind_lift, Hlow.
  rewrite bind_run. unfold store_item at 1. simpl. rewrite Hoffs.
  destruct (decide (d + 1 < length offs)); [|lia].
  rewrite bind_run.
  unfold min_coeff_at, load, index, mbind, M_bind, get_self. simpl.
  rewrite list_lookup_insert_eq by (by eapply lookup_lt_Some).
  rewrite list_lookup_insert_eq by done.
  simpl. unfold alloc; simpl. by rewrite length_insert.
Qed.

(** ** The loop, forwards *)

Lemma fit_loop_run n :
  forall d yfit (s : State) ms target offs ms' cs target',
    fit_steps (lasso (self s)) (X (self s)) d target ms' cs target' ->
    length ms' = n ->
    linear_models (self s) = Some ms -> length ms = d ->
    Forall (fun m => is_Ok (model_predict m (X (self s)))) ms ->
    heap s !! yfit = Some target ->
    heap s !! min_coeff (self s) = Some offs ->
    n = 0 \/ d + n < length offs ->
    exists yfit' s', fit_loop (seq d n) yfit s = (Ok yfit', s').
Proof using predict_shape.
  induction n as [|n IH];
    intros d yfit s ms target offs ms' cs target' Hsteps Hn Hms Hlen Hready
      Htarget Hoffs Hd.
  { simpl. eauto. }
  inversion Hsteps as [|? ? m p r low ms1 cs1 ? Hm Hp Hr Hlow Hrest];
    subst; [done|].
  simpl. rewrite bind_run.
  rewrite (fit_iter_run s (length ms) yfit ms target offs m p r low);
    try done; [|lia].
  set (c := fadd (fabs low) fone) in *.
  set (t1 := vrecip (vadd_scalar r c)) in *.
  eapply (IH _ _ _ (ms ++ [m]) t1 (<[length ms + 1 := c]> offs)).
  - exact Hrest.
  - simpl in Hn. lia.
  - reflexivity.
  - rewrite length_app. simpl. lia.
  - simpl. apply Forall_app. split; [done|].
    constructor; [by eexists | constructor].
  - apply after_pass_target.
  - exact (after_pass_offsets s _ _ _ _ _ Hoffs).
  - right. rewrite length_insert. lia.
Qed.

Lemma fit_steps_functional flag Xm d t ms1 cs1 t1 :
  fit_steps flag Xm d t ms1 cs1 t1 ->
  forall ms2 cs2 t2,
    fit_steps flag Xm d t ms2 cs2 t2 -> length ms1 = length ms2 ->
    ms1 = ms2 /\ cs1 = cs2 /\ t1 = t2.
Proof.
  induction 1 as [|d t m p r low ms cs t' Hm Hp Hr Hlow Hrest IH];
    intros ms2 cs2 t2 H2 Hlen.
  - by inversion H2; subst.
  - inversion H2 as [|? ? m2 p2 r2 low2 ms2' cs2' ? Hm2 Hp2 Hr2 Hlow2 Hrest2];
      subst; [done|].
    assert (m2 = m) as -> by congruence.
    assert (p2 = p) as -> by congruence.
    assert (r2 = r) as -> by congruence.
    assert (low2 = low) as -> by congruence.
    destruct (IH _ _ _ Hrest2) as (-> & -> & ->); [simpl in Hlen; lia | done].
Qed.

Lemma fit_steps_take flag Xm d t ms cs t' :
  fit_steps flag Xm d t ms cs t' ->
  forall k, exists t'', fit_steps flag Xm d t (take k ms) (take k cs) t''.
Proof.
  induction 1 as [|d t m p r low ms cs t' Hm Hp Hr Hlow Hrest IH]; intros k.
  - exists t. rewrite !take_nil. constructor.
  - destruct k as [|k]; [exists t; constructor|].
    destruct (IH k) as [t'' Hk]. exists t''. simpl.
    by eapply fit_steps_next.
Qed.

Lemma store_from_lookup (cs : Vec) : forall i offs j,
  i + length cs <= length offs ->
  store_from i cs offs !! j
  = if decide (i <= j < i + length cs) then cs !! (j - i) else offs !! j.
Proof.
  intros i offs j Hlen. case_decide as Hj.
  - replace j with (i + (j - i)) at 1 by lia.
    apply store_from_inside; lia.
  - apply store_from_outside. lia.
Qed.

Lemma store_from_twice (cs : Vec) i offs :
  cs = [] \/ i + length cs <= length offs ->
  store_from i cs (store_from i cs offs) = store_from i cs offs.
Proof.
  intros [->|Hlen]; [done|]. apply list_eq. intros j.
  rewrite !store_from_lookup by (rewrite ?length_store_from; lia).
  by case_decide.
Qed.

Lemma compute_depth_result (s : State) d X_pred ms :
  linear_models (self s) = Some ms ->
  (compute_depth d X_pred s).1
  = match ms !! d with
    | Some m => model_predict m X_pred
    | None => Raise IndexError
    end.
Proof.
  intros Hms. rewrite compute_depth_run by eauto.
  unfold sub_model_predict, sub_model. by rewrite Hms.
Qed.

Lemma min_coeff_at_result (s : State) d offs :
  heap s !! min_coeff (self s) = Some offs ->
  (min_coeff_at d s).1
  = match offs !! d with Some c => Ok c | None => Raise IndexError end.
Proof.
  intros Hoffs. unfold min_coeff_at, mbind, M_bind, get_self, load.
  rewrite Hoffs. unfold index. by destruct (offs !! d).
Qed.

Lemma predict_same (s1 s2 : State) :
  linear_models (self s1) = linear_models (self s2) ->
  heap s1 !! min_coeff (self s1) = heap s2 !! min_coeff (self s2) ->
  depth (self s1) = depth (self s2) ->
  forall X_pred max_depth,
    (predict X_pred max_depth s1).1 = (predict X_pred max_depth s2).1.
Proof.
  intros Hms Hoffs Hd X_pred max_depth.
  assert (forall k, (predict X_pred (Some k) s1).1
                    = (predict X_pred (Some k) s2).1) as Hsome.
  { intros k. apply predict_agree.
    - intros i _. unfold compute_depth, mbind, M_bind, get_self.
      rewrite Hms.
      destruct (linear_models (self s2)) as [ms|]; simpl; [|done].
      unfold index. by destruct (ms !! i).
    - intros i _ _. unfold min_coeff_at, mbind, M_bind, get_self, load.
      rewrite Hoffs.
      destruct (heap s2 !! min_coeff (self s2)) as [offs|]; simpl; [|done].
      unfold index. by destruct (offs !! i).
    - left. unfold fitted_depth. by rewrite Hms. }
  destruct max_depth as [k|]; [apply Hsome|].
  specialize (Hsome (depth (self s1))).
  unfold predict in *. rewrite !bind_get_self in *. simpl in *.
  by rewrite <- Hd.
Qed.

(** ** Fitting again *)

(** X7.  [fit] on a fitted model completes again and arrives at the same
    sub-models and the same offsets: the targets were left as they were,
    and every offset is assigned before it is read.  Predictions are the
    same after the second [fit] as after the first. *)
Theorem fit_again depth0 data norm0 test_size lasso0 (s0 s1 : State) :
  init depth0 data norm0 test_size lasso0 = Ok s0 ->
  fit s0 = (Ok tt, s1) ->
  exists s2,
    fit s1 = (Ok tt, s2)
    /\ linear_models (self s2) = linear_models (self s1)
    /\ offsets s2 = offsets s1
    /\ y_values s2 = y_values s1
    /\ forall X_pred max_depth,
         (predict X_pred max_depth s2).1 = (predict X_pred max_depth s1).1.
Proof using predict_shape.
  intros Hinit Hfit.
  destruct (init_Ok _ _ _ _ _ _ Hinit) as (Hc & Hd & _).
  destruct (fit_Ok _ _ Hc Hfit) as (ms & cs & Hres).
  pose proof (result_frame _ _ _ _ Hres) as Hframe.
  destruct (result_steps _ _ _ _ Hres) as [t' Hsteps].
  pose proof (fit_steps_length _ _ _ _ _ _ _ Hsteps) as Hcs.
  pose proof (result_count _ _ _ _ Hres) as Hcount.
  pose proof (result_offsets _ _ _ _ Hres) as Hoffs.
  destruct (constructed_y _ Hc) as [t0 Ht0].
  assert (y_values s0 = t0) as Hy0 by (unfold y_values; by rewrite Ht0).
  assert (heap s1 !! y (self s1) = Some t0) as Ht1.
  { rewrite (frame_y _ _ Hframe), (frame_arrays _ _ Hframe); [done | apply Hc |].
    by eapply lookup_lt_Some. }
  set (zeros := replicate (Z.to_nat (depth (self s0) + 2)) fzero) in *.
  assert (cs = [] \/ 1 + length cs <= length zeros) as Hroom.
  { unfold zeros. rewrite length_replicate, Hcs, Hcount.
    destruct cs; [by left | right]. simpl in Hcs. lia. }
  set (s1' := with_models s1 []).
  assert (exists yfit' s2, fit_loop (seq 0 (Z.to_nat (depth (self s1))))
                             (y (self s1)) s1' = (Ok yfit', s2))
    as (yfit' & s2 & Hloop).
  { eapply (fit_loop_run _ 0 _ s1' [] t0 _ ms cs t').
    - simpl. rewrite (frame_lasso _ _ Hframe), (frame_X _ _ Hframe).
      by rewrite <- Hy0.
    - by rewrite (frame_depth _ _ Hframe).
    - reflexivity.
    - reflexivity.
    - constructor.
    - exact Ht1.
    - exact Hoffs.
    - rewrite length_store_from, (frame_depth _ _ Hframe).
      unfold zeros. rewrite length_replicate. lia. }
  assert (fit s1 = (Ok tt, s2)) as Hfit2 by (by rewrite fit_run; fold s1'; rewrite Hloop).
  exists s2. split; [done|].
  destruct (fit_loop_Ok _ _ _ _ _ _ [] t0 _ Hloop eq_refl eq_refl Ht1 Hoffs)
    as (ms2 & cs2 & t2 & Hsteps2 & Hlen2 & _ & Hms2 & _ & Hoffs2 & _).
  simpl in Hsteps2, Hms2, Hoffs2.
  rewrite (frame_lasso _ _ Hframe), (frame_X _ _ Hframe), <- Hy0 in Hsteps2.
  destruct (fit_steps_functional _ _ _ _ _ _ _ Hsteps2 _ _ _ Hsteps)
    as (-> & -> & _).
  { by rewrite Hlen2, (frame_depth _ _ Hframe). }
  rewrite store_from_twice in Hoffs2 by done.
  pose proof (framed_fit _ s1 eq_refl) as Hframe2.
  rewrite Hfit2 in Hframe2. simpl in Hframe2.
  assert (heap s2 !! min_coeff (self s2) = heap s1 !! min_coeff (self s1))
    as Hsame by (by rewrite (frame_min_coeff _ _ Hframe2), Hoffs2, Hoffs).
  split; [by rewrite Hms2, (result_models _ _ _ _ Hres)|].
  split; [unfold offsets; by rewrite Hsame|].
  split.
  - apply frame_y_values; [done | eauto |].
    rewrite (frame_y _ _ Hframe), (frame_min_coeff _ _ Hframe). apply Hc.
  - apply predict_same; [|done|apply Hframe2].
    by rewrite Hms2, (result_models _ _ _ _ Hres).
Qed.

(** ** A shallower model inside a deeper one *)

(** X8.  A [predict] cut off at [max_depth = k] is the prediction of the
    model of depth [k] on the same training data: that model's [fit]
    completes, and its [predict] returns what the deeper model's
    [predict(X_pred, k)] returns, exception or values. *)
Theorem truncated_prediction depth0 data norm0 test_size
    (k : Z) data' norm' test_size' lasso0 (s0 s0' s : State) :
  init depth0 data norm0 test_size lasso0 = Ok s0 ->
  init k data' norm' test_size' lasso0 = Ok s0' ->
  X (self s0') = X (self s0) ->
  y_values s0' = y_values s0 ->
  (1 <= k <= depth0)%Z ->
  fit s0 = (Ok tt, s) ->
  exists s',
    fit s0' = (Ok tt, s')
    /\ forall X_pred,
         (predict X_pred None s').1 = (predict X_pred (Some k) s).1.
Proof using predict_shape.
  intros Hinit Hinit' HX Hy Hk Hfit.
  destruct (init_Ok _ _ _ _ _ _ Hinit) as (Hc & Hd & _ & Hl).
  destruct (init_Ok _ _ _ _ _ _ Hinit') as (Hc' & Hd' & _ & Hl').
  destruct (fit_Ok _ _ Hc Hfit) as (ms & cs & Hres).
  destruct (result_steps _ _ _ _ Hres) as [t' Hsteps].
  pose proof (fit_steps_length _ _ _ _ _ _ _ Hsteps) as Hcs.
  pose proof (result_count _ _ _ _ Hres) as Hcount. rewrite Hd in Hcount.
  destruct (fit_steps_take _ _ _ _ _ _ _ Hsteps (Z.to_nat k)) as [t'' Htake].
  destruct (constructed_y _ Hc') as [t0 Ht0].
  assert (y_values s0' = t0) as Hy0 by (unfold y_values; by rewrite Ht0).
  assert (exists yfit' s', fit_loop (seq 0 (Z.to_nat (depth (self s0'))))
                             (y (self s0')) (with_models s0' [])
                           = (Ok yfit', s'))
    as (yfit' & s' & Hloop).
  { eapply (fit_loop_run _ 0 _ (with_models s0' []) [] t0 _ _ _ t'').
    - simpl. rewrite Hl', HX, <- Hy0, Hy, <- Hl. exact Htake.
    - rewrite length_take, Hd'. lia.
    - reflexivity.
    - reflexivity.
    - constructor.
    - exact Ht0.
    - exact (constructed_offsets _ Hc').
    - right. rewrite length_replicate. lia. }
  assert (fit s0' = (Ok tt, s')) as Hfit' by (by rewrite fit_run, Hloop).
  exists s'. split; [done|].
  destruct (fit_Ok _ _ Hc' Hfit') as (ms2 & cs2 & Hres').
  destruct (result_steps _ _ _ _ Hres') as [t2 Hsteps2].
  rewrite Hl', HX, Hy, <- Hl in Hsteps2.
  destruct (fit_steps_functional _ _ _ _ _ _ _ Hsteps2 _ _ _ Htake)
    as (-> & -> & _).
  { rewrite (result_count _ _ _ _ Hres'), length_take, Hd'. lia. }
  intros X_pred.
  assert ((predict X_pred None s').1 = (predict X_pred (Some k) s').1) as ->.
  { unfold predict. rewrite !bind_get_self. simpl.
    by rewrite (frame_depth _ _ (result_frame _ _ _ _ Hres')), Hd'. }
  apply predict_agree.
  - intros i Hi.
    rewrite (compute_depth_result s' i X_pred _ (result_models _ _ _ _ Hres')).
    rewrite (compute_depth_result s i X_pred _ (result_models _ _ _ _ Hres)).
    rewrite lookup_take_lt by lia. reflexivity.
  - intros i Hi1 Hi2.
    rewrite (min_coeff_at_result s' i _ (result_offsets _ _ _ _ Hres')).
    rewrite (min_coeff_at_result s i _ (result_offsets _ _ _ _ Hres)).
    pose proof (constructed_depth _ Hc). pose proof (constructed_depth _ Hc').
    rewrite !store_from_lookup
      by (rewrite length_replicate, ?length_take; lia).
    rewrite length_take.
    repeat case_decide; try lia.
    by rewrite lookup_take_lt by lia.
  - right. unfold fitted_depth.
    rewrite (result_models _ _ _ _ Hres'), (result_models _ _ _ _ Hres).
    rewrite length_take. lia.
Qed.

(** ** What makes [fit] fail *)

Lemma fit_steps_target_length flag Xm d t ms cs t' :
  fit_steps flag Xm d t ms cs t' ->
  length t = length Xm -> length t' = length Xm.
Proof using predict_shape.
  induction 1 as [|d t m p r low ms cs t' Hm Hp Hr Hlow Hsteps IH];
    intros Hlen; [done|].
  apply IH. pose proof (predict_shape _ _ _ Hp) as Hlenp.
  unfold vsub in Hr. rewrite broadcast2_same in Hr by lia.
  injection Hr as <-.
  rewrite length_vrecip, length_vadd_scalar, length_zip_with. lia.
Qed.

(** the pass at which the loop fails, and why *)
Lemma passes_failure (s0 : State) n :
  constructed s0 ->
  length (y_values s0) = length (X (self s0)) ->
  y_values s0 <> [] ->
  n <= Z.to_nat (depth (self s0)) ->
  forall e s,
    passes s0 n = (Raise e, s) ->
    exists d yfit s_d target,
      d < n
      /\ passes s0 d = (Ok yfit, s_d)
      /\ heap s_d !! yfit = Some target
      /\ (regress (lasso (self s0)) (X (self s0)) target = Raise e /\ s = s_d
          \/ exists m,
               regress (lasso (self s0)) (X (self s0)) target = Ok m
               /\ model_predict m (X (self s0)) = Raise e
               /\ (append_model m s_d).2 = s).
Proof using predict_shape.
  intros Hc Hshape Hne. induction n as [|n IH]; intros Hn e s Hrun;
    [discriminate|].
  unfold passes in Hrun. rewrite seq_S, fit_loop_app in Hrun.
  fold (passes s0 n) in Hrun.
  destruct (passes s0 n) as [[yfit|e'] s_n] eqn:Hpasses; cycle 1.
  { injection Hrun as -> ->.
    destruct (IH ltac:(lia) _ _ eq_refl)
      as (d & yfit & s_d & target & Hd & H1 & H2 & H3).
    exists d, yfit, s_d, target. split_and!; try done. lia. }
  simpl in Hrun. rewrite bind_run in Hrun.
  destruct (fit_iter n yfit s_n) as [[yfit'|e1] s1] eqn:Hpass; [discriminate|].
  injection Hrun as -> ->.
  destruct (passes_Ok _ _ _ _ Hc Hpasses)
    as (ms & cs & target & Hsteps & Hlen & Hms & Htarget & Hoffs & _ & Hframe).
  pose proof (fit_steps_target_length _ _ _ _ _ _ _ Hsteps Hshape) as Hlent.
  pose proof (fit_steps_length _ _ _ _ _ _ _ Hsteps) as Hcs.
  pose proof (fit_steps_ready _ _ _ _ _ _ _ Hsteps) as Hready.
  pose proof (frame_lasso _ _ Hframe) as Hlasso.
  pose proof (frame_X _ _ Hframe) as HX.
  pose proof (frame_min_coeff _ _ Hframe) as Hmc.
  rewrite <- Hmc in Hoffs.
  assert (n + 1 < length (store_from 1 cs
            (replicate (Z.to_nat (depth (self s0) + 2)) fzero))) as Hroom.
  { rewrite length_store_from, length_replicate. lia. }
  exists n, yfit, s_n, target. split_and!; try done; [lia|].
  rewrite <- Hlasso, <- HX.
  destruct (regress (lasso (self s_n)) (X (self s_n)) target) as [m|e0] eqn:Hm.
  - right. exists m. split; [done|].
    assert (Forall (fun m => is_Ok (model_predict m (X (self s_n)))) ms)
      as Hready' by (by rewrite HX).
    destruct (model_predict m (X (self s_n))) as [p|e2] eqn:Hp.
    + exfalso.
      pose proof (predict_shape _ _ _ Hp) as Hlenp.
      assert (vsub target p = Ok (zip_with fsub target p)) as Hr
        by (apply broadcast2_same; rewrite HX in Hlenp; lia).
      destruct (np_min (zip_with fsub target p)) as [low|e3] eqn:Hlow; cycle 1.
      { assert (length (zip_with fsub target p) <> 0) as Hsome.
        { rewrite length_zip_with. rewrite HX in Hlenp.
          destruct (y_values s0); [done|]. simpl in Hshape. lia. }
        by destruct (zip_with fsub target p). }
      by rewrite (fit_iter_run s_n n yfit ms target _ m p _ low
                    Hms Hlen Hready' Htarget Hoffs Hroom Hm Hp Hr Hlow)
        in Hpass.
    + rewrite (fit_iter_fitted s_n n yfit ms target m) in Hpass; try done;
        cycle 1.
      { unfold offsets. rewrite Hoffs. simpl. lia. }
      rewrite Hp in Hpass. injection Hpass as -> <-. split; [done|].
      by rewrite (append_model_run s_n ms m Hms).
  - left. rewrite (fit_iter_solve_fails n yfit s_n target e0) in Hpass by done.
    by injection Hpass as -> ->.
Qed.

(** X9.  On a training set that is not empty and has a target per row,
    [fit] raises nothing of its own.  When [fit] raises, some pass [d]
    below [depth] was reached, and on the working target of that pass
    either the [fit] of the regressor raised that exception, and the
    model is as the passes before left it, or the [predict] of the
    regressor just fitted raised it on the training rows, and the model
    holds that regressor as its last sub-model. *)
Theorem fit_fails_only_in_the_regressor depth0 data norm0 test_size lasso0
    (s0 s : State) e :
  init depth0 data norm0 test_size lasso0 = Ok s0 ->
  length (y_values s0) = length (X (self s0)) ->
  y_values s0 <> [] ->
  fit s0 = (Raise e, s) ->
  exists d yfit s_d target,
    (Z.of_nat d < depth0)%Z
    /\ passes s0 d = (Ok yfit, s_d)
    /\ heap s_d !! yfit = Some target
    /\ (regress lasso0 (X (self s0)) target = Raise e /\ s = s_d
        \/ exists m,
             regress lasso0 (X (self s0)) target = Ok m
             /\ model_predict m (X (self s0)) = Raise e
             /\ (append_model m s_d).2 = s).
Proof using predict_shape.
  intros Hinit Hshape Hne Hfit.
  destruct (init_Ok _ _ _ _ _ _ Hinit) as (Hc & Hd & _ & Hl).
  rewrite fit_run in Hfit. fold (passes s0 (Z.to_nat (depth (self s0)))) in Hfit.
  destruct (passes s0 _) as [[yfit'|e0] s'] eqn:Hloop; [discriminate|].
  injection Hfit as -> ->.
  destruct (passes_failure s0 _ Hc Hshape Hne (Nat.le_refl _) _ _ Hloop)
    as (d & yfit & s_d & target & Hlt & H1 & H2 & H3).
  exists d, yfit, s_d, target. rewrite <- Hl. split_and!; try done. lia.
Qed.

End Forward.

(** * The data file *)

Section DataFileFacts.
Local Open Scope nat_scope.
Context {num : Type} {ar : Arith num} {bi : Builtins num}.

Local Abbreviation str := (list Ascii.ascii) (only parsing).
Local Abbreviation Vec := (list num) (only parsing).
Local Abbreviation Matrix := (list (list num)) (only parsing).

(** ** Fields *)

Lemma split_length sep (s : str) :
  length (split sep s) = S (count_occ Ascii.ascii_dec s sep).
Proof.
  induction s as [|c s IH]; [done|]. simpl.
  destruct (Ascii.eqb_spec c sep) as [->|Hne].
  - simpl. rewrite IH. by destruct (Ascii.ascii_dec sep sep).
  - destruct (Ascii.ascii_dec c sep); [done|].
    destruct (split sep s); simpl in *; lia.
Qed.

(** ** Rows *)

Lemma as_row_length m (v row : Vec) : as_row m v = Ok row -> length row = m.
Proof.
  unfold as_row. destruct (Nat.eqb_spec (length v) m); [by intros [= <-]|].
  destruct v as [|x [|]]; intros; simplify_eq. apply length_replicate.
Qed.

Lemma as_row_cases m (v row : Vec) :
  as_row m v = Ok row ->
  row = v \/ exists x, v = [x] /\ row = replicate (length row) x.
Proof.
  unfold as_row. destruct (Nat.eqb_spec (length v) m); [intros [= <-]; by left|].
  destruct v as [|x [|]]; intros [= <-].
  right. exists x. by rewrite length_replicate.
Qed.

Lemma as_row_same m (v : Vec) : length v = m -> as_row m v = Ok v.
Proof. intros <-. unfold as_row. by rewrite Nat.eqb_refl. Qed.

Lemma set_item_Ok {A} (a a' : list A) i v :
  set_item a i v = Ok a' -> i < length a /\ a' = <[i := v]> a.
Proof. unfold set_item. case_decide; by intros [= <-]. Qed.

(** what the loop has stored when it completes *)
Lemma read_rows_Ok m (lines : list str) :
  forall i (X X' : Matrix) (y y' : Vec),
    read_rows m lines i (X, y) = Ok (X', y') ->
    length X' = length X /\ length y' = length y
    /\ (lines = [] \/ i + length lines <= length y)
    /\ (forall j, j < i \/ i + length lines <= j ->
          X' !! j = X !! j /\ y' !! j = y !! j)
    /\ (forall k line, lines !! k = Some line ->
          exists p0 features row,
            mapM py_float (split tab line) = Ok (p0 :: features)
            /\ as_row m features = Ok row
            /\ y' !! (i + k) = Some p0
            /\ X' !! (i + k) = Some row).
Proof.
  induction lines as [|line lines IH]; intros i X X' y y' Hrun.
  { simpl in Hrun. injection Hrun as <- <-. split_and!; auto. by intros []. }
  simpl in Hrun.
  destruct (mapM py_float (split tab line)) as [[|p0 features]|] eqn:Hpoints;
    simpl in Hrun; try discriminate.
  destruct (set_item y i p0) as [y1|] eqn:Hy; simpl in Hrun; [|discriminate].
  destruct (as_row m features) as [row|] eqn:Hrow; simpl in Hrun; [|discriminate].
  destruct (set_item X i row) as [X1|] eqn:HX; simpl in Hrun; [|discriminate].
  apply set_item_Ok in Hy as [Hi ->]. apply set_item_Ok in HX as [Hi' ->].
  destruct (IH _ _ _ _ _ Hrun) as (HlenX & Hleny & Hroom & Hout & Hin).
  rewrite !length_insert in *.
  split; [done|]. split; [done|].
  split; [right; simpl; destruct Hroom as [->|]; simpl; lia|].
  split.
  - intros j Hj. simpl in Hj. destruct (Hout j) as [-> ->]; [lia|].
    rewrite !list_lookup_insert_ne by lia. done.
  - intros [|k] line' Hline; simpl in Hline.
    + injection Hline as <-. exists p0, features, row.
      rewrite Nat.add_0_r. destruct (Hout i) as [-> ->]; [lia|].
      by rewrite !list_lookup_insert_eq by lia.
    + destruct (Hin k line' Hline) as (p & fs & r & H1 & H2 & H3 & H4).
      exists p, fs, r. by replace (i + S k) with (S i + k) by lia.
Qed.

(** what the loop stores on lines that hold a target and the features *)
Lemma read_rows_run m (lines : list str) :
  forall (parsed : list (num * Vec)) i (X : Matrix) (y : Vec),
    Forall2 (fun line pr =>
               exists features,
                 mapM py_float (split tab line) = Ok (pr.1 :: features)
                 /\ as_row m features = Ok pr.2) lines parsed ->
    length X = length y ->
    i + length lines <= length y ->
    read_rows m lines i (X, y)
    = Ok (take i X ++ map snd parsed ++ drop (i + length lines) X,
          take i y ++ map fst parsed ++ drop (i + length lines) y).
Proof.
  induction lines as [|line lines IH]; intros parsed i X y Hall HXy Hroom.
  { apply Forall2_nil_inv_l in Hall as ->. simpl.
    by rewrite Nat.add_0_r, !take_drop. }
  apply Forall2_cons_inv_l in Hall
    as ([p0 row] & parsed' & (features & Hpoints & Hrow) & Hall & ->).
  simpl in *. rewrite Hpoints. simpl.
  unfold set_item. destruct (decide (i < length y)); [|lia]. simpl.
  rewrite Hrow. simpl. destruct (decide (i < length X)); [|lia]. simpl.
  rewrite (IH parsed' (S i)); [|done|by rewrite !length_insert|rewrite length_insert; lia].
  rewrite !drop_insert_lt by lia.
  rewrite (take_S_r (<[i := row]> X) i row)
    by (apply list_lookup_insert_eq; lia).
  rewrite (take_S_r (<[i := p0]> y) i p0)
    by (apply list_lookup_insert_eq; lia).
  rewrite !take_insert_ge by lia.
  rewrite <- !app_assoc. simpl.
  replace (S (i + length lines)) with (i + S (length lines)) by lia.
  done.
Qed.

(** ** The file *)

Lemma read_data_Ok (content : str) X y :
  read_data content = Ok (X, y) ->
  exists sn sm n m,
    split tab (hd [] (readlines content)) = [sn; sm]
    /\ py_int sn = Ok n /\ py_int sm = Ok m
    /\ (0 <= n)%Z /\ (0 <= m)%Z
    /\ read_rows (Z.to_nat m) (tl (readlines content)) 0
         (replicate (Z.to_nat n) (replicate (Z.to_nat m) fzero),
          replicate (Z.to_nat n) fzero) = Ok (X, y).
Proof.
  unfold read_data.
  destruct (split tab (hd [] (readlines content))) as [|sn [|sm [|]]];
    try discriminate.
  destruct (py_int sn) as [n|] eqn:Hn; simpl; [|discriminate].
  destruct (py_int sm) as [m|] eqn:Hm; simpl; [|discriminate].
  unfold np_zeros2, np_zeros.
  destruct (Z.ltb_spec n 0); simpl; [discriminate|].
  destruct (Z.ltb_spec m 0); simpl; [discriminate|].
  intros Hrows. exists sn, sm, n, m. by split_and!.
Qed.

(** X11.  The first line must hold exactly one tab: otherwise [read_data]
    raises a [ValueError] before it reads anything else.  An empty file
    is such a file. *)
Theorem header_needs_two_fields (content : str) :
  count_occ Ascii.ascii_dec (hd [] (readlines content)) tab <> 1 ->
  read_data content = Raise ValueError.
Proof.
  intros Htabs. unfold read_data.
  pose proof (split_length tab (hd [] (readlines content))) as Hlen.
  destruct (split tab (hd [] (readlines content))) as [|sn [|sm [|]]];
    try done.
  simpl in Hlen. lia.
Qed.

(** X12.  When [read_data] completes, [X] has the rows and columns that the
    first line announces and [y] an element per row, however many lines
    follow; and no more lines follow than rows were announced. *)
Theorem read_data_shape (content : str) X y :
  read_data content = Ok (X, y) ->
  exists sn sm n m,
    split tab (hd [] (readlines content)) = [sn; sm]
    /\ py_int sn = Ok n /\ py_int sm = Ok m
    /\ (0 <= n)%Z /\ (0 <= m)%Z
    /\ length X = Z.to_nat n
    /\ length y = Z.to_nat n
    /\ Forall (fun row => length row = Z.to_nat m) X
    /\ length (tl (readlines content)) <= Z.to_nat n.
Proof.
  intros Hrun.
  destruct (read_data_Ok _ _ _ Hrun)
    as (sn & sm & n & m & Hsplit & Hn & Hm & Hn0 & Hm0 & Hrows).
  destruct (read_rows_Ok _ _ _ _ _ _ _ Hrows)
    as (HlenX & Hleny & Hroom & Hout & Hin).
  rewrite !length_replicate in *.
  exists sn, sm, n, m. split_and!; try done.
  - apply Forall_lookup. intros j row Hj.
    destruct (decide (j < length (tl (readlines content)))) as [Hlt|Hge].
    + destruct (lookup_lt_is_Some_2 _ _ Hlt) as [line Hline].
      destruct (Hin j line Hline) as (p0 & fs & row' & _ & Hrow & _ & HX).
      simpl in HX. assert (row' = row) as -> by congruence.
      by eapply as_row_length.
    + destruct (Hout j) as [HX _]; [lia|]. rewrite HX in Hj.
      apply lookup_replicate in Hj as [-> _]. apply length_replicate.
  - destruct Hroom as [->|]; simpl; lia.
Qed.

(** X13.  When [read_data] completes, the line [i] after the first gave
    [y[i]] its first field and row [i] of [X] its other fields, a single
    other field being repeated over the row; a row for which the file
    has no line is left at zero, and so is its target. *)
Theorem read_data_rows (content : str) X y :
  read_data content = Ok (X, y) ->
  (forall i line, tl (readlines content) !! i = Some line ->
     exists p0 features row,
       mapM py_float (split tab line) = Ok (p0 :: features)
       /\ y !! i = Some p0
       /\ X !! i = Some row
       /\ (row = features
           \/ exists x, features = [x] /\ row = replicate (length row) x))
  /\ (forall i, length (tl (readlines content)) <= i < length y ->
        y !! i = Some fzero
        /\ exists row, X !! i = Some row /\ Forall (fun x => x = fzero) row).
Proof.
  intros Hrun.
  destruct (read_data_Ok _ _ _ Hrun)
    as (sn & sm & n & m & Hsplit & Hn & Hm & Hn0 & Hm0 & Hrows).
  destruct (read_rows_Ok _ _ _ _ _ _ _ Hrows)
    as (HlenX & Hleny & Hroom & Hout & Hin).
  rewrite !length_replicate in *.
  split.
  - intros i line Hline.
    destruct (Hin i line Hline) as (p0 & fs & row & Hp & Hrow & Hy & HX).
    exists p0, fs, row. split_and!; try done.
    by eapply as_row_cases.
  - intros i Hi. destruct (Hout i) as [HX Hy]; [lia|].
    rewrite HX, Hy.
    rewrite !lookup_replicate_2 by lia.
    split; [done|]. eexists. split; [done|].
    apply Forall_forall. by intros x [-> _]%elem_of_replicate.
Qed.

(** X14.  A file whose first line announces [n] samples and [m] features and
    whose other lines, at most [n], hold a target and [m] features each,
    is read: [X] holds the features and [y] the targets, line by line,
    followed by zeros for the samples that have no line. *)
Theorem read_data_well_formed (content : str) header lines sn sm (n m : Z)
    (parsed : list (num * Vec)) :
  readlines content = header :: lines ->
  split tab header = [sn; sm] ->
  py_int sn = Ok n -> py_int sm = Ok m ->
  (0 <= n)%Z -> (0 <= m)%Z ->
  Forall2 (fun line pr =>
             mapM py_float (split tab line) = Ok (pr.1 :: pr.2)
             /\ length pr.2 = Z.to_nat m) lines parsed ->
  length lines <= Z.to_nat n ->
  read_data content
  = Ok (map snd parsed
          ++ replicate (Z.to_nat n - length lines)
               (replicate (Z.to_nat m) fzero),
        map fst parsed ++ replicate (Z.to_nat n - length lines) fzero).
Proof.
  intros Hlines Hsplit Hn Hm Hn0 Hm0 Hall Hroom.
  unfold read_data. rewrite Hlines. simpl. rewrite Hsplit, Hn. simpl.
  rewrite Hm. simpl. unfold np_zeros2, np_zeros.
  destruct (Z.ltb_spec n 0); [lia|]. destruct (Z.ltb_spec m 0); [lia|]. simpl.
  rewrite (read_rows_run _ _ parsed).
  - simpl. by rewrite !drop_replicate.
  - eapply Forall2_impl; [exact Hall|].
    intros line pr [Hp Hlen]. exists pr.2. split; [done|].
    by apply as_row_same.
  - by rewrite !length_replicate.
  - rewrite length_replicate. simpl. lia.
Qed.

(** ** The constructor on a file *)

(** X15.  Constructed without a split ([test_size] not above 0), the model
    holds every sample of the file: [X] is what [read_data] read, [y] is
    what it read divided by [norm], and there is a target per row. *)
Theorem model_from_file {Model : Type} {sk : Sklearn num Model}
    depth0 (content : str) norm0 test_size lasso0 (s0 : State num Model) :
  init_from_file depth0 content norm0 test_size lasso0 = Ok s0 ->
  fltb fzero test_size = false ->
  exists X0 y0,
    read_data content = Ok (X0, y0)
    /\ X (self s0) = X0
    /\ y_values s0 = vdiv_scalar y0 norm0
    /\ length (y_values s0) = length (X (self s0))
    /\ X_test (self s0) = None.
Proof.
  unfold init_from_file. intros Hinit Hts.
  destruct (read_data content) as [[X0 y0]|] eqn:Hread; [|discriminate].
  simpl in Hinit. exists X0, y0. split; [done|].
  destruct (read_data_Ok _ _ _ Hread)
    as (sn & sm & n & m & _ & _ & _ & _ & _ & Hrows).
  destruct (read_rows_Ok _ _ _ _ _ _ _ Hrows) as (HlenX & Hleny & _).
  rewrite !length_replicate in *.
  unfold init in Hinit.
  destruct (np_zeros (depth0 + 2)) as [mc|]; simpl in Hinit; [|discriminate].
  rewrite Hts in Hinit. injection Hinit as <-.
  unfold y_values, vdiv_scalar. simpl.
  split_and!; try done. rewrite length_map. lia.
Qed.

End DataFileFacts.

(** * Pair interactions *)

Section PairInteractionsFacts.
Local Open Scope nat_scope.
Context {num : Type} {ar : Arith num}.

Local Abbreviation Vec := (list num) (only parsing).
Local Abbreviation Matrix := (list (list num)) (only parsing).

(** blocks of the same length, one after the other *)
Lemma lookup_concat_blocks {A} (m : nat) (blocks : list (list A)) :
  Forall (fun b => length b = m) blocks ->
  forall i j, j < m -> concat blocks !! (i * m + j) = blocks !! i ≫= (.!! j).
Proof.
  induction 1 as [|b blocks Hb Hall IH]; intros i j Hj; [done|].
  destruct i as [|i]; simpl.
  - rewrite lookup_app_l by lia. done.
  - rewrite lookup_app_r by lia.
    replace (m + i * m + j - length b) with (i * m + j) by lia. by apply IH.
Qed.

Lemma length_concat_blocks {A} (m : nat) (blocks : list (list A)) :
  Forall (fun b => length b = m) blocks ->
  length (concat blocks) = length blocks * m.
Proof. induction 1; simpl; [done|]. rewrite length_app. lia. Qed.

(** the two index arrays: column [i * m + j] pairs column [j] with
    column [i] *)
Lemma prods_lookup m i j :
  i < m -> j < m ->
  let prods := reshape_pairs (meshgrid (seq 0 m) (seq 0 m)) in
  prods.1 !! (i * m + j) = Some j /\ prods.2 !! (i * m + j) = Some i.
Proof.
  intros Hi Hj. simpl. repeat change (map ?f ?l) with (f <$> l). split.
  - rewrite (lookup_concat_blocks m); [| |done].
    + rewrite list_lookup_fmap, lookup_seq_lt by done. simpl.
      by apply lookup_seq_lt.
    + apply Forall_fmap, Forall_true. intros y. simpl. apply length_seq.
  - rewrite (lookup_concat_blocks m); [| |done].
    + rewrite list_lookup_fmap, lookup_seq_lt by done. simpl.
      by rewrite list_lookup_fmap, lookup_seq_lt by done.
    + apply Forall_fmap, Forall_true. intros y. simpl.
      by rewrite length_fmap, length_seq.
Qed.

Lemma Forall_concat_blocks {A} (P : A -> Prop) (blocks : list (list A)) :
  Forall (Forall P) blocks -> Forall P (concat blocks).
Proof. induction 1; simpl; [constructor | by apply Forall_app]. Qed.

Lemma prods_length m :
  let prods := reshape_pairs (meshgrid (seq 0 m) (seq 0 m)) in
  length prods.1 = m * m /\ length prods.2 = m * m
  /\ Forall (fun j => j < m) prods.1 /\ Forall (fun j => j < m) prods.2.
Proof.
  simpl. repeat change (map ?f ?l) with (f <$> l). split_and!.
  - rewrite (length_concat_blocks m), length_fmap, length_seq; [done|].
    apply Forall_fmap, Forall_true. intros y. simpl. apply length_seq.
  - rewrite (length_concat_blocks m), length_fmap, length_seq; [done|].
    apply Forall_fmap, Forall_true. intros y. simpl.
    by rewrite length_fmap, length_seq.
  - apply Forall_concat_blocks, Forall_fmap, Forall_true. intros y. simpl.
    apply Forall_forall. intros j Hj%elem_of_seq. lia.
  - apply Forall_concat_blocks, Forall_fmap, Forall_forall.
    intros y Hy%elem_of_seq. simpl.
    apply Forall_fmap, Forall_true. intros ?. simpl. lia.
Qed.

Lemma take_row (row : Vec) (idx : list nat) :
  Forall (fun j => j < length row) idx ->
  exists picked,
    mapM (fun j => match row !! j with
                   | Some x => Ok x
                   | None => Raise IndexError
                   end) idx = Ok picked
    /\ length picked = length idx
    /\ forall k j, idx !! k = Some j -> picked !! k = row !! j.
Proof.
  induction 1 as [|j idx Hj Hall (picked & Hrun & Hlen & Hlook)].
  { exists []. by split_and!. }
  destruct (lookup_lt_is_Some_2 row j Hj) as [x Hx].
  exists (x :: picked). simpl. rewrite Hx. simpl. rewrite Hrun. simpl.
  split_and!; [done | by rewrite Hlen |].
  intros [|k] j' Hk; simpl in *; [by simplify_eq | by apply Hlook].
Qed.

Lemma take_columns_run (X : Matrix) (idx : list nat) m :
  Forall (fun row => length row = m) X ->
  Forall (fun j => j < m) idx ->
  exists A,
    take_columns X idx = Ok A
    /\ length A = length X
    /\ forall r row, X !! r = Some row ->
         exists picked,
           A !! r = Some picked /\ length picked = length idx
           /\ forall k j, idx !! k = Some j -> picked !! k = row !! j.
Proof.
  intros HX Hidx. unfold take_columns.
  induction HX as [|row X Hrow HX (A & Hrun & Hlen & Hlook)].
  { exists []. by split_and!. }
  destruct (take_row row idx) as (picked & Hp & Hplen & Hplook).
  { by rewrite Hrow. }
  exists (picked :: A). simpl. rewrite Hp. simpl.
  simpl in Hrun. rewrite Hrun. simpl.
  split_and!; [done | by rewrite Hlen |].
  intros [|r] row' Hr; simpl in *; [|by apply Hlook].
  injection Hr as <-. eauto.
Qed.

(** the two matrices of columns whose product [pair_interactions]
    returns *)
Lemma pair_interactions_run (m : nat) (X : Matrix) :
  1 <= m ->
  Forall (fun row => length row = m) X ->
  exists A1 A2,
    pair_interactions m X = Ok (zip_with (zip_with fmul) A1 A2)
    /\ length A1 = length X /\ length A2 = length X
    /\ forall r row, X !! r = Some row ->
         exists a b,
           A1 !! r = Some a /\ A2 !! r = Some b
           /\ length a = m * m /\ length b = m * m
           /\ forall i j, i < m -> j < m ->
                a !! (i * m + j) = row !! j /\ b !! (i * m + j) = row !! i.
Proof.
  intros Hm HX. unfold pair_interactions.
  destruct (decide (m = 0)); [lia|].
  destruct (prods_length m) as (Hl1 & Hl2 & Hb1 & Hb2).
  pose proof (prods_lookup m) as Hprods.
  cbv zeta in Hl1, Hl2, Hb1, Hb2, Hprods |- *.
  generalize dependent (reshape_pairs (meshgrid (seq 0 m) (seq 0 m))).
  intros prods Hl1 Hl2 Hb1 Hb2 Hprods.
  destruct (take_columns_run X prods.1 m HX Hb1) as (A1 & Hrun1 & Hlen1 & Hlook1).
  destruct (take_columns_run X prods.2 m HX Hb2) as (A2 & Hrun2 & Hlen2 & Hlook2).
  rewrite Hrun1. simpl. rewrite Hrun2. simpl.
  exists A1, A2. split_and!; try done.
  intros r row Hr.
  destruct (Hlook1 r row Hr) as (a & Ha & Hla & Hea).
  destruct (Hlook2 r row Hr) as (b & Hb & Hlb & Heb).
  exists a, b. split_and!; try done; try lia.
  intros i j Hi Hj. destruct (Hprods i j Hi Hj) as [Hp1 Hp2].
  by rewrite (Hea _ _ Hp1), (Heb _ _ Hp2).
Qed.

(** X16.  On a matrix with [m >= 1] columns, [pair_interactions] returns a
    matrix with the same rows and [m * m] columns: in every row, column
    [i * m + j] is the product of the elements in columns [j] and [i]. *)
Theorem pair_interactions_products (m : nat) (X : Matrix) :
  1 <= m ->
  Forall (fun row => length row = m) X ->
  exists A,
    pair_interactions m X = Ok A
    /\ length A = length X
    /\ forall r row, X !! r = Some row ->
         exists arow,
           A !! r = Some arow
           /\ length arow = m * m
           /\ forall i j xi xj,
                row !! i = Some xi -> row !! j = Some xj ->
                arow !! (i * m + j) = Some (fmul xj xi).
Proof.
  intros Hm HX.
  destruct (pair_interactions_run m X Hm HX)
    as (A1 & A2 & Hrun & Hlen1 & Hlen2 & Hrows).
  eexists. split; [exact Hrun|].
  split; [rewrite length_zip_with; lia|].
  intros r row Hr.
  destruct (Hrows r row Hr) as (a & b & Ha & Hb & Hla & Hlb & Hentries).
  exists (zip_with fmul a b).
  split; [by rewrite lookup_zip_with, Ha, Hb|].
  split; [rewrite length_zip_with; lia|].
  intros i j xi xj Hi Hj.
  assert (i < m /\ j < m) as [Him Hjm].
  { rewrite Forall_forall in HX.
    rewrite <- (HX row) by (by eapply list_elem_of_lookup_2).
    split; by eapply lookup_lt_Some. }
  destruct (Hentries i j Him Hjm) as [Hea Heb].
  by rewrite lookup_zip_with, Hea, Heb, Hj, Hi.
Qed.

Section Commutative.
Hypothesis fmul_comm : forall a b : num, fmul a b = fmul b a.

(** X17.  Every product is there twice: with a commutative product, as that
    of floats is, columns [i * m + j] and [j * m + i] of the result are
    the same in every row. *)
Theorem pair_interactions_symmetric (m : nat) (X A : Matrix) r arow i j :
  Forall (fun row => length row = m) X ->
  pair_interactions m X = Ok A ->
  A !! r = Some arow ->
  i < m -> j < m ->
  arow !! (i * m + j) = arow !! (j * m + i).
Proof using fmul_comm.
  intros HX Hrun Hr Hi Hj.
  assert (1 <= m) as Hm by lia.
  destruct (pair_interactions_run m X Hm HX)
    as (A1 & A2 & Hrun' & Hlen1 & Hlen2 & Hrows).
  rewrite Hrun' in Hrun. injection Hrun as <-.
  rewrite lookup_zip_with in Hr.
  destruct (A1 !! r) as [a|] eqn:Ha; [|done].
  destruct (A2 !! r) as [b|] eqn:Hb; [|done].
  simpl in Hr. injection Hr as <-.
  destruct (lookup_lt_is_Some_2 X r) as [row Hrow].
  { rewrite <- Hlen1. by eapply lookup_lt_Some. }
  destruct (Hrows r row Hrow) as (a' & b' & Ha' & Hb' & _ & _ & Hentries).
  assert (a' = a) as -> by congruence.
  assert (b' = b) as -> by congruence.
  destruct (Hentries i j Hi Hj) as [Hija Hijb].
  destruct (Hentries j i Hj Hi) as [Hjia Hjib].
  rewrite !lookup_zip_with, Hija, Hijb, Hjia, Hjib.
  destruct (row !! i), (row !! j); simpl; [|done..].
  by rewrite fmul_comm.
Qed.
End Commutative.

End PairInteractionsFacts.

(** * Further worked examples *)

Section MoreExamples.
Import Exact Files Samples.
Local Open Scope Q_scope.

Lemma Q_predict_shape (m : Line Q) (Xm : list (list Q)) v :
  model_predict m Xm = Ok v -> length v = length Xm.
Proof. apply (line_predict_shape (num := Q)). Qed.

Lemma float_predict_shape (m : Line float) (Xm : list (list float)) v :
  model_predict m Xm = Ok v -> length v = length Xm.
Proof. apply (line_predict_shape (num := float)). Qed.

Lemma predict_before_fit_witness :
  toy_predict [[4]] None toy_start = (Raise AttributeError, toy_start)
  /\ toy_mse false toy_start = (Raise AttributeError, toy_start).
Proof.
  exact (predict_before_fit 3 (toy_X, toy_y) 1 0 false toy_start [[4]] None
           false toy_start_constructed).
Defined.

Lemma mse_without_test_data_witness :
  toy_mse true toy_start = (Raise AttributeError, toy_start)
  /\ toy_mse true toy_model = (Raise AttributeError, toy_model).
Proof.
  exact (mse_without_test_data 3 (toy_X, toy_y) 1 0 false toy_start toy_model
           (Ok tt) toy_start_constructed eq_refl toy_model_fitted).
Defined.

Lemma predict_one_value_per_row_witness :
  length [63 # 22] = length [[4]] /\ toy_model = toy_model.
Proof.
  exact (predict_one_value_per_row Q_predict_shape toy_model toy_model [[4]]
           (Some 3%Z) [63 # 22] eq_refl).
Defined.

Example shallow_start_constructed :
  new 1 (toy_X, toy_y) 1 0 false = Ok shallow_start.
Proof. reflexivity. Qed.

Example shallow_model_fitted : toy_fit shallow_start = (Ok tt, shallow_model).
Proof. vm_compute. reflexivity. Qed.

Lemma depth_one_is_the_regressor_witness :
  exists m,
    regress false toy_X (y_values shallow_start) = Ok m
    /\ forall X_pred,
         toy_predict X_pred None shallow_model = (model_predict m X_pred, shallow_model).
Proof.
  exact (depth_one_is_the_regressor (toy_X, toy_y) 1 0 false
           shallow_start shallow_model
           shallow_start_constructed shallow_model_fitted).
Defined.

Lemma predict_ignores_padding_witness :
  (toy_predict [[4]] (Some 3%Z) (set_offset toy_model 0 7)).1
  = (toy_predict [[4]] (Some 3%Z) toy_model).1.
Proof.
  exact (predict_ignores_padding toy_model [[4]] (Some 3%Z) 0 7
           (or_introl eq_refl)).
Defined.

Lemma fit_again_witness :
  exists s2,
    toy_fit toy_model = (Ok tt, s2)
    /\ linear_models (self s2) = linear_models (self toy_model)
    /\ offsets s2 = offsets toy_model
    /\ y_values s2 = y_values toy_model
    /\ forall X_pred max_depth,
         (toy_predict X_pred max_depth s2).1
         = (toy_predict X_pred max_depth toy_model).1.
Proof.
  exact (fit_again Q_predict_shape 3 (toy_X, toy_y) 1 0 false
           toy_start toy_model toy_start_constructed toy_model_fitted).
Defined.

(** the model of depth 2 that was constructed with a held-out row
    trains on the rows of the toy model of depth 3 *)
Lemma truncated_prediction_witness :
  exists s',
    toy_fit held_out_start = (Ok tt, s')
    /\ forall X_pred,
         (toy_predict X_pred None s').1
         = (toy_predict X_pred (Some 2%Z) toy_model).1.
Proof.
  refine (truncated_prediction Q_predict_shape
            3 (toy_X, toy_y) 1 0
            2 (toy_X ++ [[4]], toy_y ++ [5]) 1 (1 # 4) false
            toy_start held_out_start toy_model
            toy_start_constructed _ eq_refl eq_refl _ toy_model_fitted).
  - reflexivity.
  - lia.
Defined.

(** on the targets [0; 2^60] the second pass cannot fit its target
    [inf; 2^-60] *)
Lemma fit_fails_only_in_the_regressor_witness :
  exists d yfit s_d target,
    (Z.of_nat d < 2)%Z
    /\ passes (Float64.wide_start 2) d = (Ok yfit, s_d)
    /\ heap s_d !! yfit = Some target
    /\ (regress false (X (self (Float64.wide_start 2))) target
          = Raise ValueError
        /\ Float64.wide_partial = s_d
        \/ exists m : Line float,
             regress false (X (self (Float64.wide_start 2))) target = Ok m
             /\ model_predict m (X (self (Float64.wide_start 2)))
                 = Raise ValueError
             /\ (append_model m s_d).2 = Float64.wide_partial).
Proof.
  refine (fit_fails_only_in_the_regressor float_predict_shape
            2 (Float64.flat_X, Float64.wide_y) 1%float 0%float false
            (Float64.wide_start 2) Float64.wide_partial ValueError
            _ _ _ _).
  - reflexivity.
  - reflexivity.
  - discriminate.
  - vm_compute. reflexivity.
Defined.

End MoreExamples.

Section FileExamples.
Import Exact Files Samples.
Local Open Scope Q_scope.

(** an empty file has no first line to unpack *)
Lemma header_needs_two_fields_witness :
  read_data [] = Raise ValueError.
Proof.
  refine (header_needs_two_fields (num := Q) [] _). simpl. lia.
Defined.

Example short_file_read :
  read_data short_file = Ok (short_X, short_y).
Proof. vm_compute. reflexivity. Qed.

Lemma read_data_shape_witness :
  exists sn sm n m,
    split tab (hd [] (readlines short_file)) = [sn; sm]
    /\ py_int sn = Ok n /\ py_int sm = Ok m
    /\ (0 <= n)%Z /\ (0 <= m)%Z
    /\ length short_X = Z.to_nat n
    /\ length short_y = Z.to_nat n
    /\ Forall (fun row : list Q => length row = Z.to_nat m)
         short_X
    /\ (length (tl (readlines short_file)) <= Z.to_nat n)%nat.
Proof.
  exact (read_data_shape short_file _ _ short_file_read).
Defined.

(** the second line of the short file has one feature, which fills the
    row; the third row is left at zero *)
Lemma read_data_rows_witness :
  (forall i line, tl (readlines short_file) !! i = Some line ->
     exists p0 features row,
       mapM py_float (split tab line) = Ok (p0 :: features)
       /\ short_y !! i = Some p0
       /\ short_X !! i = Some row
       /\ (row = features
           \/ exists x, features = [x] /\ row = replicate (length row) x))
  /\ (forall i,
        (length (tl (readlines short_file)) <= i < length short_y)%nat ->
        short_y !! i = Some 0
        /\ exists row, short_X !! i = Some row
                       /\ Forall (fun x => x = 0) row).
Proof.
  exact (read_data_rows short_file _ _ short_file_read).
Defined.

Lemma read_data_well_formed_witness :
  read_data toy_file = Ok (toy_X ++ [], toy_y ++ []).
Proof.
  refine (read_data_well_formed toy_file
            (hd [] (readlines toy_file)) (tl (readlines toy_file))
            (hd [] (split tab (hd [] (readlines toy_file))))
            (hd [] (tl (split tab (hd [] (readlines toy_file))))) 3 1
            [(1, [1]); (3, [2]); (2, [3])] _ _ _ _ _ _ _ _).
  - reflexivity.
  - reflexivity.
  - reflexivity.
  - reflexivity.
  - lia.
  - lia.
  - repeat constructor.
  - simpl. lia.
Defined.

Lemma model_from_file_witness :
  exists X0 y0,
    read_data toy_file = Ok (X0, y0)
    /\ X (self toy_start) = X0
    /\ y_values toy_start = vdiv_scalar y0 1
    /\ length (y_values toy_start) = length (X (self toy_start))
    /\ X_test (self toy_start) = None.
Proof.
  refine (model_from_file 3 toy_file 1 0 false toy_start _ eq_refl).
  change (from_file 3 toy_file 1 0 false = Ok toy_start).
  vm_compute. reflexivity.
Defined.

Example pairs_X_interactions :
  pair_interactions 2 pairs_X = Ok pairs_A.
Proof. vm_compute. reflexivity. Qed.

Lemma pair_interactions_products_witness :
  exists A,
    pair_interactions 2 pairs_X = Ok A
    /\ length A = length pairs_X
    /\ forall r row, pairs_X !! r = Some row ->
         exists arow,
           A !! r = Some arow
           /\ length arow = (2 * 2)%nat
           /\ forall i j xi xj,
                row !! i = Some xi -> row !! j = Some xj ->
                arow !! (i * 2 + j)%nat = Some (fmul xj xi).
Proof.
  refine (pair_interactions_products 2 pairs_X _ _).
  - lia.
  - repeat constructor.
Defined.

Lemma Q_fmul_comm (a b : Q) : fmul a b = fmul b a.
Proof.
  change (Qred (a * b) = Qred (b * a)). apply Qred_complete. ring.
Qed.

Lemma pair_interactions_symmetric_witness :
  [25; 35; 35; 49] !! (0 * 2 + 1)%nat = [25; 35; 35; 49] !! (1 * 2 + 0)%nat.
Proof.
  refine (pair_interactions_symmetric Q_fmul_comm 2 pairs_X
            pairs_A 1 [25; 35; 35; 49] 0 1
            _ pairs_X_interactions eq_refl _ _).
  - repeat constructor.
  - lia.
  - lia.
Defined.

End FileExamples.

Section FrameExample.
Import Exact.
Local Open Scope Q_scope.

(** after [fit] the toy model has the features and the targets it had *)
Lemma fit_changes_only_its_results_witness :
  X (self (toy_fit toy_start).2) = toy_X
  /\ heap (toy_fit toy_start).2 !! 0%nat = Some toy_y.
Proof.
  destruct (fit_changes_only_its_results toy_start)
    as (_ & _ & _ & HX & _ & _ & _ & _ & Harrays & _).
  split; [exact HX|].
  refine (Harrays 0%nat toy_y _ eq_refl). discriminate.
Defined.

End FrameExample.
